(** * Alpha Vantage MCP adapter: request gateway, formatters and tool dispatch

    A shallow embedding of [alpha_vantage_mcp/tools.py] and of the tool
    dispatcher of [alpha_vantage_mcp/server.py], with the properties of
    the specification proved (or refuted) against it.

    Layout:
    - [Py]: the fragment of Python the two files run on: parsed JSON
      values, exceptions, truthiness, [dict.get], [in], subscripting,
      [str()], [float()], [<], [==], and [sorted] over CPython's
      [list.sort];
    - [Tools]: [make_alpha_request] and the five formatters;
    - [Server]: [handle_call_tool];
    - [CPython] and [Fixtures]: an interpretation of the builtins and a
      few payloads, to run the model on closed inputs;
    - the vocabulary of the properties, then the theorems, one group per
      program unit, and worked examples. *)

From Stdlib Require Import ZArith List String Ascii Bool Lia.
From Stdlib Require Import Floats.SpecFloat DecimalString.
From Stdlib Require Import Sorting.Sorted Sorting.Permutation.
Import ListNotations.

Open Scope list_scope.
Open Scope string_scope.

(* ================================================================== *)
(** * The Python fragment *)
(* ================================================================== *)

Module Py.

(** ** Values

    What [response.json()] produces: [None], booleans, integers of any
    size, binary64 floats (the JSON reader also accepts [NaN] and
    [Infinity]), strings, lists, and dictionaries.  A dictionary keeps
    its insertion order, so it is an association list; the reader never
    produces one with a repeated key (see [dict_wf]).  A string is the
    UTF-8 encoding of the Python [str]: byte-wise lexicographic order then
    coincides with Python's order by code point. *)

#[local] Set Warnings "-register-all".

Inductive value : Type :=
| VNone
| VBool (b : bool)
| VInt (z : Z)
| VFloat (f : spec_float)
| VStr (s : string)
| VList (l : list value)
| VDict (d : list (string * value)).

Abbreviation dict := (list (string * value)).

Inductive pytype := TNone | TBool | TInt | TFloat | TStr | TList | TDict.

Definition type_of (v : value) : pytype :=
  match v with
  | VNone => TNone | VBool _ => TBool | VInt _ => TInt | VFloat _ => TFloat
  | VStr _ => TStr | VList _ => TList | VDict _ => TDict
  end.

(** ** Exceptions

    Every exception below derives from [Exception].  A constructor
    records what the interpreter knows when it raises; the text that
    [str(e)] yields is the interpreter's business ([exn_message]).
    (The [HTTPStatusError] of [httpx] is raised and caught inside
    [make_alpha_request]; its text comes with the response, see
    [status_error].) *)

Inductive exn :=
| AttributeError (t : pytype) (attr : string)
| TypeError (op : string) (ts : list pytype)
| ValueError (arg : string)
| OverflowError
| KeyError (key : string)
| OtherException (info : string).

Inductive result (A : Type) :=
| Ok (a : A)
| Raise (e : exn).
Arguments Ok {A} a.
Arguments Raise {A} e.

Definition bind {A B} (m : result A) (k : A -> result B) : result B :=
  match m with
  | Ok a => k a
  | Raise e => Raise e
  end.

Notation "x <- m ;; k" := (bind m (fun x => k))
  (at level 61, m at next level, right associativity).

Notation "' p <- m ;; k" := (bind m (fun x => match x with p => k end))
  (at level 61, p pattern, m at next level, right associativity).

(** [try: ... except (ValueError, TypeError): handler] *)
Definition is_value_or_type_error (e : exn) : bool :=
  match e with
  | ValueError _ | TypeError _ _ => true
  | _ => false
  end.

(** ** Builtins left to the interpreter

    The pieces of CPython whose exact output no property below depends
    on.  [float_of_str s] is [float(s)] on a [str] ([None]: it raised
    [ValueError]); [str_float] is [str()] of a float; [repr_str] is
    [repr()] of a [str]; [str_upper] is [str.upper]; [fmt_2f] is the
    format specification [:.2f]. *)

Class Builtins := {
  float_of_str : string -> option spec_float;
  str_float : spec_float -> string;
  repr_str : string -> string;
  str_upper : string -> string;
  fmt_2f : value -> result string;
  exn_message : exn -> string
}.

(** ** Strings *)

(** [needle in hay] on two strings. *)
Fixpoint contains (needle hay : string) : bool :=
  if String.prefix needle hay then true
  else match hay with
       | EmptyString => false
       | String _ hay' => contains needle hay'
       end.

(** [s.replace(c, '')] for a one-character [c]. *)
Fixpoint remove_char (c : ascii) (s : string) : string :=
  match s with
  | EmptyString => EmptyString
  | String a s' =>
      if Ascii.eqb a c then remove_char c s' else String a (remove_char c s')
  end.

(** [sep.join(parts)] *)
Fixpoint join (sep : string) (parts : list string) : string :=
  match parts with
  | [] => ""
  | [p] => p
  | p :: rest => p ++ sep ++ join sep rest
  end.

Definition nl : string := String (ascii_of_nat 10) EmptyString.

(** ["".join(parts)] *)
Definition concat_all (parts : list string) : string :=
  fold_right String.append "" parts.

Definition str_int (z : Z) : string := NilZero.string_of_int (Z.to_int z).

(** ** Dictionaries *)

Fixpoint lookup (k : string) (d : dict) : option value :=
  match d with
  | [] => None
  | (k', v) :: d' => if String.eqb k k' then Some v else lookup k d'
  end.

Definition has_key (k : string) (d : dict) : bool :=
  match lookup k d with Some _ => true | None => false end.

(** [d[k] = v]: an existing key keeps its place. *)
Fixpoint dict_set (k : string) (v : value) (d : dict) : dict :=
  match d with
  | [] => [(k, v)]
  | (k', v') :: d' =>
      if String.eqb k k' then (k, v) :: d' else (k', v') :: dict_set k v d'
  end.

(** [d.update(other)] *)
Definition dict_update (d other : dict) : dict :=
  fold_left (fun acc kv => dict_set (fst kv) (snd kv) acc) other d.

Definition keys (d : dict) : list string := map fst d.

Definition dict_wf (d : dict) : Prop := NoDup (keys d).

(** ** Truthiness, [.get], [in], subscript *)

Definition is_zero_float (f : spec_float) : bool :=
  match f with S754_zero _ => true | _ => false end.

(** [bool(v)]; [not v] is its negation. *)
Definition truthy (v : value) : bool :=
  match v with
  | VNone => false
  | VBool b => b
  | VInt z => negb (Z.eqb z 0)
  | VFloat f => negb (is_zero_float f)
  | VStr s => negb (String.eqb s "")
  | VList l => match l with [] => false | _ => true end
  | VDict d => match d with [] => false | _ => true end
  end.

(** [v.get(k, default)]: only a dictionary has the attribute. *)
Definition get (v : value) (k : string) (default : value) : result value :=
  match v with
  | VDict d => Ok (match lookup k d with Some x => x | None => default end)
  | _ => Raise (AttributeError (type_of v) "get")
  end.

Definition is_str (s : string) (v : value) : bool :=
  match v with VStr s' => String.eqb s s' | _ => false end.

(** [k in v] for a string [k]: key of a dictionary, element of a list
    (only a string equals a string), substring of a string. *)
Definition str_in (k : string) (v : value) : result bool :=
  match v with
  | VDict d => Ok (has_key k d)
  | VList l => Ok (existsb (is_str k) l)
  | VStr s => Ok (contains k s)
  | _ => Raise (TypeError "in" [type_of v])
  end.

(** [v[k]] for a string [k]. *)
Definition subscript (v : value) (k : string) : result value :=
  match v with
  | VDict d => match lookup k d with
               | Some x => Ok x
               | None => Raise (KeyError k)
               end
  | _ => Raise (TypeError "subscript" [type_of v; TStr])
  end.

(** ** [str()] and [repr()] *)

Section Text.
Context {B : Builtins}.

Fixpoint py_repr (v : value) : string :=
  match v with
  | VNone => "None"
  | VBool true => "True"
  | VBool false => "False"
  | VInt z => str_int z
  | VFloat f => str_float f
  | VStr s => repr_str s
  | VList l => "[" ++ join ", " (map py_repr l) ++ "]"
  | VDict d =>
      "{" ++ join ", "
        ((fix items (d : list (string * value)) : list string :=
            match d with
            | [] => []
            | (k, x) :: d' => (repr_str k ++ ": " ++ py_repr x) :: items d'
            end) d) ++ "}"
  end.

(** What an f-string field [{v}] renders. *)
Definition py_str (v : value) : string :=
  match v with
  | VStr s => s
  | _ => py_repr v
  end.

End Text.

(** ** Numbers

    [bool] is a subclass of [int]; [int] and [float] compare by exact
    mathematical value. *)

Inductive num := NInt (z : Z) | NFloat (f : spec_float).

Definition as_num (v : value) : option num :=
  match v with
  | VBool b => Some (NInt (if b then 1 else 0))
  | VInt z => Some (NInt z)
  | VFloat f => Some (NFloat f)
  | _ => None
  end.

Definition signed (s : bool) (m : positive) : Z :=
  if s then Z.neg m else Z.pos m.

(** An integer against a float ([None] against [NaN]). *)
Definition compare_int_float (z : Z) (f : spec_float) : option comparison :=
  match f with
  | S754_nan => None
  | S754_infinity s => Some (if s then Gt else Lt)
  | S754_zero _ => Some (Z.compare z 0)
  | S754_finite s m e =>
      Some (if Z.leb 0 e
            then Z.compare z (signed s m * 2 ^ e)
            else Z.compare (z * 2 ^ (- e)) (signed s m))
  end.

Definition num_compare (a b : num) : option comparison :=
  match a, b with
  | NInt x, NInt y => Some (Z.compare x y)
  | NInt x, NFloat g => compare_int_float x g
  | NFloat f, NInt y => option_map CompOpp (compare_int_float y f)
  | NFloat f, NFloat g => SFcompare f g
  end.

Definition num_lt (a b : num) : bool :=
  match num_compare a b with Some Lt => true | _ => false end.

Definition num_eq (a b : num) : bool :=
  match num_compare a b with Some Eq => true | _ => false end.

(** [float(z)] for an [int]: the nearest binary64, ties to even;
    [OverflowError] when that is out of range. *)
Definition float_of_int (z : Z) : result spec_float :=
  match binary_normalize 53 1024 z 0 false with
  | S754_infinity _ => Raise OverflowError
  | f => Ok f
  end.

Definition is_nan (f : spec_float) : bool :=
  match f with S754_nan => true | _ => false end.

(** ** [==] and [<]

    Two dictionaries are equal when each has the other's items, whatever
    the order.  Lists compare lexicographically: the first pair of
    unequal elements decides, else the lengths do. *)

Fixpoint py_eq (a b : value) {struct a} : bool :=
  match a, b with
  | VNone, VNone => true
  | VStr s, VStr t => String.eqb s t
  | VList l, VList m =>
      (fix all2 (l : list value) (m : list value) {struct l} : bool :=
         match l, m with
         | [], [] => true
         | x :: l', y :: m' => py_eq x y && all2 l' m'
         | _, _ => false
         end) l m
  | VDict d, VDict e =>
      (fix sub (d : list (string * value)) : bool :=
         match d with
         | [] => true
         | (k, x) :: d' =>
             existsb (fun ky => String.eqb k (fst ky) && py_eq x (snd ky)) e
             && sub d'
         end) d
      && forallb
           (fun ky =>
              (fix has (d : list (string * value)) : bool :=
                 match d with
                 | [] => false
                 | (k, x) :: d' =>
                     (String.eqb k (fst ky) && py_eq x (snd ky)) || has d'
                 end) d) e
  | _, _ =>
      match as_num a, as_num b with
      | Some x, Some y => num_eq x y
      | _, _ => false
      end
  end.

Definition unorderable (a b : value) : exn :=
  TypeError "<" [type_of a; type_of b].

Fixpoint py_lt (a b : value) {struct a} : result bool :=
  match a, b with
  | VStr s, VStr t => Ok (String.ltb s t)
  | VList l, VList m =>
      (fix lex (l : list value) (m : list value) {struct l} : result bool :=
         match l, m with
         | [], [] => Ok false
         | [], _ :: _ => Ok true
         | _ :: _, [] => Ok false
         | x :: l', y :: m' => if py_eq x y then lex l' m' else py_lt x y
         end) l m
  | _, _ =>
      match as_num a, as_num b with
      | Some x, Some y => Ok (num_lt x y)
      | _, _ => Raise (unorderable a b)
      end
  end.

(** ** [float()] *)

Section Float.
Context {B : Builtins}.

Definition py_float (v : value) : result spec_float :=
  match v with
  | VBool b => float_of_int (if b then 1 else 0)
  | VInt z => float_of_int z
  | VFloat f => Ok f
  | VStr s => match float_of_str s with
              | Some f => Ok f
              | None => Raise (ValueError s)
              end
  | _ => Raise (TypeError "float" [type_of v])
  end.

End Float.

(** ** [list.sort]

    CPython's [list.sort] (Objects/listobject.c, as of 3.11): natural
    runs are found from left to right ([count_run]), a short run is
    extended to [minrun] elements by binary insertion ([binarysort]),
    and the runs, kept on a stack, are merged pairwise ([merge_at],
    with [merge_lo], [merge_hi] and galloping) in the order the
    powersort rule sets ([found_new_run], [merge_force_collapse]).  The
    elements are seen only through [ISLT], which may raise: the sort
    then stops with that exception.

    A slice of the array is a list; a loop is a recursion on [fuel], an
    upper bound of its number of rounds that is never used up. *)

Section ListSort.
Context {T : Type}.
Variable ISLT : T -> T -> result bool.

Local Open Scope nat_scope.

(** *** [count_run] *)

(** The further elements of a strictly descending run after [prev]. *)
Fixpoint descending_run (prev : T) (l : list T) : result nat :=
  match l with
  | [] => Ok O
  | x :: l' =>
      k <- ISLT x prev ;;
      if k then n <- descending_run x l' ;; Ok (S n) else Ok O
  end.

(** The further elements of a run that never descends after [prev]. *)
Fixpoint ascending_run (prev : T) (l : list T) : result nat :=
  match l with
  | [] => Ok O
  | x :: l' =>
      k <- ISLT x prev ;;
      if k then Ok O else n <- ascending_run x l' ;; Ok (S n)
  end.

(** The length of the run at the start of [l], and whether it
    descends. *)
Definition count_run (l : list T) : result (nat * bool) :=
  match l with
  | [] => Ok (O, false)
  | [_] => Ok (1, false)
  | x :: y :: l' =>
      k <- ISLT y x ;;
      if k then n <- descending_run y l' ;; Ok (2 + n, true)
      else n <- ascending_run y l' ;; Ok (2 + n, false)
  end.

(** *** [binarysort] *)

(** The binary search that ends [binarysort], [gallop_left] and
    [gallop_right]: [lo] and [hi] close in on the place of the key in
    [a], [go_left] telling from the middle element on which side of it
    the place is. *)
Fixpoint bisect (fuel : nat) (go_left : T -> result bool)
  (a : list T) (d : T) (lo hi : nat) : result nat :=
  match fuel with
  | O => Ok hi
  | S fuel' =>
      if lo <? hi then
        let m := lo + (hi - lo) / 2 in
        c <- go_left (nth m a d) ;;
        if c then bisect fuel' go_left a d lo m
        else bisect fuel' go_left a d (S m) hi
      else Ok hi
  end.

Definition insert_at (l : nat) (pivot : T) (a : list T) : list T :=
  (firstn l a ++ pivot :: skipn l a)%list.

(** [a] is the sorted part [lo, start), [rest] the part [start, hi) to
    insert, one element after the other. *)
Fixpoint binarysort (a rest : list T) : result (list T) :=
  match rest with
  | [] => Ok a
  | pivot :: rest' =>
      l <- bisect (List.length a) (ISLT pivot) a pivot O (List.length a) ;;
      binarysort (insert_at l pivot a) rest'
  end.

(** *** Galloping *)

(** The exponential search of [gallop_left] and [gallop_right]: [ofs]
    runs through 1, 3, 7, ... while it is below [maxofs] and [further]
    holds at it; [lastofs] is the offset before. *)
Fixpoint gallop_scan (fuel : nat) (further : nat -> result bool)
  (maxofs lastofs ofs : nat) : result (nat * nat) :=
  match fuel with
  | O => Ok (lastofs, ofs)
  | S fuel' =>
      if ofs <? maxofs then
        c <- further ofs ;;
        if c then gallop_scan fuel' further maxofs ofs (2 * ofs + 1)
        else Ok (lastofs, ofs)
      else Ok (lastofs, ofs)
  end.

Definition is_not (c : result bool) : result bool := b <- c ;; Ok (negb b).

(** The [k] with [a[k-1] < key <= a[k]]: left of the leftmost element
    equal to [key]. *)
Definition gallop_left (key : T) (a : list T) (hint : nat) : result nat :=
  let n := List.length a in
  k <- ISLT (nth hint a key) key ;;
  ' (lo, hi) <-
    (if k then
       (* a[hint] < key: gallop right, until
          a[hint + lastofs] < key <= a[hint + ofs] *)
       let maxofs := n - hint in
       ' (lastofs, ofs) <-
         gallop_scan maxofs (fun ofs => ISLT (nth (hint + ofs) a key) key)
           maxofs O 1 ;;
       let ofs := Nat.min ofs maxofs in
       Ok (S (hint + lastofs), hint + ofs)
     else
       (* key <= a[hint]: gallop left, until
          a[hint - ofs] < key <= a[hint - lastofs] *)
       let maxofs := S hint in
       ' (lastofs, ofs) <-
         gallop_scan maxofs
           (fun ofs => is_not (ISLT (nth (hint - ofs) a key) key))
           maxofs O 1 ;;
       let ofs := Nat.min ofs maxofs in
       Ok (S hint - ofs, hint - lastofs)) ;;
  bisect (hi - lo) (fun x => is_not (ISLT x key)) a key lo hi.

(** The [k] with [a[k-1] <= key < a[k]]: right of the rightmost element
    equal to [key]. *)
Definition gallop_right (key : T) (a : list T) (hint : nat) : result nat :=
  let n := List.length a in
  k <- ISLT key (nth hint a key) ;;
  ' (lo, hi) <-
    (if k then
       (* key < a[hint]: gallop left, until
          a[hint - ofs] <= key < a[hint - lastofs] *)
       let maxofs := S hint in
       ' (lastofs, ofs) <-
         gallop_scan maxofs (fun ofs => ISLT key (nth (hint - ofs) a key))
           maxofs O 1 ;;
       let ofs := Nat.min ofs maxofs in
       Ok (S hint - ofs, hint - lastofs)
     else
       (* a[hint] <= key: gallop right, until
          a[hint + lastofs] <= key < a[hint + ofs] *)
       let maxofs := n - hint in
       ' (lastofs, ofs) <-
         gallop_scan maxofs
           (fun ofs => is_not (ISLT key (nth (hint + ofs) a key)))
           maxofs O 1 ;;
       let ofs := Nat.min ofs maxofs in
       Ok (S (hint + lastofs), hint + ofs)) ;;
  bisect (hi - lo) (ISLT key) a key lo hi.

(** *** Merging two adjacent runs *)

Definition MIN_GALLOP : nat := 7.

(** Where a merge stands: taking one element at a time, with the
    number of times each run won in a row, or galloping. *)
Inductive merge_mode :=
| Straight (acount bcount : nat)
| Galloping.

(** A merge returns the merged elements and the new [min_gallop]. *)
Definition place (x : T) (m : result (list T * nat)) : result (list T * nat) :=
  ' (r, g) <- m ;; Ok (x :: r, g).

Definition place_all (xs : list T) (m : result (list T * nat))
  : result (list T * nat) :=
  ' (r, g) <- m ;; Ok ((xs ++ r)%list, g).

(** The loop of [merge_lo], filling from the left: [a] is what is left
    of the first run (more than one element), [b] of the second (not
    empty). *)
Fixpoint merge_lo_loop (fuel : nat) (mode : merge_mode) (min_gallop : nat)
  (a b : list T) : result (list T * nat) :=
  match fuel, a, b with
  | S fuel', x :: a', y :: b' =>
      match mode with
      | Straight acount bcount =>
          k <- ISLT y x ;;
          if k then
            place y
              match b' with
              | [] => Ok (a, min_gallop)
              | _ =>
                  if min_gallop <=? S bcount
                  then merge_lo_loop fuel' Galloping (S min_gallop) a b'
                  else merge_lo_loop fuel' (Straight O (S bcount)) min_gallop a b'
              end
          else
            place x
              match a' with
              | [_] => Ok ((b ++ a')%list, min_gallop)
              | _ =>
                  if min_gallop <=? S acount
                  then merge_lo_loop fuel' Galloping (S min_gallop) a' b
                  else merge_lo_loop fuel' (Straight (S acount) O) min_gallop a' b
              end
      | Galloping =>
          let min_gallop := if 1 <? min_gallop then min_gallop - 1 else min_gallop in
          k <- gallop_right y a O ;;
          let a1 := skipn k a in
          place_all (firstn k a)
            (if (0 <? k) && (List.length a1 =? 1) then Ok ((b ++ a1)%list, min_gallop)
             else if (0 <? k) && (List.length a1 =? 0) then Ok (b, min_gallop)
             else
               place y
                 match a1, b' with
                 | x1 :: a2, _ :: _ =>
                     k' <- gallop_left x1 b' O ;;
                     let b1 := skipn k' b' in
                     place_all (firstn k' b')
                       (if (0 <? k') && (List.length b1 =? 0) then Ok (a1, min_gallop)
                        else
                          place x1
                            (if List.length a2 =? 1 then Ok ((b1 ++ a2)%list, min_gallop)
                             else if (MIN_GALLOP <=? k) || (MIN_GALLOP <=? k')
                             then merge_lo_loop fuel' Galloping min_gallop a2 b1
                             else merge_lo_loop fuel' (Straight O O) (S min_gallop) a2 b1))
                 | _, _ => Ok (a1, min_gallop)
                 end)
      end
  | _, _, _ => Ok ((a ++ b)%list, min_gallop)
  end.

(** [merge_lo]: the first element of [b] is known to go first, the last
    of [a] last. *)
Definition merge_lo (min_gallop : nat) (a b : list T) : result (list T * nat) :=
  match b with
  | [] => Ok (a, min_gallop)
  | y :: b' =>
      place y
        match a, b' with
        | _, [] => Ok (a, min_gallop)
        | [_], _ => Ok ((b' ++ a)%list, min_gallop)
        | _, _ =>
            merge_lo_loop (List.length a + List.length b') (Straight O O)
              min_gallop a b'
        end
  end.

(** The loop of [merge_hi], filling from the right: the runs are held
    last element first, [ra] what is left of the first run (not empty),
    [rb] of the second (more than one element); so is the result. *)
Fixpoint merge_hi_loop (fuel : nat) (mode : merge_mode) (min_gallop : nat)
  (ra rb : list T) : result (list T * nat) :=
  match fuel, ra, rb with
  | S fuel', x :: ra', y :: rb' =>
      match mode with
      | Straight acount bcount =>
          k <- ISLT y x ;;
          if k then
            place x
              match ra' with
              | [] => Ok (rb, min_gallop)
              | _ =>
                  if min_gallop <=? S acount
                  then merge_hi_loop fuel' Galloping (S min_gallop) ra' rb
                  else merge_hi_loop fuel' (Straight (S acount) O) min_gallop ra' rb
              end
          else
            place y
              match rb' with
              | [_] => Ok ((ra ++ rb')%list, min_gallop)
              | _ =>
                  if min_gallop <=? S bcount
                  then merge_hi_loop fuel' Galloping (S min_gallop) ra rb'
                  else merge_hi_loop fuel' (Straight O (S bcount)) min_gallop ra rb'
              end
      | Galloping =>
          let min_gallop := if 1 <? min_gallop then min_gallop - 1 else min_gallop in
          let na := List.length ra in
          k <- gallop_right y (rev ra) (na - 1) ;;
          let k := na - k in
          let ra1 := skipn k ra in
          place_all (firstn k ra)
            (if (0 <? k) && (List.length ra1 =? 0) then Ok (rb, min_gallop)
             else
               place y
                 match rb' with
                 | [_] => Ok ((ra1 ++ rb')%list, min_gallop)
                 | _ =>
                     match ra1 with
                     | x1 :: ra2 =>
                         let nb := List.length rb' in
                         k' <- gallop_left x1 (rev rb') (nb - 1) ;;
                         let k' := nb - k' in
                         let rb1 := skipn k' rb' in
                         place_all (firstn k' rb')
                           (if (0 <? k') && (List.length rb1 =? 1)
                            then Ok ((ra1 ++ rb1)%list, min_gallop)
                            else if (0 <? k') && (List.length rb1 =? 0)
                            then Ok (ra1, min_gallop)
                            else
                              place x1
                                match ra2 with
                                | [] => Ok (rb1, min_gallop)
                                | _ =>
                                    if (MIN_GALLOP <=? k) || (MIN_GALLOP <=? k')
                                    then merge_hi_loop fuel' Galloping min_gallop ra2 rb1
                                    else merge_hi_loop fuel' (Straight O O)
                                           (S min_gallop) ra2 rb1
                                end)
                     | [] => Ok (rb', min_gallop)
                     end
                 end)
      end
  | _, _, _ => Ok ((ra ++ rb)%list, min_gallop)
  end.

(** [merge_hi]: the last element of [a] is known to go last, the first
    of [b] first. *)
Definition merge_hi (min_gallop : nat) (a b : list T) : result (list T * nat) :=
  ' (r, g) <-
    match rev a, rev b with
    | x :: ra', rb =>
        place x
          match ra', rb with
          | [], _ => Ok (rb, min_gallop)
          | _, [_] => Ok ((ra' ++ rb)%list, min_gallop)
          | _, _ =>
              merge_hi_loop (List.length ra' + List.length rb) (Straight O O)
                min_gallop ra' rb
          end
    | [], rb => Ok (rb, min_gallop)
    end ;;
  Ok (rev r, g).

(** [merge_at]: the elements of [a] that go before all of [b], and
    those of [b] that go after all of [a], stay where they are; the
    rest is merged from the side of the shorter run. *)
Definition merge_at (min_gallop : nat) (a b : list T) : result (list T * nat) :=
  match b with
  | [] => Ok (a, min_gallop)
  | y :: _ =>
      k <- gallop_right y a O ;;
      let a1 := skipn k a in
      place_all (firstn k a)
        match rev a1 with
        | [] => Ok (b, min_gallop)
        | z :: _ =>
            nb <- gallop_left z b (List.length b - 1) ;;
            let b1 := firstn nb b in
            ' (m, g) <-
              (if nb =? 0 then Ok (a1, min_gallop)
               else if List.length a1 <=? nb then merge_lo min_gallop a1 b1
               else merge_hi min_gallop a1 b1) ;;
            Ok ((m ++ skipn nb b)%list, g)
        end
  end.

(** *** The stack of runs *)

(** A run waiting to be merged: where it starts in the list, its
    elements, and its power, set when the next run is found. *)
Record pending_run := {
  base : nat;
  elems : list T;
  power : nat
}.

Definition merged (ra : pending_run) (m : list T) : pending_run :=
  {| base := base ra; elems := m; power := power ra |}.

(** [merge_at(ms, ms->n - 2)]: the two runs on top of the stack (the
    head of the list is the top). *)
Definition merge_top (min_gallop : nat) (pending : list pending_run)
  : result (list pending_run * nat) :=
  match pending with
  | rb :: ra :: below =>
      ' (m, g) <- merge_at min_gallop (elems ra) (elems rb) ;;
      Ok (merged ra m :: below, g)
  | _ => Ok (pending, min_gallop)
  end.

Fixpoint merge_compute_minrun_loop (fuel n r : nat) : nat :=
  match fuel with
  | O => n + r
  | S fuel' =>
      if 64 <=? n
      then merge_compute_minrun_loop fuel' (n / 2) (Nat.lor r (Nat.land n 1))
      else n + r
  end.

Definition merge_compute_minrun (n : nat) : nat :=
  merge_compute_minrun_loop n n O.

(** The first binary digit in which the midpoints of two adjacent runs,
    as fractions of the list, differ. *)
Fixpoint powerloop_bits (fuel a b n result : nat) : nat :=
  match fuel with
  | O => result
  | S fuel' =>
      let result := S result in
      if n <=? a then powerloop_bits fuel' (2 * (a - n)) (2 * (b - n)) n result
      else if n <=? b then result
      else powerloop_bits fuel' (2 * a) (2 * b) n result
  end.

Definition powerloop (s1 n1 n2 n : nat) : nat :=
  let a := 2 * s1 + n1 in
  let b := a + n1 + n2 in
  powerloop_bits (S n) a b n O.

Fixpoint found_new_run_loop (fuel power' min_gallop : nat)
  (pending : list pending_run) : result (list pending_run * nat) :=
  match fuel, pending with
  | S fuel', _ :: below :: _ =>
      if power' <? power below then
        ' (pending, min_gallop) <- merge_top min_gallop pending ;;
        found_new_run_loop fuel' power' min_gallop pending
      else Ok (pending, min_gallop)
  | _, _ => Ok (pending, min_gallop)
  end.

(** [found_new_run]: a run of [n2] elements was found after the stack;
    the runs of higher power than the top gets are merged first. *)
Definition found_new_run (listlen n2 min_gallop : nat)
  (pending : list pending_run) : result (list pending_run * nat) :=
  match pending with
  | [] => Ok (pending, min_gallop)
  | top :: _ =>
      let power' := powerloop (base top) (List.length (elems top)) n2 listlen in
      ' (pending, min_gallop) <-
        found_new_run_loop (List.length pending) power' min_gallop pending ;;
      match pending with
      | top :: below =>
          Ok ({| base := base top; elems := elems top; power := power' |} :: below,
              min_gallop)
      | [] => Ok (pending, min_gallop)
      end
  end.

Fixpoint merge_force_collapse (fuel min_gallop : nat)
  (pending : list pending_run) : result (list pending_run * nat) :=
  match fuel, pending with
  | S fuel', c :: b :: a :: below =>
      if List.length (elems a) <? List.length (elems c) then
        ' (m, min_gallop) <- merge_at min_gallop (elems a) (elems b) ;;
        merge_force_collapse fuel' min_gallop (c :: merged a m :: below)
      else
        ' (pending, min_gallop) <- merge_top min_gallop pending ;;
        merge_force_collapse fuel' min_gallop pending
  | S fuel', [_; _] =>
      ' (pending, min_gallop) <- merge_top min_gallop pending ;;
      merge_force_collapse fuel' min_gallop pending
  | _, _ => Ok (pending, min_gallop)
  end.

(** The march over the list: [lo] elements are in the runs of
    [pending], [rest] is still to be cut into runs. *)
Fixpoint sort_runs (fuel listlen minrun lo min_gallop : nat)
  (pending : list pending_run) (rest : list T)
  : result (list pending_run * nat) :=
  match fuel, rest with
  | S fuel', _ :: _ =>
      ' (n, descending) <- count_run rest ;;
      let r := firstn n rest in
      let r := if descending then rev r else r in
      ' (r, n) <-
        (if n <? minrun then
           let force := Nat.min minrun (List.length rest) in
           r <- binarysort r (firstn (force - n) (skipn n rest)) ;;
           Ok (r, force)
         else Ok (r, n)) ;;
      ' (pending, min_gallop) <- found_new_run listlen n min_gallop pending ;;
      sort_runs fuel' listlen minrun (lo + n) min_gallop
        ({| base := lo; elems := r; power := O |} :: pending) (skipn n rest)
  | _, _ => Ok (pending, min_gallop)
  end.

(** [list.sort()] without [reverse]. *)
Definition list_sort (l : list T) : result (list T) :=
  let n := List.length l in
  if n <? 2 then Ok l
  else
    ' (pending, min_gallop) <-
      sort_runs n n (merge_compute_minrun n) O MIN_GALLOP [] l ;;
    ' (pending, _) <-
      merge_force_collapse (List.length pending) min_gallop pending ;;
    Ok (List.concat (rev (map elems pending))).

End ListSort.

(** ** [sorted(xs, key=..., reverse=...)]

    [sorted] copies its argument into a new list and sorts that list:
    [key] is called once per element, in order, before any comparison,
    and the elements are then sorted by their keys alone, compared with
    [<].  With [reverse=True] the list is reversed, sorted, and reversed
    back, so that elements with equal keys keep their order. *)

Section Sorted.
Context {A : Type}.

Fixpoint decorate (key : A -> result value) (l : list A)
  : result (list (value * A)) :=
  match l with
  | [] => Ok []
  | x :: l' => k <- key x ;; r <- decorate key l' ;; Ok ((k, x) :: r)
  end.

(** [<] on the keys of two elements. *)
Definition key_lt (x y : value * A) : result bool := py_lt (fst x) (fst y).

Definition sorted (key : A -> result value) (reverse : bool) (l : list A)
  : result (list A) :=
  ks <- decorate key l ;;
  s <- list_sort key_lt (if reverse then rev ks else ks) ;;
  Ok (map snd (if reverse then rev s else s)).

End Sorted.

End Py.

(* ================================================================== *)
(** * tools.py *)
(* ================================================================== *)

Module Tools.
Import Py.

(** ** The request gateway *)

(** What [await client.get(...)] and the response object can do: time
    out, fail to connect, raise something else ([RequestError]: any
    exception other than a timeout, a connection failure or an
    [HTTPStatusError], which only [raise_for_status] raises), or answer.
    [json] is what [response.json()] does on the body: the parsed value,
    or the decoder's exception. *)
Inductive http_event :=
| TimeoutException
| ConnectError
| RequestError (e : exn)
| Response (status_code : Z) (text : string) (json : result value).

(** The process environment and the network.  [status_error url params]
    is [str(e)] for the [HTTPStatusError] that [raise_for_status] raises
    on the response to that request: [httpx] builds the text from the
    status and the reason phrase of the response and from the URL of the
    request, query string included. *)
Class World := {
  API_KEY : value;
  client_get : string -> dict -> http_event;
  status_error : string -> dict -> string
}.

Definition ALPHA_VANTAGE_BASE : string := "https://www.alphavantage.co/query".

(** [response.raise_for_status()] lets a 2xx response through. *)
Definition is_success (status_code : Z) : bool :=
  (200 <=? status_code)%Z && (status_code <=? 299)%Z.

(** The [params] dictionary of [make_alpha_request]. *)
Definition request_params {W : World}
  (function : string) (symbol : value) (additional_params : option dict)
  : dict :=
  let params :=
    [("function", VStr function); ("symbol", symbol); ("apikey", API_KEY)] in
  match additional_params with
  | Some extra => if truthy (VDict extra) then dict_update params extra else params
  | None => params
  end.

Section Gateway.
Context {B : Builtins} {W : World}.

(** The checks on the parsed body; the result is what the function
    returns, an error string or the body itself. *)
Definition check_body (data : value) : result value :=
  has_error <- str_in "Error Message" data ;;
  if has_error then
    msg <- subscript data "Error Message" ;;
    Ok (VStr ("Alpha Vantage API error: " ++ py_str msg))
  else
    has_note <- str_in "Note" data ;;
    frequency <-
      (if has_note then
         note <- subscript data "Note" ;; str_in "API call frequency" note
       else Ok false) ;;
    if frequency then
      note <- subscript data "Note" ;;
      Ok (VStr ("Rate limit warning: " ++ py_str note))
    else Ok data.

Definition make_alpha_request
  (function : string) (symbol : value) (additional_params : option dict)
  : value :=
  let params := request_params function symbol additional_params in
  match client_get ALPHA_VANTAGE_BASE params with
  | TimeoutException =>
      VStr "Request timed out after 30 seconds. The Alpha Vantage API may be experiencing delays."
  | ConnectError =>
      VStr "Failed to connect to Alpha Vantage API. Please check your internet connection."
  | RequestError e =>
      VStr ("Unexpected error occurred: " ++ exn_message e)
  | Response status_code text json =>
      if (status_code =? 429)%Z then
        VStr ("Rate limit exceeded. Error details: " ++ text)
      else if (status_code =? 403)%Z then
        VStr ("API key invalid or expired. Error details: " ++ text)
      else if negb (is_success status_code) then
        VStr ("HTTP error occurred: "
              ++ status_error ALPHA_VANTAGE_BASE params
              ++ " - Response: " ++ text)
      else
        match data <- json ;; check_body data with
        | Ok r => r
        | Raise e => VStr ("Unexpected error occurred: " ++ exn_message e)
        end
  end.

End Gateway.

(** ** The formatters *)

Section Formatters.
Context {B : Builtins}.

(** [try: body except Exception as e: return f"Error formatting ... data: {str(e)}"] *)
Definition guarded (what : string) (body : result string) : string :=
  match body with
  | Ok s => s
  | Raise e => "Error formatting " ++ what ++ " data: " ++ exn_message e
  end.

(** [{v.get(k, 'N/A')}] inside an f-string. *)
Definition field (v : value) (k : string) : result string :=
  x <- get v k (VStr "N/A") ;; Ok (py_str x).

Definition format_quote_body (quote_data : value) : result string :=
  global_quote <- get quote_data "Global Quote" (VDict []) ;;
  if negb (truthy global_quote) then
    Ok "No quote data available in the response"
  else
    price <- field global_quote "05. price" ;;
    change <- field global_quote "09. change" ;;
    percent <- field global_quote "10. change percent" ;;
    volume <- field global_quote "06. volume" ;;
    high <- field global_quote "03. high" ;;
    low <- field global_quote "04. low" ;;
    Ok ("Price: $" ++ price ++ nl
        ++ "Change: $" ++ change ++ " " ++ "(" ++ percent ++ ")" ++ nl
        ++ "Volume: " ++ volume ++ nl
        ++ "High: $" ++ high ++ nl
        ++ "Low: $" ++ low ++ nl
        ++ "---").

Definition format_quote (quote_data : value) : string :=
  guarded "quote" (format_quote_body quote_data).

Definition format_company_info_body (overview_data : value) : result string :=
  if negb (truthy overview_data) then
    Ok "No company information available in the response"
  else
    name <- field overview_data "Name" ;;
    sector <- field overview_data "Sector" ;;
    industry <- field overview_data "Industry" ;;
    cap <- field overview_data "MarketCapitalization" ;;
    description <- field overview_data "Description" ;;
    exchange <- field overview_data "Exchange" ;;
    currency <- field overview_data "Currency" ;;
    Ok ("Name: " ++ name ++ nl
        ++ "Sector: " ++ sector ++ nl
        ++ "Industry: " ++ industry ++ nl
        ++ "Market Cap: $" ++ cap ++ nl
        ++ "Description: " ++ description ++ nl
        ++ "Exchange: " ++ exchange ++ nl
        ++ "Currency: " ++ currency ++ nl
        ++ "---").

Definition format_company_info (overview_data : value) : string :=
  guarded "company" (format_company_info_body overview_data).

Definition format_crypto_rate_body (crypto_data : value) : result string :=
  realtime_data <- get crypto_data "Realtime Currency Exchange Rate" (VDict []) ;;
  if negb (truthy realtime_data) then
    Ok "No exchange rate data available in the response"
  else
    from_name <- field realtime_data "2. From_Currency Name" ;;
    from_code <- field realtime_data "1. From_Currency Code" ;;
    to_name <- field realtime_data "4. To_Currency Name" ;;
    to_code <- field realtime_data "3. To_Currency Code" ;;
    rate <- field realtime_data "5. Exchange Rate" ;;
    refreshed <- field realtime_data "6. Last Refreshed" ;;
    zone <- field realtime_data "7. Time Zone" ;;
    bid <- field realtime_data "8. Bid Price" ;;
    ask <- field realtime_data "9. Ask Price" ;;
    Ok ("From: " ++ from_name ++ " (" ++ from_code ++ ")" ++ nl
        ++ "To: " ++ to_name ++ " (" ++ to_code ++ ")" ++ nl
        ++ "Exchange Rate: " ++ rate ++ nl
        ++ "Last Updated: " ++ refreshed ++ " " ++ zone ++ nl
        ++ "Bid Price: " ++ bid ++ nl
        ++ "Ask Price: " ++ ask ++ nl
        ++ "---").

Definition format_crypto_rate (crypto_data : value) : string :=
  guarded "cryptocurrency" (format_crypto_rate_body crypto_data).

(** [v.items()]: only a dictionary has the attribute. *)
Definition items (v : value) : result (list (string * value)) :=
  match v with
  | VDict d => Ok d
  | _ => Raise (AttributeError (type_of v) "items")
  end.

(** [for x in xs: out.append(f x)], stopping at the first exception. *)
Fixpoint for_each {A B} (f : A -> result B) (xs : list A) : result (list B) :=
  match xs with
  | [] => Ok []
  | x :: xs' => y <- f x ;; ys <- for_each f xs' ;; Ok (y :: ys)
  end.

Definition time_series_header (symbol last_refreshed : value) : string :=
  "Time Series Data for " ++ py_str symbol
  ++ " (Last Refreshed: " ++ py_str last_refreshed ++ ")" ++ nl ++ nl.

(** One pass of the loop of [format_time_series]. *)
Definition date_block (entry : string * value) : result string :=
  let (date, values) := entry in
  open <- field values "1. open" ;;
  high <- field values "2. high" ;;
  low <- field values "3. low" ;;
  close <- field values "4. close" ;;
  volume <- field values "5. volume" ;;
  Ok ("Date: " ++ date ++ nl
      ++ "Open: $" ++ open ++ nl
      ++ "High: $" ++ high ++ nl
      ++ "Low: $" ++ low ++ nl
      ++ "Close: $" ++ close ++ nl
      ++ "Volume: " ++ volume ++ nl
      ++ "---" ++ nl).

Definition format_time_series_body (time_series_data : value) : result string :=
  time_series <- get time_series_data "Time Series (Daily)" (VDict []) ;;
  if negb (truthy time_series) then
    Ok "No time series data available in the response"
  else
    metadata <- get time_series_data "Meta Data" (VDict []) ;;
    symbol <- get metadata "2. Symbol" (VStr "Unknown") ;;
    last_refreshed <- get metadata "3. Last Refreshed" (VStr "Unknown") ;;
    entries <- items time_series ;;
    blocks <- for_each date_block (firstn 5 entries) ;;
    Ok (join nl (time_series_header symbol last_refreshed :: blocks)).

Definition format_time_series (time_series_data : value) : string :=
  guarded "time series" (format_time_series_body time_series_data).

(** *** Historical options *)

(** [contract.get(sort_by, 0)] for any [sort_by]: a list or a dictionary
    cannot be hashed; the keys of a parsed object are strings, so no
    other non-string is among them. *)
Definition get_any (v key default : value) : result value :=
  match v with
  | VDict d =>
      match key with
      | VStr k => get v k default
      | VList _ | VDict _ => Raise (TypeError "hash" [type_of key])
      | _ => Ok default
      end
  | _ => Raise (AttributeError (type_of v) "get")
  end.

(** The local function [get_sort_key] of [format_historical_options]. *)
Definition get_sort_key (sort_by : value) (contract : value) : result value :=
  value <- get_any contract sort_by (VInt 0) ;;
  let value :=
    match value with
    | VStr s => VStr (remove_char "%"%char (remove_char "$"%char s))
    | _ => value
    end in
  match py_float value with
  | Ok f => Ok (VFloat f)
  | Raise e => if is_value_or_type_error e then Ok value else Raise e
  end.

(** Iterating a value, as [sorted] does on its first argument.  (A
    string yields its characters; whatever they are, none has [.get].) *)
Definition iterate (v : value) : result (list value) :=
  match v with
  | VList l => Ok l
  | VDict d => Ok (map VStr (keys d))
  | VStr s => Ok (map (fun c => VStr (String c "")) (list_ascii_of_string s))
  | _ => Raise (TypeError "iter" [type_of v])
  end.

(** [xs[:limit]] *)
Definition slice_to {A} (xs : list A) (limit : value) : result (list A) :=
  let upto (n : Z) :=
    if (0 <=? n)%Z then firstn (Z.to_nat n) xs
    else firstn (Z.to_nat (Z.of_nat (List.length xs) + n)) xs in
  match limit with
  | VNone => Ok xs
  | VInt n => Ok (upto n)
  | VBool b => Ok (upto (if b then 1 else 0)%Z)
  | _ => Raise (TypeError "slice" [type_of limit])
  end.

(** [n > v] for an [int] [n]. *)
Definition int_gt (n : Z) (v : value) : result bool :=
  match as_num v with
  | Some x => Ok (num_lt x (NInt n))
  | None => Raise (TypeError ">" [TInt; type_of v])
  end.

(** [n - v] for an [int] [n]. *)
Definition int_sub (n : Z) (v : value) : result value :=
  match as_num v with
  | Some (NInt z) => Ok (VInt (n - z))
  | Some (NFloat f) => g <- float_of_int n ;; Ok (VFloat (SFsub 53 1024 g f))
  | None => Raise (TypeError "-" [TInt; type_of v])
  end.

(** The seventeen strings appended for one displayed contract. *)
Definition contract_lines (contract : value) : result (list string) :=
  contractID <- field contract "contractID" ;;
  expiration <- field contract "expiration" ;;
  strike <- field contract "strike" ;;
  type <- field contract "type" ;;
  last <- field contract "last" ;;
  mark <- field contract "mark" ;;
  bid <- field contract "bid" ;;
  bid_size <- field contract "bid_size" ;;
  ask <- field contract "ask" ;;
  ask_size <- field contract "ask_size" ;;
  volume <- field contract "volume" ;;
  open_interest <- field contract "open_interest" ;;
  implied_volatility <- field contract "implied_volatility" ;;
  delta <- field contract "delta" ;;
  gamma <- field contract "gamma" ;;
  theta <- field contract "theta" ;;
  vega <- field contract "vega" ;;
  rho <- field contract "rho" ;;
  Ok [ "Contract Details:" ++ nl;
       "Contract ID: " ++ contractID ++ nl;
       "Expiration: " ++ expiration ++ nl;
       "Strike: $" ++ strike ++ nl;
       "Type: " ++ type ++ nl;
       "Last: $" ++ last ++ nl;
       "Mark: $" ++ mark ++ nl;
       "Bid: $" ++ bid ++ " (Size: " ++ bid_size ++ ")" ++ nl;
       "Ask: $" ++ ask ++ " (Size: " ++ ask_size ++ ")" ++ nl;
       "Volume: " ++ volume ++ nl;
       "Open Interest: " ++ open_interest ++ nl;
       "IV: " ++ implied_volatility ++ nl;
       "Delta: " ++ delta ++ nl;
       "Gamma: " ++ gamma ++ nl;
       "Theta: " ++ theta ++ nl;
       "Vega: " ++ vega ++ nl;
       "Rho: " ++ rho ++ nl;
       "---" ++ nl ].

Definition options_header (status sort_by sort_order : value) : list string :=
  [ "Historical Options Data:" ++ nl;
    "Status: " ++ py_str status ++ nl;
    "Sorted by: " ++ py_str sort_by ++ " (" ++ py_str sort_order ++ ")" ++ nl ++ nl ].

Definition more_contracts (remaining : value) : string :=
  nl ++ "... and " ++ py_str remaining ++ " more contracts".

Definition minus_one : value := VInt (-1).

Definition format_historical_options_body
  (options_data limit sort_by sort_order : value) : result string :=
  has_error <- str_in "Error Message" options_data ;;
  if has_error then
    msg <- subscript options_data "Error Message" ;;
    Ok ("Error: " ++ py_str msg)
  else
    options_chain <- get options_data "data" (VList []) ;;
    if negb (truthy options_chain) then
      Ok "No options data available in the response"
    else
      status <- get options_data "message" (VStr "N/A") ;;
      let formatted := options_header status sort_by sort_order in
      contracts <- iterate options_chain ;;
      sorted_chain <-
        sorted (get_sort_key sort_by) (py_eq sort_order (VStr "desc")) contracts ;;
      display_contracts <-
        (if py_eq limit minus_one then Ok sorted_chain
         else slice_to sorted_chain limit) ;;
      shown <- for_each contract_lines display_contracts ;;
      let formatted := (formatted ++ List.concat shown)%list in
      let total := Z.of_nat (List.length sorted_chain) in
      truncated <-
        (if negb (py_eq limit minus_one) then int_gt total limit else Ok false) ;;
      if truncated then
        remaining <- int_sub total limit ;;
        Ok (concat_all (formatted ++ [more_contracts remaining])%list)
      else Ok (concat_all formatted).

Definition format_historical_options
  (options_data limit sort_by sort_order : value) : string :=
  guarded "options" (format_historical_options_body options_data limit sort_by sort_order).

End Formatters.

End Tools.

(* ================================================================== *)
(** * server.py *)
(* ================================================================== *)

Module Server.
Import Py Tools.

(** [types.TextContent]; [type] is always ["text"] here. *)
Record TextContent := { type : string; text : string }.

Definition text_content (s : string) : TextContent :=
  {| type := "text"; text := s |}.

(** [types.Tool]: a name, a description and the JSON schema of the
    arguments. *)
Record Tool := {
  name : string;
  description : string;
  inputSchema : value
}.

(** The schema of a tool that takes a stock symbol and nothing else. *)
Definition symbol_property : string * value :=
  ("symbol",
   VDict [("type", VStr "string");
          ("description", VStr "Stock symbol (e.g., AAPL, MSFT)")]).

Definition object_schema (properties : dict) (required : list string) : value :=
  VDict [("type", VStr "object");
         ("properties", VDict properties);
         ("required", VList (map VStr required))].

Definition handle_list_tools : list Tool :=
  [ {| name := "get-stock-quote";
       description := "Get current stock quote information";
       inputSchema := object_schema [symbol_property] ["symbol"] |};
    {| name := "get-company-info";
       description := "Get detailed company information";
       inputSchema := object_schema [symbol_property] ["symbol"] |};
    {| name := "get-crypto-exchange-rate";
       description := "Get current cryptocurrency exchange rate";
       inputSchema :=
         object_schema
           [("crypto_symbol",
             VDict [("type", VStr "string");
                    ("description", VStr "Cryptocurrency symbol (e.g., BTC, ETH)")]);
            ("market",
             VDict [("type", VStr "string");
                    ("description", VStr "Market currency (e.g., USD, EUR)");
                    ("default", VStr "USD")])]
           ["crypto_symbol"] |};
    {| name := "get-time-series";
       description := "Get daily time series data for a stock";
       inputSchema :=
         object_schema
           [symbol_property;
            ("outputsize",
             VDict [("type", VStr "string");
                    ("description",
                     VStr "compact (latest 100 data points) or full (up to 20 years of data)");
                    ("enum", VList [VStr "compact"; VStr "full"]);
                    ("default", VStr "compact")])]
           ["symbol"] |};
    {| name := "get-historical-options";
       description :=
         "Get historical options chain data for a stock with sorting capabilities";
       inputSchema :=
         object_schema
           [symbol_property;
            ("date",
             VDict [("type", VStr "string");
                    ("description",
                     VStr "Optional: Trading date in YYYY-MM-DD format (defaults to previous trading day, must be after 2008-01-01)");
                    ("pattern",
                     VStr "^20[0-9]{2}-(?:0[1-9]|1[0-2])-(?:0[1-9]|[12][0-9]|3[01])$")]);
            ("limit",
             VDict [("type", VStr "integer");
                    ("description",
                     VStr "Optional: Number of contracts to return (default: 10, use -1 for all contracts)");
                    ("default", VInt 10);
                    ("minimum", VInt (-1))]);
            ("sort_by",
             VDict [("type", VStr "string");
                    ("description", VStr "Optional: Field to sort by");
                    ("enum",
                     VList (map VStr
                       ["strike"; "expiration"; "volume"; "open_interest";
                        "implied_volatility"; "delta"; "gamma"; "theta"; "vega";
                        "rho"; "last"; "bid"; "ask"]));
                    ("default", VStr "strike")]);
            ("sort_order",
             VDict [("type", VStr "string");
                    ("description", VStr "Optional: Sort order");
                    ("enum", VList [VStr "asc"; VStr "desc"]);
                    ("default", VStr "asc")])]
           ["symbol"] |};
    {| name := "analyze-technical-setup";
       description :=
         "Analyze technical setup for statistical mean reversion trading";
       inputSchema := object_schema [symbol_property] ["symbol"] |};
    {| name := "analyze-institutional-activity";
       description :=
         "Analyze institutional activity including options flow and block trades";
       inputSchema := object_schema [symbol_property] ["symbol"] |};
    {| name := "analyze-futures-trade-setup";
       description :=
         "Complete analysis of futures trade setup based on the statistical checklist";
       inputSchema :=
         object_schema
           [symbol_property;
            ("account_value",
             VDict [("type", VStr "number");
                    ("description", VStr "Trading account value in dollars");
                    ("default", VInt 100000)]);
            ("leverage",
             VDict [("type", VStr "number");
                    ("description",
                     VStr "Leverage multiplier (e.g., 10 for 10x leverage)");
                    ("default", VInt 10);
                    ("minimum", VInt 1);
                    ("maximum", VInt 20)])]
           ["symbol"] |};
    {| name := "get-timing-edge";
       description := "Get timing edge information for optimal trade entry";
       inputSchema := object_schema [symbol_property] ["symbol"] |} ].

(** The analysis modules ([technical_indicators], [institutional_data],
    [futures_strategy]) are not part of the two files at hand; each
    entry is the computation the handler awaits, with the symbol (and
    the account figures) as its only inputs from the handler.
    [technical_setup_report] stands for the chain from [get_vix_data] to
    [format_analysis_report], [institutional_report] for
    [analyze_institutional_activity] followed by
    [format_institutional_analysis]. *)
Class Collaborators := {
  technical_setup_report : string -> result value;
  institutional_report : string -> result value;
  analyze_futures_trade_setup : string -> spec_float -> spec_float -> result value;
  get_day_of_week_edge : result value;
  get_intraday_timing_edge : string -> result value
}.

Section Dispatch.
Context {B : Builtins} {W : World} {C : Collaborators}.

(** [v.upper()]: only a string has the attribute. *)
Definition upper (v : value) : result string :=
  match v with
  | VStr s => Ok (str_upper s)
  | _ => Raise (AttributeError (type_of v) "upper")
  end.

(** [types.TextContent(type="text", text=v)]: the model validates that
    [text] is a string. *)
Definition text_of (v : value) : result TextContent :=
  match v with
  | VStr s => Ok (text_content s)
  | _ => Raise (OtherException "ValidationError")
  end.

Definition reply (s : string) : result (list TextContent) :=
  Ok [text_content s].

(** [try: body except Exception as e: return [TextContent(text=f"{prefix}: {str(e)}")]] *)
Definition analysing (prefix : string) (body : result (list TextContent))
  : result (list TextContent) :=
  match body with
  | Ok r => Ok r
  | Raise e => reply (prefix ++ ": " ++ exn_message e)
  end.

(** [arguments.get(k)] and [arguments.get(k, default)] *)
Definition arg (arguments : dict) (k : string) (default : value) : value :=
  match lookup k arguments with Some v => v | None => default end.

Definition yes_no (v : value) : string :=
  if truthy v then "Yes" else "No".

(** After a gateway call: an error string is surfaced, anything else is
    formatted. *)
Definition surface (data : value) (render : value -> string)
  : result (list TextContent) :=
  match data with
  | VStr err => reply ("Error: " ++ err)
  | _ => reply (render data)
  end.

Definition timing_edge_report (symbol : string) : result (list TextContent) :=
  day_edge <- get_day_of_week_edge ;;
  intraday_edge <- get_intraday_timing_edge symbol ;;
  current_day <- subscript day_edge "current_day" ;;
  day_edge_value <- subscript day_edge "current_day_edge" ;;
  recommended <- subscript day_edge "recommended_day" ;;
  let recommended_day := yes_no recommended in
  current_time <- get intraday_edge "current_time" (VStr "Unknown") ;;
  market_is_open <- get intraday_edge "market_is_open" (VBool false) ;;
  let market_open := yes_no market_is_open in
  optimal_entry_time <- get intraday_edge "optimal_entry_time" (VBool false) ;;
  let optimal_time := yes_no optimal_entry_time in
  pullback_detected <- get intraday_edge "pullback_detected" (VBool false) ;;
  let pullback := yes_no pullback_detected in
  entry <- get intraday_edge "entry_recommended" (VBool false) ;;
  let entry_recommended := yes_no entry in
  edge <- fmt_2f day_edge_value ;;
  reply (join nl
    [ "TIMING EDGE ANALYSIS";
      "===================";
      "";
      "Day of Week: " ++ py_str current_day;
      "Day Edge Value: " ++ edge ++ "x";
      "Recommended Trading Day: " ++ recommended_day;
      "";
      "Current Time: " ++ py_str current_time;
      "Market Open: " ++ market_open;
      "Optimal Time Window: " ++ optimal_time;
      "Recent Pullback Detected: " ++ pullback;
      "Entry Timing Recommended: " ++ entry_recommended;
      "";
      "NOTES:";
      "- Optimal trading days are Tuesday and Wednesday";
      "- Avoid trading in the first 30 minutes and last 60 minutes of the session";
      "- Enter on pullbacks after the trend is established";
      "- Use 70%/30% split entry approach" ]).

Definition futures_report (symbol : string) (account_value leverage : spec_float)
  : result (list TextContent) :=
  analysis <- analyze_futures_trade_setup symbol account_value leverage ;;
  failed <- str_in "error" analysis ;;
  if failed then
    err <- subscript analysis "error" ;;
    reply ("Error analyzing trade setup: " ++ py_str err)
  else
    report <- subscript analysis "formatted_report" ;;
    content <- text_of report ;;
    Ok [content].

Definition missing_symbol : result (list TextContent) :=
  reply "Missing symbol parameter".

Definition handle_call_tool (name : string) (arguments : option dict)
  : result (list TextContent) :=
  match arguments with
  | None | Some [] => reply "Missing arguments for the request"
  | Some arguments =>
    if String.eqb name "get-stock-quote" then
      let symbol := arg arguments "symbol" VNone in
      if negb (truthy symbol) then missing_symbol
      else
        symbol <- upper symbol ;;
        let quote_data := make_alpha_request "GLOBAL_QUOTE" (VStr symbol) None in
        surface quote_data (fun d =>
          "Stock quote for " ++ symbol ++ ":" ++ nl ++ nl ++ format_quote d)
    else if String.eqb name "get-company-info" then
      let symbol := arg arguments "symbol" VNone in
      if negb (truthy symbol) then missing_symbol
      else
        symbol <- upper symbol ;;
        let company_data := make_alpha_request "OVERVIEW" (VStr symbol) None in
        surface company_data (fun d =>
          "Company information for " ++ symbol ++ ":" ++ nl ++ nl
          ++ format_company_info d)
    else if String.eqb name "get-crypto-exchange-rate" then
      let crypto_symbol := arg arguments "crypto_symbol" VNone in
      if negb (truthy crypto_symbol) then reply "Missing crypto_symbol parameter"
      else
        let market := arg arguments "market" (VStr "USD") in
        crypto_symbol <- upper crypto_symbol ;;
        market <- upper market ;;
        let crypto_data :=
          make_alpha_request "CURRENCY_EXCHANGE_RATE" VNone
            (Some [("from_currency", VStr crypto_symbol);
                   ("to_currency", VStr market)]) in
        surface crypto_data (fun d =>
          "Cryptocurrency exchange rate for " ++ crypto_symbol ++ "/" ++ market
          ++ ":" ++ nl ++ nl ++ format_crypto_rate d)
    else if String.eqb name "get-time-series" then
      let symbol := arg arguments "symbol" VNone in
      if negb (truthy symbol) then missing_symbol
      else
        symbol <- upper symbol ;;
        let outputsize := arg arguments "outputsize" (VStr "compact") in
        let time_series_data :=
          make_alpha_request "TIME_SERIES_DAILY" (VStr symbol)
            (Some [("outputsize", outputsize)]) in
        surface time_series_data (fun d =>
          "Time series data for " ++ symbol ++ ":" ++ nl ++ nl
          ++ format_time_series d)
    else if String.eqb name "get-historical-options" then
      let symbol := arg arguments "symbol" VNone in
      let date := arg arguments "date" VNone in
      let limit := arg arguments "limit" (VInt 10) in
      let sort_by := arg arguments "sort_by" (VStr "strike") in
      let sort_order := arg arguments "sort_order" (VStr "asc") in
      if negb (truthy symbol) then missing_symbol
      else
        symbol <- upper symbol ;;
        let params := if truthy date then [("date", date)] else [] in
        let options_data :=
          make_alpha_request "HISTORICAL_OPTIONS" (VStr symbol) (Some params) in
        surface options_data (fun d =>
          "Historical options data for " ++ symbol
          ++ (if truthy date then " on " ++ py_str date else "")
          ++ ":" ++ nl ++ nl
          ++ format_historical_options d limit sort_by sort_order)
    else if String.eqb name "analyze-technical-setup" then
      let symbol := arg arguments "symbol" VNone in
      if negb (truthy symbol) then missing_symbol
      else
        symbol <- upper symbol ;;
        analysing "Error analyzing technical setup"
          (formatted_report <- technical_setup_report symbol ;;
           content <- text_of formatted_report ;;
           Ok [content])
    else if String.eqb name "analyze-institutional-activity" then
      let symbol := arg arguments "symbol" VNone in
      if negb (truthy symbol) then missing_symbol
      else
        symbol <- upper symbol ;;
        analysing "Error analyzing institutional activity"
          (formatted_report <- institutional_report symbol ;;
           content <- text_of formatted_report ;;
           Ok [content])
    else if String.eqb name "analyze-futures-trade-setup" then
      let symbol := arg arguments "symbol" VNone in
      if negb (truthy symbol) then missing_symbol
      else
        symbol <- upper symbol ;;
        account_value <- py_float (arg arguments "account_value" (VInt 100000)) ;;
        leverage <- py_float (arg arguments "leverage" (VInt 10)) ;;
        analysing "Error analyzing futures trade setup"
          (futures_report symbol account_value leverage)
    else if String.eqb name "get-timing-edge" then
      let symbol := arg arguments "symbol" VNone in
      if negb (truthy symbol) then missing_symbol
      else
        symbol <- upper symbol ;;
        analysing "Error analyzing timing edge" (timing_edge_report symbol)
    else reply ("Unknown tool: " ++ name)
  end.

End Dispatch.

End Server.

(* ================================================================== *)
(** * A reference interpreter

    An instance of [Builtins] to run the model on closed inputs: CPython
    on ASCII text.  The theorems below hold for every instance. *)
(* ================================================================== *)

Module CPython.
Import Py.

Definition is_digit (c : ascii) : bool :=
  (48 <=? nat_of_ascii c)%nat && (nat_of_ascii c <=? 57)%nat.

Definition digit_value (c : ascii) : Z := Z.of_nat (nat_of_ascii c - 48).

Definition is_space (c : ascii) : bool :=
  let n := nat_of_ascii c in
  (n =? 32)%nat || ((9 <=? n)%nat && (n <=? 13)%nat).

Definition lower (c : ascii) : ascii :=
  let n := nat_of_ascii c in
  if (65 <=? n)%nat && (n <=? 90)%nat then ascii_of_nat (n + 32) else c.

Definition to_upper (c : ascii) : ascii :=
  let n := nat_of_ascii c in
  if (97 <=? n)%nat && (n <=? 122)%nat then ascii_of_nat (n - 32) else c.

Fixpoint lstrip (s : list ascii) : list ascii :=
  match s with
  | c :: s' => if is_space c then lstrip s' else s
  | [] => []
  end.

Definition strip (s : list ascii) : list ascii :=
  rev (lstrip (rev (lstrip s))).

(** [digit (["_"] digit)*] after its first digit: the value so far, the
    number of digits read, and what follows. *)
Fixpoint more_digits (s : list ascii) (acc : Z) (count : Z)
  : Z * Z * list ascii :=
  match s with
  | c :: s' =>
      if is_digit c then more_digits s' (acc * 10 + digit_value c) (count + 1)
      else if Ascii.eqb c "_" then
        match s' with
        | d :: s'' =>
            if is_digit d
            then more_digits s'' (acc * 10 + digit_value d) (count + 1)
            else (acc, count, s)
        | [] => (acc, count, s)
        end
      else (acc, count, s)
  | [] => (acc, count, [])
  end.

Definition digitpart (s : list ascii) (acc : Z) : option (Z * Z * list ascii) :=
  match s with
  | c :: s' => if is_digit c then Some (more_digits s' (acc * 10 + digit_value c) 1)
               else None
  | [] => None
  end.

Definition take_sign (s : list ascii) : bool * list ascii :=
  match s with
  | c :: s' => if Ascii.eqb c "-" then (true, s')
               else if Ascii.eqb c "+" then (false, s') else (false, s)
  | [] => (false, [])
  end.

(** [[digitpart] "." digitpart | digitpart ["."]]: the digits as one
    integer and the number of them after the point. *)
Definition number (s : list ascii) : option (Z * Z * list ascii) :=
  match digitpart s 0 with
  | Some (int, _, rest) =>
      match rest with
      | c :: rest' =>
          if Ascii.eqb c "." then
            match digitpart rest' int with
            | Some (all, places, rest'') => Some (all, places, rest'')
            | None => Some (int, 0%Z, rest')
            end
          else Some (int, 0%Z, rest)
      | [] => Some (int, 0%Z, [])
      end
  | None =>
      match s with
      | c :: s' => if Ascii.eqb c "." then digitpart s' 0 else None
      | [] => None
      end
  end.

(** [("e" | "E") [sign] digitpart], or nothing. *)
Definition exponent (s : list ascii) : option (Z * list ascii) :=
  match s with
  | c :: s' =>
      if Ascii.eqb (lower c) "e" then
        let (neg, s'') := take_sign s' in
        match digitpart s'' 0 with
        | Some (e, _, rest) => Some (if neg then (- e)%Z else e, rest)
        | None => None
        end
      else Some (0%Z, s)
  | [] => Some (0%Z, [])
  end.

(** The binary64 nearest to [(-1)^neg * m * 10^e], ties to even. *)
Definition decimal_to_float (neg : bool) (m e : Z) : spec_float :=
  match m with
  | Z.pos p =>
      if (0 <=? e)%Z then
        binary_round 53 1024 neg (p * Z.to_pos (10 ^ e))%positive 0
      else
        SFdiv 53 1024 (S754_finite neg p 0)
                      (S754_finite false (Z.to_pos (10 ^ (- e))) 0)
  | _ => S754_zero neg
  end.

Definition float_of_str (s : string) : option spec_float :=
  let (neg, body) := take_sign (strip (list_ascii_of_string s)) in
  let word := string_of_list_ascii (map lower body) in
  if String.eqb word "inf" || String.eqb word "infinity" then
    Some (S754_infinity neg)
  else if String.eqb word "nan" then Some S754_nan
  else
    match number body with
    | Some (m, places, rest) =>
        match exponent rest with
        | Some (e, []) => Some (decimal_to_float neg m (e - places))
        | _ => None
        end
    | None => None
    end.

Definition str_upper (s : string) : string :=
  string_of_list_ascii (map to_upper (list_ascii_of_string s)).

(** *** Printing *)

Definition type_name (t : pytype) : string :=
  match t with
  | TNone => "NoneType" | TBool => "bool" | TInt => "int" | TFloat => "float"
  | TStr => "str" | TList => "list" | TDict => "dict"
  end.

Definition hex_digit (n : nat) : ascii :=
  if (n <? 10)%nat then ascii_of_nat (48 + n) else ascii_of_nat (87 + n).

Definition double_quote : ascii := ascii_of_nat 34.

(** [repr()] of a [str]: single quotes unless the text has one and no
    double quote; backslash escapes for the quote, the backslash and the
    control characters. *)
Definition repr_str (s : string) : string :=
  let cs := list_ascii_of_string s in
  let quote : ascii :=
    if existsb (Ascii.eqb "'") cs && negb (existsb (Ascii.eqb double_quote) cs)
    then double_quote else "'"%char in
  let escape (c : ascii) : list ascii :=
    let n := nat_of_ascii c in
    if Ascii.eqb c quote || Ascii.eqb c "\" then ["\"%char; c]
    else if (n =? 10)%nat then ["\"; "n"]%char
    else if (n =? 13)%nat then ["\"; "r"]%char
    else if (n =? 9)%nat then ["\"; "t"]%char
    else if (n <? 32)%nat || (n =? 127)%nat
    then ["\"%char; "x"%char; hex_digit (n / 16); hex_digit (n mod 16)]
    else [c] in
  string_of_list_ascii (quote :: flat_map escape cs ++ [quote])%list.

(** [n / d] rounded to the nearest integer, ties to even. *)
Definition round_half_even (n d : Z) : Z :=
  let (q, r) := Z.div_eucl n d in
  match (2 * r ?= d)%Z with
  | Lt => q
  | Gt => (q + 1)%Z
  | Eq => if Z.even q then q else (q + 1)%Z
  end.

(** A positive finite float as a fraction. *)
Definition fraction (m : positive) (e : Z) : Z * Z :=
  if (0 <=? e)%Z then (Z.pos m * 2 ^ e, 1)%Z else (Z.pos m, 2 ^ (- e))%Z.

Definition pad2 (z : Z) : string :=
  if (z <? 10)%Z then "0" ++ str_int z else str_int z.

(** The format specification [.2f]. *)
Definition fmt_2f (v : value) : result string :=
  let fixed (neg : bool) (hundredths : Z) : string :=
    (if neg then "-" else "")
    ++ str_int (hundredths / 100)%Z ++ "." ++ pad2 (hundredths mod 100)%Z in
  match as_num v with
  | Some (NInt z) => Ok (fixed (z <? 0)%Z (Z.abs z * 100)%Z)
  | Some (NFloat S754_nan) => Ok "nan"
  | Some (NFloat (S754_infinity neg)) => Ok (if neg then "-inf" else "inf")
  | Some (NFloat (S754_zero neg)) => Ok (fixed neg 0%Z)
  | Some (NFloat (S754_finite neg m e)) =>
      let (n, d) := fraction m e in
      Ok (fixed neg (round_half_even (n * 100)%Z d))
  | None =>
      match v with
      | VStr _ => Raise (ValueError "format")
      | _ => Raise (TypeError "format" [type_of v])
      end
  end.

(** The [k] with [10^k <= n/d < 10^(k+1)], searched upwards from [k]. *)
Fixpoint decimal_exponent (fuel : nat) (n d k : Z) : Z :=
  match fuel with
  | O => k
  | S fuel' =>
      let below :=
        if (0 <=? k + 1)%Z then (n <? d * 10 ^ (k + 1))%Z
        else (n * 10 ^ (- (k + 1)) <? d)%Z in
      if below then k else decimal_exponent fuel' n d (k + 1)%Z
  end.

(** [n/d * 10^s] as a fraction. *)
Definition scale10 (n d s : Z) : Z * Z :=
  if (0 <=? s)%Z then (n * 10 ^ s, d)%Z else (n, d * 10 ^ (- s))%Z.

(** The shortest decimal [q * 10^(-s)] that reads back as the float:
    the first precision at which a neighbour of the exact value reads
    back, the nearer neighbour first. *)
Fixpoint shortest (fuel : nat) (digits : Z) (m : positive) (e : Z) (k : Z)
  : Z * Z :=
  let (n, d) := fraction m e in
  let s := (digits - 1 - k)%Z in
  let (sn, sd) := scale10 n d s in
  let down := (sn / sd)%Z in
  let up := (down + 1)%Z in
  let near := round_half_even sn sd in
  let far := if (near =? down)%Z then up else down in
  let reads (q : Z) :=
    match decimal_to_float false q (- s) with
    | S754_finite _ m' e' => Pos.eqb m' m && Z.eqb e' e
    | _ => false
    end in
  match fuel with
  | O => (near, s)
  | S fuel' =>
      if reads near then (near, s)
      else if reads far then (far, s)
      else shortest fuel' (digits + 1)%Z m e k
  end.

(** Drop the trailing zeros of [q * 10^(-s)]. *)
Fixpoint strip_zeros (fuel : nat) (q s : Z) : Z * Z :=
  match fuel with
  | O => (q, s)
  | S fuel' =>
      if (q mod 10 =? 0)%Z then strip_zeros fuel' (q / 10)%Z (s - 1)%Z
      else (q, s)
  end.

Definition zeros (n : Z) : string :=
  string_of_list_ascii (repeat "0"%char (Z.to_nat n)).

(** [repr()] of a float: positional when the leading digit has an
    exponent from [-4] to [15], scientific beyond. *)
Definition str_float (f : spec_float) : string :=
  match f with
  | S754_nan => "nan"
  | S754_infinity neg => if neg then "-inf" else "inf"
  | S754_zero neg => if neg then "-0.0" else "0.0"
  | S754_finite neg m e =>
      let (n, d) := fraction m e in
      let (q0, s0) := shortest 17 1%Z m e (decimal_exponent 800 n d (-400)%Z) in
      let (q, s) := strip_zeros 20 q0 s0 in
      let ds := str_int q in
      let len := String.length ds in
      let k := (Z.of_nat len - 1 - s)%Z in
      (if neg then "-" else "")
      ++ (if (k <? -4)%Z || (16 <=? k)%Z then
            String.substring 0 1 ds
            ++ (if (1 <? len)%nat then "." ++ String.substring 1 (len - 1) ds else "")
            ++ "e" ++ (if (k <? 0)%Z then "-" else "+") ++ pad2 (Z.abs k)
          else if (k <? 0)%Z then "0." ++ zeros (- k - 1) ++ ds
          else if (Z.of_nat len <=? k + 1)%Z then
            ds ++ zeros (k + 1 - Z.of_nat len) ++ ".0"
          else
            String.substring 0 (Z.to_nat (k + 1)) ds ++ "."
            ++ String.substring (Z.to_nat (k + 1)) (len - Z.to_nat (k + 1)) ds)
  end.

(** [str(e)]: CPython's wording where the text depends on nothing but
    the exception; [OtherException] stands for the exceptions of other
    libraries and prints its content. *)
Definition exn_message (e : exn) : string :=
  let q (t : pytype) := "'" ++ type_name t ++ "'" in
  match e with
  | AttributeError t attr =>
      q t ++ " object has no attribute '" ++ attr ++ "'"
  | TypeError "in" [t] => "argument of type " ++ q t ++ " is not iterable"
  | TypeError "iter" [t] => q t ++ " object is not iterable"
  | TypeError "subscript" [TList; t] =>
      "list indices must be integers or slices, not " ++ type_name t
  | TypeError "subscript" [TStr; t] =>
      "string indices must be integers, not " ++ q t
  | TypeError "subscript" (t :: _) => q t ++ " object is not subscriptable"
  | TypeError "float" [t] =>
      "float() argument must be a string or a real number, not " ++ q t
  | TypeError "hash" [t] => "unhashable type: " ++ q t
  | TypeError "slice" _ =>
      "slice indices must be integers or None or have an __index__ method"
  | TypeError "format" [t] =>
      "unsupported format string passed to " ++ type_name t ++ ".__format__"
  | TypeError "-" [a; b] =>
      "unsupported operand type(s) for -: " ++ q a ++ " and " ++ q b
  | TypeError op [a; b] =>
      "'" ++ op ++ "' not supported between instances of " ++ q a ++ " and " ++ q b
  | TypeError op _ => op
  | ValueError "format" => "Unknown format code 'f' for object of type 'str'"
  | ValueError arg => "could not convert string to float: " ++ repr_str arg
  | OverflowError => "int too large to convert to float"
  | KeyError key => repr_str key
  | OtherException info => info
  end.

#[export] Instance builtins : Builtins := {|
  Py.float_of_str := float_of_str;
  Py.str_float := str_float;
  Py.repr_str := repr_str;
  Py.str_upper := str_upper;
  Py.fmt_2f := fmt_2f;
  Py.exn_message := exn_message
|}.

End CPython.

(** ** Fixtures for closed examples *)

Module Fixtures.
Import Py Tools Server.

(** A world in which every request meets the same fate; what a status
    error reads there is left short. *)
Definition answering (event : http_event) : World := {|
  API_KEY := VStr "demo";
  client_get := fun _ _ => event;
  status_error := fun _ _ => "status error"
|}.

Definition offline : World := answering ConnectError.

(** Analysis modules that fail at once. *)
Definition no_analysis : Collaborators := {|
  technical_setup_report := fun _ => Raise (OtherException "unavailable");
  institutional_report := fun _ => Raise (OtherException "unavailable");
  analyze_futures_trade_setup := fun _ _ _ => Raise (OtherException "unavailable");
  get_day_of_week_edge := Raise (OtherException "unavailable");
  get_intraday_timing_edge := fun _ => Raise (OtherException "unavailable")
|}.




(** An options contract, and a chain with the strikes 105, 95, 100. *)
Definition contract (id strike : string) : dict :=
  [("contractID", VStr id); ("expiration", VStr "2024-01-19");
   ("strike", VStr strike); ("type", VStr "call")].

Definition three_strikes : list dict :=
  [contract "A" "105.00"; contract "B" "95.00"; contract "C" "100.00"].

(** A chain with a strike that reads as NaN. *)
Definition nan_strikes : list dict :=
  [contract "A" "3.0"; contract "B" "1.0"; contract "C" "nan"; contract "D" "2.0"].

Definition options_payload (contracts : list dict) : dict :=
  [("endpoint", VStr "Historical Options"); ("message", VStr "success");
   ("data", VList (map VDict contracts))].

End Fixtures.

Import Py Tools Server.

(* ================================================================== *)
(** * Vocabulary of the properties *)
(* ================================================================== *)

(** Induction on values that reaches inside lists and dictionaries. *)
Section ValueInduction.
Variable P : value -> Prop.
Hypothesis HNone : P VNone.
Hypothesis HBool : forall b, P (VBool b).
Hypothesis HInt : forall z, P (VInt z).
Hypothesis HFloat : forall f, P (VFloat f).
Hypothesis HStr : forall s, P (VStr s).
Hypothesis HList : forall l, Forall P l -> P (VList l).
Hypothesis HDict : forall d, Forall (fun kx => P (snd kx)) d -> P (VDict d).

Fixpoint value_nested_ind (v : value) : P v :=
  match v with
  | VNone => HNone
  | VBool b => HBool b
  | VInt z => HInt z
  | VFloat f => HFloat f
  | VStr s => HStr s
  | VList l =>
      HList l
        ((fix all (l : list value) : Forall P l :=
            match l with
            | [] => Forall_nil P
            | x :: l' => Forall_cons x (value_nested_ind x) (all l')
            end) l)
  | VDict d =>
      HDict d
        ((fix all (d : list (string * value))
            : Forall (fun kx => P (snd kx)) d :=
            match d with
            | [] => Forall_nil _
            | kx :: d' => Forall_cons kx (value_nested_ind (snd kx)) (all d')
            end) d)
  end.

End ValueInduction.

(** ** The gateway *)

(** The parameters before the extra ones are merged. *)
Definition base_params {W : World} (function : string) (symbol : value) : dict :=
  [("function", VStr function); ("symbol", symbol); ("apikey", API_KEY)].

(** ** The formatters *)

(** What a field of an object shows as: its text, or the placeholder. *)
Definition field_text {B : Builtins} (d : dict) (k : string) : string :=
  match lookup k d with
  | Some x => py_str x
  | None => "N/A"
  end.

(** The fixed layout of the company report. *)
Definition company_report {B : Builtins} (d : dict) : string :=
  "Name: " ++ field_text d "Name" ++ nl
  ++ "Sector: " ++ field_text d "Sector" ++ nl
  ++ "Industry: " ++ field_text d "Industry" ++ nl
  ++ "Market Cap: $" ++ field_text d "MarketCapitalization" ++ nl
  ++ "Description: " ++ field_text d "Description" ++ nl
  ++ "Exchange: " ++ field_text d "Exchange" ++ nl
  ++ "Currency: " ++ field_text d "Currency" ++ nl
  ++ "---".

Definition company_fields : list string :=
  ["Name"; "Sector"; "Industry"; "MarketCapitalization"; "Description";
   "Exchange"; "Currency"].

(** The company report with every field missing. *)
Definition company_report_blank : string :=
  "Name: N/A" ++ nl ++ "Sector: N/A" ++ nl ++ "Industry: N/A" ++ nl
  ++ "Market Cap: $N/A" ++ nl ++ "Description: N/A" ++ nl
  ++ "Exchange: N/A" ++ nl ++ "Currency: N/A" ++ nl ++ "---".



(** [v.attr] where [v] has no attribute of that name, for a name among
    [attrs]. *)
Definition no_attribute (attrs : list string) (e : exn) : bool :=
  match e with
  | AttributeError _ attr => existsb (String.eqb attr) attrs
  | _ => false
  end.

(** The exceptions that reach the guard of [format_historical_options]:
    a missing [.get], a [TypeError] (of [in], a subscript, iterating,
    hashing, [<], slicing, [>] or [-]) and the overflow of [float()].
    The [ValueError] of [float()] is not among them, nor is a
    [KeyError]. *)
Definition options_guard_case (e : exn) : bool :=
  match e with
  | AttributeError _ attr => String.eqb attr "get"
  | TypeError _ _ | OverflowError => true
  | _ => false
  end.

(** What a guarded formatter returns: the text its body produced, or,
    when the body raised, the error line built from the exception,
    which is one of those that the operations of the body raise. *)
Definition guard_spec {B : Builtins}
  (what : string) (raised : exn -> bool) (body : result string) (out : string)
  : Prop :=
  match body with
  | Ok s => out = s
  | Raise e =>
      raised e = true
      /\ out = "Error formatting " ++ what ++ " data: " ++ exn_message e
  end.

(** A nested field that is there, is not empty and is not an object. *)
Definition malformed (v : value) : Prop :=
  truthy v = true /\ forall o, v <> VDict o.

(** ** The dispatch *)

(** The tools whose schema requires "symbol". *)
Definition symbol_tools : list string :=
  ["get-stock-quote"; "get-company-info"; "get-time-series";
   "get-historical-options"; "analyze-technical-setup";
   "analyze-institutional-activity"; "analyze-futures-trade-setup";
   "get-timing-edge"].

(** ** Comparison and sorting *)

(** Two items of dictionaries with the same key and equal values. *)
Definition item_eq (kx ky : string * value) : bool :=
  String.eqb (fst kx) (fst ky) && py_eq (snd kx) (snd ky).

(** [p] may stand before [q]: the key of [q] is not below the key of
    [p]. *)
Definition may_precede {A} (p q : value * A) : Prop :=
  py_lt (fst q) (fst p) = Ok false.

(** Each pair carries the key of its element. *)
Definition keyed {A} (key : A -> result value) (ks : list (value * A)) : Prop :=
  Forall (fun p => key (snd p) = Ok (fst p)) ks.

(** Two families of keys are totally ordered by [<]: the floats other
    than NaN, and the strings. *)
Definition is_number_key (v : value) : bool :=
  match v with VFloat f => negb (is_nan f) | _ => false end.

Definition is_text_key (v : value) : bool :=
  match v with VStr _ => true | _ => false end.

(** [<] never raises within the family, and "not above" is transitive. *)
Record total_family (P : value -> bool) : Prop := {
  family_defined :
    forall a b, P a = true -> P b = true -> exists c, py_lt a b = Ok c;
  family_transitive :
    forall a b c, P a = true -> P b = true -> P c = true ->
      py_lt b a = Ok false -> py_lt c b = Ok false -> py_lt c a = Ok false
}.

Definition in_family {A} (P : value -> bool) (ks : list (value * A)) : Prop :=
  Forall (fun p => P (fst p) = true) ks.

(** [a] stands before [b] in the chosen direction: ascending, the key
    of [b] is not below that of [a]; descending, the key of [a] is not
    below that of [b]. *)
Definition key_order {A} (key : A -> result value) (reverse : bool) (a b : A)
  : Prop :=
  exists ka kb,
    key a = Ok ka /\ key b = Ok kb
    /\ py_lt (if reverse then ka else kb) (if reverse then kb else ka) = Ok false.

(** ** The sorting algorithm *)

(** The outcome of a computation: a property of its value, or of the
    exception it raised. *)
Definition outcome {A} (E : exn -> Prop) (P : A -> Prop) (r : result A) : Prop :=
  match r with
  | Ok x => P x
  | Raise e => E e
  end.

(** [x] may stand before [y]: [y] is not below [x]. *)
Definition not_below {T} (ISLT : T -> T -> result bool) (x y : T) : Prop :=
  ISLT y x = Ok false.

Definition ends_with {T} (l : list T) (z : T) : Prop := exists l', l = (l' ++ [z])%list.

Definition starts_with {T} (l : list T) (z : T) : Prop := exists l', l = z :: l'.

(** The last element of [l1] and the first of [l2], when there are
    such, are related. *)
Definition joins {T} (R : T -> T -> Prop) (l1 l2 : list T) : Prop :=
  forall x y, ends_with l1 x -> starts_with l2 y -> R x y.

(** What a merge of the runs [a] and [b] returns: a list in order, made
    of the elements of both, that starts like one of them and ends like
    one of them. *)
Definition merge_post {T} (Rel : T -> T -> Prop) (a b : list T)
  (rg : list T * nat) : Prop :=
  Sorted Rel (fst rg)
  /\ Permutation (a ++ b) (fst rg)
  /\ (forall u, starts_with (fst rg) u -> starts_with a u \/ starts_with b u)
  /\ (forall u, ends_with (fst rg) u -> ends_with a u \/ ends_with b u).

(** The elements of the runs on the stack, the oldest run first. *)
Definition run_elems {T} (pending : list (pending_run (T := T))) : list T :=
  List.concat (rev (map elems pending)).

(** Every run on the stack is in order, and none is empty. *)
Definition runs_in_order {T} (ISLT : T -> T -> result bool)
  (pending : list (pending_run (T := T))) : Prop :=
  Forall (fun r => Sorted (not_below ISLT) (elems r) /\ elems r <> []) pending.

(** ** The options report *)

(** The field a contract is sorted by, [0] when it has none. *)
Definition sort_field (sort_by : string) (contract : dict) : value :=
  match lookup sort_by contract with
  | Some v => v
  | None => VInt 0
  end.

(** A string without its dollar and percent signs. *)
Definition stripped (s : string) : string :=
  remove_char "%" (remove_char "$" s).

Definition zero : spec_float := S754_zero false.

(** Every contract's key is of the family. *)
Definition keys_in {B : Builtins}
  (P : value -> bool) (sort_by : string) (contracts : list dict) : bool :=
  forallb
    (fun c => match get_sort_key (VStr sort_by) (VDict c) with
              | Ok k => P k
              | Raise _ => false
              end) contracts.

(** The seventeen strings of one contract. *)
Definition contract_text {B : Builtins} (contract : dict) : list string :=
  [ "Contract Details:" ++ nl;
    "Contract ID: " ++ field_text contract "contractID" ++ nl;
    "Expiration: " ++ field_text contract "expiration" ++ nl;
    "Strike: $" ++ field_text contract "strike" ++ nl;
    "Type: " ++ field_text contract "type" ++ nl;
    "Last: $" ++ field_text contract "last" ++ nl;
    "Mark: $" ++ field_text contract "mark" ++ nl;
    "Bid: $" ++ field_text contract "bid"
      ++ " (Size: " ++ field_text contract "bid_size" ++ ")" ++ nl;
    "Ask: $" ++ field_text contract "ask"
      ++ " (Size: " ++ field_text contract "ask_size" ++ ")" ++ nl;
    "Volume: " ++ field_text contract "volume" ++ nl;
    "Open Interest: " ++ field_text contract "open_interest" ++ nl;
    "IV: " ++ field_text contract "implied_volatility" ++ nl;
    "Delta: " ++ field_text contract "delta" ++ nl;
    "Gamma: " ++ field_text contract "gamma" ++ nl;
    "Theta: " ++ field_text contract "theta" ++ nl;
    "Vega: " ++ field_text contract "vega" ++ nl;
    "Rho: " ++ field_text contract "rho" ++ nl;
    "---" ++ nl ].

(** The report of the contracts shown, with its header. *)
Definition options_report {B : Builtins}
  (options_data : dict) (sort_by sort_order : string) (shown : list dict)
  : list string :=
  (options_header
     (match lookup "message" options_data with Some v => v | None => VStr "N/A" end)
     (VStr sort_by) (VStr sort_order)
   ++ flat_map contract_text shown)%list.

(* ================================================================== *)
(** * Vocabulary of the further properties *)
(* ================================================================== *)

(** ** Tool schemas *)

Definition tool_names : list string := map name handle_list_tools.

(** The strings of a list value. *)
Definition strings_of (v : value) : list string :=
  match v with
  | VList l => flat_map (fun x => match x with VStr s => [s] | _ => [] end) l
  | _ => []
  end.

(** The "required" list of a tool's schema. *)
Definition required_fields (t : Tool) : list string :=
  match inputSchema t with
  | VDict schema =>
      match lookup "required" schema with
      | Some r => strings_of r
      | None => []
      end
  | _ => []
  end.

(** The arguments for which a tool's schema declares a "default", each
    with that default. *)
Definition schema_defaults (t : Tool) : dict :=
  match inputSchema t with
  | VDict schema =>
      match lookup "properties" schema with
      | Some (VDict properties) =>
          flat_map
            (fun kp =>
               match snd kp with
               | VDict p =>
                   match lookup "default" p with
                   | Some d => [(fst kp, d)]
                   | None => []
                   end
               | _ => []
               end) properties
      | _ => []
      end
  | _ => []
  end.

(** ** Reports *)

(** The fixed layout of the quote report. *)
Definition quote_layout {B : Builtins} (q : dict) : string :=
  "Price: $" ++ field_text q "05. price" ++ nl
  ++ "Change: $" ++ field_text q "09. change" ++ " "
  ++ "(" ++ field_text q "10. change percent" ++ ")" ++ nl
  ++ "Volume: " ++ field_text q "06. volume" ++ nl
  ++ "High: $" ++ field_text q "03. high" ++ nl
  ++ "Low: $" ++ field_text q "04. low" ++ nl
  ++ "---".

(** The fixed layout of the exchange-rate report. *)
Definition crypto_layout {B : Builtins} (r : dict) : string :=
  "From: " ++ field_text r "2. From_Currency Name"
  ++ " (" ++ field_text r "1. From_Currency Code" ++ ")" ++ nl
  ++ "To: " ++ field_text r "4. To_Currency Name"
  ++ " (" ++ field_text r "3. To_Currency Code" ++ ")" ++ nl
  ++ "Exchange Rate: " ++ field_text r "5. Exchange Rate" ++ nl
  ++ "Last Updated: " ++ field_text r "6. Last Refreshed" ++ " "
  ++ field_text r "7. Time Zone" ++ nl
  ++ "Bid Price: " ++ field_text r "8. Bid Price" ++ nl
  ++ "Ask Price: " ++ field_text r "9. Ask Price" ++ nl
  ++ "---".

(** A value that is not a string. *)
Definition structured (v : value) : Prop := forall t, v <> VStr t.

(** The keys of the extra parameters that are new to a dictionary. *)
Definition new_keys (d extra : dict) : list string :=
  filter (fun k => negb (has_key k d)) (keys extra).

(** ** Tools by kind *)

(** The tools that fetch from the gateway under a stock symbol. *)
Definition symbol_data_tools : list string :=
  ["get-stock-quote"; "get-company-info"; "get-time-series";
   "get-historical-options"].

(** A non-empty string. *)
Definition is_text (v : value) : bool :=
  match v with
  | VStr s => negb (String.eqb s "")
  | _ => false
  end.

(** A reply that, when the handler returns one, is a single text
    block. *)
Definition one_text_block (reply : result (list TextContent)) : Prop :=
  forall r, reply = Ok r -> exists s, r = [{| type := "text"; text := s |}].

(** ** Kinds of keys *)

(** How [<] sees a value: numbers (booleans included) compare with
    numbers, strings with strings, lists with lists, and nothing else
    compares. *)
Inductive kind := KNumber | KText | KList | KOther.

Definition kind_of (v : value) : kind :=
  match v with
  | VBool _ | VInt _ | VFloat _ => KNumber
  | VStr _ => KText
  | VList _ => KList
  | VNone | VDict _ => KOther
  end.

(* ================================================================== *)
(** * Properties of the request gateway *)
(* ================================================================== *)

Section GatewayProperties.
Context {B : Builtins} {W : World}.

Lemma success_is_not_429_403 (status_code : Z) :
  is_success status_code = true ->
  (status_code =? 429)%Z = false /\ (status_code =? 403)%Z = false.
Proof.
  unfold is_success. intros Hs.
  apply andb_true_iff in Hs as [Hlo Hhi].
  apply Z.leb_le in Hlo, Hhi.
  split; apply Z.eqb_neq; lia.
Qed.

(** On a 2xx answer whose body parses, the result is what [check_body]
    decides. *)
Lemma make_alpha_request_success function symbol extra status_code text data :
  client_get ALPHA_VANTAGE_BASE (request_params function symbol extra)
    = Response status_code text (Ok data) ->
  is_success status_code = true ->
  make_alpha_request function symbol extra
    = match check_body data with
      | Ok r => r
      | Raise e => VStr ("Unexpected error occurred: " ++ exn_message e)
      end.
Proof.
  intros Hget Hs. unfold make_alpha_request. rewrite Hget.
  destruct (success_is_not_429_403 _ Hs) as [-> ->]. rewrite Hs. reflexivity.
Qed.

Lemma check_body_error (d : dict) (msg : value) :
  lookup "Error Message" d = Some msg ->
  check_body (VDict d) = Ok (VStr ("Alpha Vantage API error: " ++ py_str msg)).
Proof.
  intros Hm. unfold check_body. cbn [str_in bind]. unfold has_key.
  rewrite Hm. cbn [subscript bind]. rewrite Hm. reflexivity.
Qed.

Lemma check_body_note (d : dict) (note : string) :
  lookup "Error Message" d = None ->
  lookup "Note" d = Some (VStr note) ->
  contains "API call frequency" note = true ->
  check_body (VDict d) = Ok (VStr ("Rate limit warning: " ++ note)).
Proof.
  intros He Hn Hc. unfold check_body. cbn [str_in bind]. unfold has_key.
  rewrite He, Hn. cbn [subscript bind]. rewrite Hn. cbn [str_in bind].
  rewrite Hc. reflexivity.
Qed.

(** C1.  On every 2xx response whose parsed body is an object with the
    field "Error Message", [make_alpha_request] returns the string
    "Alpha Vantage API error: " followed by that field's text (its
    [str()] when it is not a string), and not the body; when the body
    has no such field but a "Note" string containing "API call
    frequency", it returns "Rate limit warning: " followed by the note,
    and not the body. *)
Theorem make_alpha_request_provider_error
  function symbol extra status_code text (d : dict) :
  client_get ALPHA_VANTAGE_BASE (request_params function symbol extra)
    = Response status_code text (Ok (VDict d)) ->
  is_success status_code = true ->
  (forall msg : value,
     lookup "Error Message" d = Some msg ->
     make_alpha_request function symbol extra
       = VStr ("Alpha Vantage API error: " ++ py_str msg)
     /\ (forall m, msg = VStr m ->
           make_alpha_request function symbol extra
             = VStr ("Alpha Vantage API error: " ++ m))
     /\ make_alpha_request function symbol extra <> VDict d)
  /\ (forall note : string,
        lookup "Error Message" d = None ->
        lookup "Note" d = Some (VStr note) ->
        contains "API call frequency" note = true ->
        make_alpha_request function symbol extra
          = VStr ("Rate limit warning: " ++ note)
        /\ make_alpha_request function symbol extra <> VDict d).
Proof.
  intros Hget Hs.
  pose proof (make_alpha_request_success _ _ _ _ _ _ Hget Hs) as Hr.
  split.
  - intros msg Hm. rewrite (check_body_error _ _ Hm) in Hr.
    rewrite Hr. repeat split.
    + intros m ->. reflexivity.
    + discriminate.
  - intros note He Hn Hc. rewrite (check_body_note _ _ He Hn Hc) in Hr.
    rewrite Hr. split; [reflexivity | discriminate].
Qed.

End GatewayProperties.

(** A quote request answered with the provider's error object. *)
Lemma make_alpha_request_provider_error_witness :
  make_alpha_request (B := CPython.builtins)
    (W := Fixtures.answering
            (Response 200 "{}"
               (Ok (VDict [("Error Message", VStr "Invalid API call.")]))))
    "GLOBAL_QUOTE" (VStr "IBM") None
  = VStr "Alpha Vantage API error: Invalid API call.".
Proof.
  refine (proj1 (proj1 (make_alpha_request_provider_error
                          (B := CPython.builtins)
                          "GLOBAL_QUOTE" (VStr "IBM") None 200 "{}"
                          [("Error Message", VStr "Invalid API call.")]
                          _ _)
                       (VStr "Invalid API call.") _));
    reflexivity.
Defined.

(** ** The query parameters *)

Lemma lookup_dict_set (k k' : string) (v : value) (d : dict) :
  lookup k (dict_set k' v d) = if String.eqb k k' then Some v else lookup k d.
Proof.
  induction d as [|[k1 v1] d IH]; cbn [dict_set lookup].
  - reflexivity.
  - destruct (String.eqb k' k1) eqn:E1; cbn [lookup].
    + apply String.eqb_eq in E1. subst k1.
      destruct (String.eqb k k'); reflexivity.
    + rewrite IH. destruct (String.eqb k k') eqn:E2; [|reflexivity].
      apply String.eqb_eq in E2. subst k'. rewrite E1. reflexivity.
Qed.

Lemma lookup_not_key (k : string) (d : dict) :
  ~ In k (keys d) -> lookup k d = None.
Proof.
  induction d as [|[k1 v1] d IH]; cbn [keys map fst lookup In]; intros Hn.
  - reflexivity.
  - destruct (String.eqb k k1) eqn:E.
    + apply String.eqb_eq in E. subst. tauto.
    + apply IH. tauto.
Qed.

(** Updating with a dictionary: its items win, every other key keeps its
    value. *)
Lemma lookup_dict_update (k : string) (other : dict) :
  dict_wf other ->
  forall d : dict,
    lookup k (dict_update d other)
    = match lookup k other with Some v => Some v | None => lookup k d end.
Proof.
  unfold dict_update, dict_wf.
  induction other as [|[k1 v1] other IH]; intros Hwf d; cbn [fold_left lookup].
  - reflexivity.
  - cbn [keys map fst] in Hwf. inversion Hwf as [|? ? Hnotin Hwf']; subst.
    rewrite (IH Hwf'). cbn [fst snd]. rewrite lookup_dict_set.
    destruct (String.eqb k k1) eqn:E.
    + apply String.eqb_eq in E. subst k1.
      rewrite (lookup_not_key _ _ Hnotin). reflexivity.
    + reflexivity.
Qed.

Section ParamsProperties.
Context {W : World}.

Lemma lookup_request_params function symbol (extra : dict) (k : string) :
  dict_wf extra ->
  lookup k (request_params function symbol (Some extra))
  = match lookup k extra with
    | Some v => Some v
    | None => lookup k (base_params function symbol)
    end.
Proof.
  intros Hwf. unfold request_params.
  destruct extra as [|kv extra]; cbn [truthy].
  - reflexivity.
  - apply lookup_dict_update. exact Hwf.
Qed.

(** C7 (as the code has it).  The parameters always hold the keys
    "function", "symbol" and "apikey"; without extra parameters they are
    exactly the operation name, the symbol argument as given ([None]
    included) and the API key; with extra parameters, every extra item
    is in the result with its own value, overriding an earlier key of
    the same name, and every other key keeps its value. *)
Theorem request_params_contents function symbol (extra : dict) :
  dict_wf extra ->
  request_params function symbol None = base_params function symbol
  /\ (forall k,
        lookup k (request_params function symbol (Some extra))
        = match lookup k extra with
          | Some v => Some v
          | None => lookup k (base_params function symbol)
          end)
  /\ (forall params,
        params = request_params function symbol None
        \/ params = request_params function symbol (Some extra) ->
        has_key "function" params = true
        /\ has_key "symbol" params = true
        /\ has_key "apikey" params = true).
Proof.
  intros Hwf. split; [reflexivity|]. split.
  - intros k. apply lookup_request_params. exact Hwf.
  - intros params [-> | ->].
    + repeat split.
    + unfold has_key. rewrite !(lookup_request_params _ _ _ _ Hwf).
      repeat split.
      * destruct (lookup "function" extra); reflexivity.
      * destruct (lookup "symbol" extra); reflexivity.
      * destruct (lookup "apikey" extra); reflexivity.
Qed.

End ParamsProperties.

(** An extra parameter named "symbol" replaces the symbol argument. *)
Lemma request_params_contents_witness :
  lookup "symbol"
    (request_params (W := Fixtures.offline) "TIME_SERIES_DAILY" (VStr "IBM")
       (Some [("outputsize", VStr "full"); ("symbol", VStr "MSFT")]))
  = Some (VStr "MSFT").
Proof.
  assert (Hwf : dict_wf [("outputsize", VStr "full"); ("symbol", VStr "MSFT")]).
  { unfold dict_wf. cbn. repeat constructor; cbn; intuition discriminate. }
  rewrite (proj1 (proj2 (request_params_contents (W := Fixtures.offline)
                           "TIME_SERIES_DAILY" (VStr "IBM") _ Hwf))).
  reflexivity.
Defined.

(** C7, refuted as stated: with a null symbol argument the parameters
    still contain the key "symbol". *)
Lemma request_params_null_symbol :
  has_key "symbol"
    (request_params (W := Fixtures.offline) "CURRENCY_EXCHANGE_RATE" VNone
       (Some [("from_currency", VStr "BTC"); ("to_currency", VStr "USD")]))
  = true
  /\ request_params (W := Fixtures.offline) "CURRENCY_EXCHANGE_RATE" VNone
       (Some [("from_currency", VStr "BTC"); ("to_currency", VStr "USD")])
     = [("function", VStr "CURRENCY_EXCHANGE_RATE"); ("symbol", VNone);
        ("apikey", VStr "demo");
        ("from_currency", VStr "BTC"); ("to_currency", VStr "USD")].
Proof. split; reflexivity. Qed.

(* ================================================================== *)
(** * Properties of the formatters *)
(* ================================================================== *)

Section FormatterProperties.
Context {B : Builtins}.

Lemma field_dict (d : dict) (k : string) :
  field (VDict d) k = Ok (field_text d k).
Proof.
  unfold field, field_text. cbn [get bind].
  destruct (lookup k d); reflexivity.
Qed.

Lemma field_not_dict (v : value) (k : string) :
  (forall d, v <> VDict d) ->
  field v k = Raise (AttributeError (type_of v) "get").
Proof.
  intros Hv. destruct v; try reflexivity. exfalso. eapply Hv. reflexivity.
Qed.

Lemma format_company_info_nonempty (d : dict) :
  d <> [] -> format_company_info (VDict d) = company_report d.
Proof.
  intros Hd. unfold format_company_info, format_company_info_body.
  destruct d as [|kv d]; [contradiction|].
  cbn [truthy negb]. rewrite !field_dict. reflexivity.
Qed.

(** C8 (as the code has it).  On a non-empty overview object
    [format_company_info] renders the full fixed layout, a missing field
    shown as "N/A" (all seven when none is present); on an empty one it
    returns the message "No company information available in the
    response". *)
Theorem format_company_info_layout (d : dict) :
  (d <> [] ->
     format_company_info (VDict d) = company_report d
     /\ ((forall k, In k company_fields -> lookup k d = None) ->
         format_company_info (VDict d) = company_report_blank))
  /\ (d = [] ->
      format_company_info (VDict d)
      = "No company information available in the response").
Proof.
  split.
  - intros Hd. split; [apply format_company_info_nonempty; exact Hd|].
    intros Hnone. rewrite (format_company_info_nonempty _ Hd).
    unfold company_report, field_text.
    rewrite !Hnone by (cbn; tauto). reflexivity.
  - intros ->. reflexivity.
Qed.

End FormatterProperties.

(** An overview that carries none of the seven fields. *)
Lemma format_company_info_layout_witness :
  format_company_info (B := CPython.builtins) (VDict [("Symbol", VStr "IBM")])
  = company_report_blank.
Proof.
  refine (proj2 (proj1 (format_company_info_layout (B := CPython.builtins)
                          [("Symbol", VStr "IBM")]) _) _).
  - discriminate.
  - intros k Hk. cbn in Hk.
    repeat (destruct Hk as [<- | Hk]; [reflexivity|]). contradiction.
Defined.

(** C8, refuted as stated: the empty overview is a case of its own and
    does not render the layout of placeholders. *)
Lemma format_company_info_empty :
  format_company_info (B := CPython.builtins) (VDict [])
  = "No company information available in the response"
  /\ format_company_info (B := CPython.builtins) (VDict [])
     <> company_report_blank.
Proof. split; [reflexivity | discriminate]. Qed.

(** ** Time series *)

Section TimeSeriesProperties.
Context {B : Builtins}.





End TimeSeriesProperties.


(** ** The failure guard *)

Section GuardProperties.
Context {B : Builtins}.

Lemma append_assoc (a b c : string) : (a ++ b) ++ c = a ++ b ++ c.
Proof. induction a as [|x a IH]; cbn; [reflexivity | now rewrite IH]. Qed.

(** A nested object that is something else (and not empty) is a case of
    the guard: the first [.get] on it raises. *)
Lemma format_quote_malformed (d : dict) (v : value) :
  lookup "Global Quote" d = Some v ->
  truthy v = true ->
  (forall o, v <> VDict o) ->
  format_quote (VDict d)
  = "Error formatting quote data: " ++ exn_message (AttributeError (type_of v) "get").
Proof.
  intros Hl Ht Hv. unfold format_quote, format_quote_body.
  cbn [get bind]. rewrite Hl, Ht. cbn [negb].
  rewrite (field_not_dict _ _ Hv). reflexivity.
Qed.

Lemma format_time_series_malformed (d : dict) (date : string) (v : value)
  (rest : dict) :
  lookup "Time Series (Daily)" d = Some (VDict ((date, v) :: rest)) ->
  lookup "Meta Data" d = None ->
  (forall o, v <> VDict o) ->
  format_time_series (VDict d)
  = "Error formatting time series data: "
    ++ exn_message (AttributeError (type_of v) "get").
Proof.
  intros Hl Hm Hv. unfold format_time_series, format_time_series_body.
  cbn [get bind]. rewrite Hl. cbn [truthy negb]. rewrite Hm.
  cbn [get lookup bind items firstn for_each date_block].
  rewrite (field_not_dict _ _ Hv). reflexivity.
Qed.

End GuardProperties.

(* ================================================================== *)
(** * Properties of the tool dispatch *)
(* ================================================================== *)

Section DispatchProperties.
Context {B : Builtins} {W : World} {C : Collaborators}.

Lemma arg_absent (arguments : dict) (k : string) (default : value) :
  lookup k arguments = None -> arg arguments k default = default.
Proof. unfold arg. now intros ->. Qed.

(** C9 (as the code has it).  For each of the eight symbol-keyed tools
    and every non-empty argument mapping in which "symbol" is absent (or
    present but falsy: null, empty), [handle_call_tool] returns normally,
    with the single text "Missing symbol parameter". *)
Theorem missing_symbol_parameter (name : string) (arguments : dict) :
  In name symbol_tools ->
  arguments <> [] ->
  lookup "symbol" arguments = None
  \/ truthy (arg arguments "symbol" VNone) = false ->
  handle_call_tool name (Some arguments)
  = Ok [{| type := "text"; text := "Missing symbol parameter" |}].
Proof.
  intros Hname Hargs Hsym.
  assert (Hfalsy : truthy (arg arguments "symbol" VNone) = false).
  { destruct Hsym as [Habs | Hf]; [|exact Hf].
    rewrite (arg_absent _ _ _ Habs). reflexivity. }
  destruct arguments as [|kv arguments]; [contradiction|].
  cbn in Hname.
  repeat (destruct Hname as [<- | Hname];
          [unfold handle_call_tool; cbn [String.eqb Ascii.eqb Bool.eqb];
           rewrite Hfalsy; reflexivity|]).
  contradiction.
Qed.

End DispatchProperties.

(** A time-series call that names only the output size. *)
Lemma missing_symbol_parameter_witness :
  handle_call_tool (B := CPython.builtins) (W := Fixtures.offline)
    (C := Fixtures.no_analysis)
    "get-time-series" (Some [("outputsize", VStr "full")])
  = Ok [{| type := "text"; text := "Missing symbol parameter" |}].
Proof.
  apply (missing_symbol_parameter (B := CPython.builtins)).
  - cbn. tauto.
  - discriminate.
  - left. reflexivity.
Defined.

(** C9, refuted as stated: an empty argument mapping lacks "symbol" and
    yields another text. *)
Lemma missing_arguments_not_missing_symbol :
  lookup "symbol" [] = None
  /\ handle_call_tool (B := CPython.builtins) (W := Fixtures.offline)
       (C := Fixtures.no_analysis) "get-stock-quote" (Some [])
     = Ok [{| type := "text"; text := "Missing arguments for the request" |}]
  /\ handle_call_tool (B := CPython.builtins) (W := Fixtures.offline)
       (C := Fixtures.no_analysis) "get-stock-quote" (Some [])
     <> Ok [{| type := "text"; text := "Missing symbol parameter" |}].
Proof. split; [reflexivity | split; [reflexivity | discriminate]]. Qed.
(* ================================================================== *)
(** * Properties of [==], [<] and [sorted] *)
(* ================================================================== *)

(** ** Numbers *)

Lemma compare_cont_flip (p q : positive) :
  Pos.compare_cont Eq q p = CompOpp (Pos.compare_cont Eq p q).
Proof. symmetry. exact (Pos.compare_cont_antisym p q Eq). Qed.

Lemma SFcompare_antisym (f g : spec_float) :
  SFcompare g f = option_map CompOpp (SFcompare f g).
Proof.
  destruct f as [s1| s1| |s1 m1 e1], g as [s2|s2| |s2 m2 e2];
    try reflexivity;
    try (destruct s1; reflexivity); try (destruct s2; reflexivity);
    try (destruct s1, s2; reflexivity).
  cbn [SFcompare option_map].
  destruct s1, s2; try reflexivity;
    rewrite (Z.compare_antisym e1 e2);
    destruct (e1 ?= e2)%Z; cbn [CompOpp]; try reflexivity;
    rewrite (compare_cont_flip m1 m2);
    destruct (Pos.compare_cont Eq m1 m2); reflexivity.
Qed.

Lemma num_compare_antisym (a b : num) :
  num_compare b a = option_map CompOpp (num_compare a b).
Proof.
  destruct a as [x|f], b as [y|g]; cbn [num_compare option_map].
  - now rewrite (Z.compare_antisym x y).
  - reflexivity.
  - destruct (compare_int_float y f) as [c|]; cbn [option_map];
      [now rewrite CompOpp_involutive | reflexivity].
  - apply SFcompare_antisym.
Qed.

Lemma num_eq_sym (a b : num) : num_eq a b = num_eq b a.
Proof.
  unfold num_eq. rewrite (num_compare_antisym a b).
  destruct (num_compare a b) as [[]|]; reflexivity.
Qed.

Lemma num_lt_asym (a b : num) : num_lt a b = true -> num_lt b a = false.
Proof.
  unfold num_lt. rewrite (num_compare_antisym a b).
  destruct (num_compare a b) as [[]|]; cbn; congruence.
Qed.

Lemma string_ltb_asym (s t : string) :
  String.ltb s t = true -> String.ltb t s = false.
Proof.
  unfold String.ltb. rewrite (String.compare_antisym t s).
  destruct (String.compare s t); cbn; congruence.
Qed.

(** ** [==] is symmetric *)

Lemma py_eq_dict (d e : dict) :
  py_eq (VDict d) (VDict e)
  = forallb (fun kx => existsb (item_eq kx) e) d
    && forallb (fun ky => existsb (fun kx => item_eq kx ky) d) e.
Proof.
  cbn [py_eq]. f_equal.
  - induction d as [|[k x] d IH]; [reflexivity|].
    cbn [forallb]. rewrite <- IH. reflexivity.
  - induction e as [|ky e IH]; [reflexivity|].
    cbn [forallb]. rewrite <- IH. f_equal.
    clear IH. induction d as [|[k x] d IH]; [reflexivity|].
    cbn [existsb]. rewrite <- IH. reflexivity.
Qed.

Lemma forallb_ext_in {A} (f g : A -> bool) (l : list A) :
  Forall (fun x => f x = g x) l -> forallb f l = forallb g l.
Proof. induction 1 as [|x l Hx _ IH]; cbn; [reflexivity | now rewrite Hx, IH]. Qed.

Lemma existsb_ext_in {A} (f g : A -> bool) (l : list A) :
  Forall (fun x => f x = g x) l -> existsb f l = existsb g l.
Proof. induction 1 as [|x l Hx _ IH]; cbn; [reflexivity | now rewrite Hx, IH]. Qed.

Lemma py_eq_sym (a b : value) : py_eq a b = py_eq b a.
Proof.
  revert b. induction a as [ | | | | |l IH|d IH] using value_nested_ind;
    intros v; destruct v as [ | | | | |m|e]; try reflexivity;
    try (cbn [py_eq as_num]; apply num_eq_sym).
  - cbn [py_eq]. apply String.eqb_sym.
  - revert m. induction IH as [|x l Hx _ IHl]; intros [|y m]; try reflexivity.
    change (py_eq x y && py_eq (VList l) (VList m)
            = py_eq y x && py_eq (VList m) (VList l)).
    now rewrite Hx, IHl.
  - rewrite !py_eq_dict, andb_comm. f_equal.
    + apply forallb_ext_in, Forall_forall. intros ky _.
      apply existsb_ext_in.
      eapply Forall_impl; [|exact IH]. intros kx Hkx.
      unfold item_eq. now rewrite Hkx, String.eqb_sym.
    + apply forallb_ext_in.
      eapply Forall_impl; [|exact IH]. intros kx Hkx.
      apply existsb_ext_in, Forall_forall. intros ky _.
      unfold item_eq. now rewrite Hkx, String.eqb_sym.
Qed.

(** ** [<] is asymmetric

    When [a < b] holds, [b < a] is defined too, and false. *)

Lemma py_lt_asym (a b : value) :
  py_lt a b = Ok true -> py_lt b a = Ok false.
Proof.
  revert b. induction a as [ | | | | |l IH|d IH] using value_nested_ind;
    intros v; destruct v as [ | | | | |m|e]; cbn [py_lt as_num];
    try discriminate;
    try (intros Hlt; injection Hlt as Hlt; f_equal; now apply num_lt_asym).
  - intros Hlt. injection Hlt as Hlt. f_equal. now apply string_ltb_asym.
  - revert m. induction IH as [|x l Hx _ IHl]; intros [|y m];
      try discriminate; try reflexivity.
    change ((if py_eq x y then py_lt (VList l) (VList m) else py_lt x y) = Ok true
            -> (if py_eq y x then py_lt (VList m) (VList l) else py_lt y x)
               = Ok false).
    rewrite (py_eq_sym y x). destruct (py_eq x y); [apply IHl | apply Hx].
Qed.

(** ** The sorting algorithm *)

Section Outcomes.
Context {A B : Type} (E : exn -> Prop).

Lemma outcome_bind (Q : A -> Prop) (P : B -> Prop) (m : result A) (k : A -> result B) :
  outcome E Q m -> (forall x, Q x -> outcome E P (k x)) -> outcome E P (bind m k).
Proof. destruct m as [x|e]; cbn; auto. Qed.

Lemma outcome_weaken (P Q : A -> Prop) (m : result A) :
  outcome E P m -> (forall x, P x -> Q x) -> outcome E Q m.
Proof. destruct m as [x|e]; cbn; auto. Qed.

Lemma outcome_ok (P : A -> Prop) (m : result A) (x : A) :
  outcome E P m -> m = Ok x -> P x.
Proof. intros H ->. exact H. Qed.

Lemma outcome_raise (P : A -> Prop) (m : result A) (e : exn) :
  outcome E P m -> m = Raise e -> E e.
Proof. intros H ->. exact H. Qed.

End Outcomes.

Section Chains.
Context {T : Type} (R : T -> T -> Prop).
Implicit Types (l : list T) (x y z : T).

Lemma ends_with_nil z : ~ ends_with (@nil T) z.
Proof. intros [l' H]. destruct l'; discriminate. Qed.

Lemma ends_with_one x z : ends_with [x] z -> z = x.
Proof.
  intros [l' H]. destruct l' as [|a l']; cbn in H.
  - now injection H.
  - injection H as _ H. destruct l'; discriminate.
Qed.

Lemma ends_with_cons x l z : l <> [] -> ends_with (x :: l) z -> ends_with l z.
Proof.
  intros Hl [l' H]. destruct l' as [|a l']; cbn in H.
  - injection H as _ H. congruence.
  - injection H as _ H. exists l'. exact H.
Qed.

Lemma ends_with_app l1 l2 z : l2 <> [] -> ends_with (l1 ++ l2) z -> ends_with l2 z.
Proof.
  intros Hl2. induction l1 as [|a l1 IH]; cbn; [auto|].
  intros H. apply IH. apply (ends_with_cons a); [|exact H].
  destruct l1; [exact Hl2 | discriminate].
Qed.

Lemma ends_with_app_r l1 l2 z : ends_with l2 z -> ends_with (l1 ++ l2) z.
Proof. intros [l' ->]. exists (l1 ++ l')%list. now rewrite app_assoc. Qed.

Lemma ends_with_snoc l x z : ends_with (l ++ [x]) z -> z = x.
Proof.
  intros H. apply ends_with_one. apply (ends_with_app l); [discriminate | exact H].
Qed.

Lemma ends_with_last l : l <> [] -> exists z, ends_with l z.
Proof.
  intros Hl. destruct (exists_last Hl) as (l' & z & ->). exists z, l'. reflexivity.
Qed.

Lemma ends_with_unique l z z' : ends_with l z -> ends_with l z' -> z = z'.
Proof.
  intros [l1 ->] H. symmetry. exact (ends_with_snoc _ _ _ H).
Qed.

Lemma ends_with_rev l z : ends_with (rev l) z <-> starts_with l z.
Proof.
  split.
  - intros [l' H]. apply (f_equal (@rev T)) in H.
    rewrite rev_involutive, rev_app_distr in H. cbn in H. now exists (rev l').
  - intros [l' ->]. exists (rev l'). reflexivity.
Qed.

Lemma starts_with_rev l z : starts_with (rev l) z <-> ends_with l z.
Proof.
  rewrite <- (rev_involutive l) at 2. symmetry. apply ends_with_rev.
Qed.

Lemma starts_with_app l1 l2 z : l1 <> [] -> starts_with (l1 ++ l2) z -> starts_with l1 z.
Proof.
  destruct l1 as [|a l1]; [congruence|]. intros _ [l' H]. cbn in H.
  injection H as -> _. now exists l1.
Qed.

Lemma HdRel_starts z l : HdRel R z l <-> (forall y, starts_with l y -> R z y).
Proof.
  split.
  - intros H y [l' ->]. now inversion H.
  - intros H. destruct l as [|y l]; constructor. apply H. now exists l.
Qed.

Lemma joins_nil_l l : joins R [] l.
Proof. intros x y H. now apply ends_with_nil in H. Qed.

Lemma joins_nil_r l : joins R l [].
Proof. intros x y _ [l' H]. discriminate. Qed.

Lemma Sorted_app l1 l2 :
  Sorted R l1 -> Sorted R l2 -> joins R l1 l2 -> Sorted R (l1 ++ l2).
Proof.
  intros H1 H2 Hj. induction l1 as [|a l1 IH]; cbn; [exact H2|].
  inversion H1 as [|? ? Hs Hh]; subst. constructor.
  - apply IH; [exact Hs|]. intros x y Hx Hy. apply Hj; [|exact Hy].
    destruct Hx as [l' ->]. now exists (a :: l').
  - destruct l1 as [|b l1]; cbn.
    + apply HdRel_starts. intros y Hy. apply Hj; [now exists [] | exact Hy].
    + inversion Hh; subst. now constructor.
Qed.

Lemma Sorted_app_inv l1 l2 :
  Sorted R (l1 ++ l2) -> Sorted R l1 /\ Sorted R l2 /\ joins R l1 l2.
Proof.
  induction l1 as [|a l1 IH]; cbn.
  - intros H. repeat split; [constructor | exact H | apply joins_nil_l].
  - intros H. inversion H as [|? ? Hs Hh]; subst.
    destruct (IH Hs) as (H1 & H2 & Hj). repeat split; [|exact H2|].
    + constructor; [exact H1|]. destruct l1; [constructor|].
      inversion Hh; subst. now constructor.
    + intros x y Hx Hy. destruct l1 as [|b l1].
      * apply ends_with_one in Hx. subst x. destruct Hy as [l' ->].
        now inversion Hh.
      * apply Hj; [|exact Hy]. apply (ends_with_cons a); [discriminate | exact Hx].
Qed.

Lemma Sorted_firstn k l : Sorted R l -> Sorted R (firstn k l).
Proof.
  intros H. rewrite <- (firstn_skipn k l) in H. now apply Sorted_app_inv in H.
Qed.

Lemma Sorted_skipn k l : Sorted R l -> Sorted R (skipn k l).
Proof.
  intros H. rewrite <- (firstn_skipn k l) in H. now apply Sorted_app_inv in H.
Qed.

Lemma joins_firstn_skipn k l : Sorted R l -> joins R (firstn k l) (skipn k l).
Proof.
  intros H. rewrite <- (firstn_skipn k l) in H. now apply Sorted_app_inv in H.
Qed.

Lemma ends_with_firstn (d : T) k l z :
  k <= List.length l -> ends_with (firstn k l) z -> 0 < k /\ z = nth (k - 1) l d.
Proof.
  intros Hk [l' H]. destruct k as [|k]; [destruct l'; discriminate|].
  split; [lia|]. replace (S k - 1) with k by lia.
  assert (Hlen : List.length l' = k).
  { apply (f_equal (@List.length T)) in H.
    rewrite length_firstn, length_app in H. cbn [List.length] in H. lia. }
  rewrite <- (firstn_skipn (S k) l), H, <- app_assoc.
  rewrite app_nth2 by lia. now rewrite Hlen, Nat.sub_diag.
Qed.

Lemma starts_with_skipn (d : T) k l z :
  starts_with (skipn k l) z -> k < List.length l /\ z = nth k l d.
Proof.
  intros [l' H].
  assert (Hk : k < List.length l).
  { apply (f_equal (@List.length T)) in H. rewrite length_skipn in H.
    cbn [List.length] in H. lia. }
  split; [exact Hk|].
  rewrite <- (firstn_skipn k l), H, app_nth2 by (rewrite length_firstn; lia).
  rewrite length_firstn. now replace (k - Nat.min k (List.length l)) with 0 by lia.
Qed.

End Chains.

Lemma Sorted_rev {T} (R : T -> T -> Prop) (l : list T) :
  Sorted R l -> Sorted (fun x y => R y x) (rev l).
Proof.
  induction 1 as [|a l Hs IH Hh]; cbn; [constructor|].
  apply Sorted_app.
  - exact IH.
  - repeat constructor.
  - intros x y Hx Hy. destruct Hy as [l' Hy]. injection Hy as <- _.
    apply ends_with_rev in Hx. destruct Hx as [l'' ->]. now inversion Hh.
Qed.

Section MergePost.
Context {T : Type} (Rel : T -> T -> Prop).
Implicit Types (a b l r : list T) (x y z u : T) (g : nat).

Lemma merge_post_nil_l b g : Sorted Rel b -> merge_post Rel [] b (b, g).
Proof. intros Hb. repeat split; cbn [fst]; auto. Qed.

Lemma merge_post_nil_r a g : Sorted Rel a -> merge_post Rel a [] (a, g).
Proof.
  intros Ha. repeat split; cbn [fst]; auto. now rewrite app_nil_r.
Qed.

Lemma starts_with_app_l l1 l2 u : starts_with l1 u -> starts_with (l1 ++ l2) u.
Proof. intros [l' ->]. now exists (l' ++ l2)%list. Qed.

Lemma starts_with_app_inv l1 l2 u :
  starts_with (l1 ++ l2) u -> starts_with l1 u \/ (l1 = [] /\ starts_with l2 u).
Proof.
  destruct l1 as [|x l1]; cbn; [now right|]. intros [l' H]. injection H as -> _.
  left. now exists l1.
Qed.

Lemma ends_with_app_inv l1 l2 u :
  ends_with (l1 ++ l2) u -> ends_with l2 u \/ (l2 = [] /\ ends_with l1 u).
Proof.
  destruct l2 as [|y l2].
  - rewrite app_nil_r. now right.
  - intros H. left. apply (ends_with_app l1); [discriminate | exact H].
Qed.

(** The first run is down to its last element, which goes last. *)
Lemma merge_post_copy_a b za g :
  Sorted Rel b -> b <> [] -> (forall zb, ends_with b zb -> Rel zb za) ->
  merge_post Rel [za] b ((b ++ [za])%list, g).
Proof.
  intros Hb Hne Hlast. repeat split; cbn [fst].
  - apply Sorted_app; [exact Hb | repeat constructor|].
    intros x y Hx [l' Hy]. injection Hy as <- _. exact (Hlast x Hx).
  - apply Permutation_app_comm.
  - intros u Hu. right. now apply (starts_with_app b [za]).
  - intros u Hu. left. apply (ends_with_app b); [discriminate | exact Hu].
Qed.

(** The second run is down to one element, which goes last. *)
Lemma merge_post_copy_b a zb g :
  Sorted Rel a -> a <> [] -> (forall za, ends_with a za -> Rel za zb) ->
  merge_post Rel a [zb] ((a ++ [zb])%list, g).
Proof.
  intros Ha Hne Hlast. repeat split; cbn [fst].
  - apply Sorted_app; [exact Ha | repeat constructor|].
    intros x y Hx [l' Hy]. injection Hy as <- _. exact (Hlast x Hx).
  - reflexivity.
  - intros u Hu. left. now apply (starts_with_app a [zb]).
  - intros u Hu. right. apply (ends_with_app a); [discriminate | exact Hu].
Qed.

Lemma merge_post_chunk_a l1 l2 b r' g :
  Sorted Rel (l1 ++ l2) -> joins Rel l1 b ->
  merge_post Rel l2 b (r', g) -> merge_post Rel (l1 ++ l2) b ((l1 ++ r')%list, g).
Proof.
  intros Ha Hj (Hs & Hp & Hh & Ht). cbn [fst] in *.
  destruct (Sorted_app_inv Rel l1 l2 Ha) as (Hs1 & Hs2 & Hj12).
  repeat split; cbn [fst].
  - apply Sorted_app; [exact Hs1 | exact Hs|].
    intros x y Hx Hy. destruct (Hh y Hy) as [H|H]; [exact (Hj12 x y Hx H)|].
    exact (Hj x y Hx H).
  - rewrite <- app_assoc. now apply Permutation_app_head.
  - intros u Hu. destruct (starts_with_app_inv _ _ _ Hu) as [H|[-> H]].
    + left. now apply starts_with_app_l.
    + cbn. now apply Hh.
  - intros u Hu. destruct (ends_with_app_inv _ _ _ Hu) as [H|[-> H]].
    + destruct (Ht u H) as [H'|H']; [left|now right]. now apply ends_with_app_r.
    + apply Permutation_sym, Permutation_nil, app_eq_nil in Hp.
      destruct Hp as [-> ->]. left. now rewrite app_nil_r.
Qed.

Lemma merge_post_chunk_b a m1 m2 r' g :
  Sorted Rel (m1 ++ m2) -> joins Rel m1 a ->
  merge_post Rel a m2 (r', g) -> merge_post Rel a (m1 ++ m2) ((m1 ++ r')%list, g).
Proof.
  intros Hb Hj (Hs & Hp & Hh & Ht). cbn [fst] in *.
  destruct (Sorted_app_inv Rel m1 m2 Hb) as (Hs1 & Hs2 & Hj12).
  repeat split; cbn [fst].
  - apply Sorted_app; [exact Hs1 | exact Hs|].
    intros x y Hx Hy. destruct (Hh y Hy) as [H|H]; [exact (Hj x y Hx H)|].
    exact (Hj12 x y Hx H).
  - rewrite <- Hp. rewrite !app_assoc. apply Permutation_app_tail.
    apply Permutation_app_comm.
  - intros u Hu. destruct (starts_with_app_inv _ _ _ Hu) as [H|[-> H]].
    + right. now apply starts_with_app_l.
    + cbn. now apply Hh.
  - intros u Hu. destruct (ends_with_app_inv _ _ _ Hu) as [H|[-> H]].
    + destruct (Ht u H) as [H'|H']; [now left|right]. now apply ends_with_app_r.
    + apply Permutation_sym, Permutation_nil, app_eq_nil in Hp.
      destruct Hp as [-> ->]. right. now rewrite app_nil_r.
Qed.

Lemma joins_one_l x l : (forall y, starts_with l y -> Rel x y) -> joins Rel [x] l.
Proof. intros H u y Hu Hy. apply ends_with_one in Hu. subst u. now apply H. Qed.

Lemma joins_cons_r l y l' : (forall x, ends_with l x -> Rel x y) -> joins Rel l (y :: l').
Proof. intros H x u Hx [l'' Hu]. injection Hu as <- _. now apply H. Qed.

Lemma length_one l : List.length l = 1 -> exists z, l = [z].
Proof. destruct l as [|z [|]]; cbn; try discriminate. now exists z. Qed.

End MergePost.

(** A merge from the right, read from the left. *)
Lemma merge_post_rev {T} (Rel : T -> T -> Prop) (a b r : list T) (g : nat) :
  merge_post (fun x y => Rel y x) (rev a) (rev b) (r, g) ->
  merge_post Rel a b (rev r, g).
Proof.
  intros (Hs & Hp & Hh & Ht). cbn [fst] in *. repeat split; cbn [fst].
  - apply Sorted_rev in Hs. exact Hs.
  - rewrite <- (Permutation_rev r). rewrite <- Hp.
    now rewrite <- !Permutation_rev.
  - intros u Hu. apply starts_with_rev in Hu.
    destruct (Ht u Hu) as [H|H]; apply ends_with_rev in H; auto.
  - intros u Hu. apply ends_with_rev in Hu.
    destruct (Hh u Hu) as [H|H]; apply starts_with_rev in H; auto.
Qed.

Lemma Sorted_weaken {T} (P Q : T -> T -> Prop) (l : list T) :
  (forall x y, P x y -> Q x y) -> Sorted P l -> Sorted Q l.
Proof.
  intros HPQ. induction 1 as [|a l Hs IH Hh]; constructor; [exact IH|].
  destruct Hh; constructor. now apply HPQ.
Qed.

Lemma half_lt (n : nat) : 0 < n -> n / 2 < n.
Proof. intros H. apply Nat.div_lt; lia. Qed.

Lemma is_not_true (c : result bool) : is_not c = Ok true -> c = Ok false.
Proof. destruct c as [[|]|e]; cbn; congruence. Qed.

Lemma is_not_false (c : result bool) : is_not c = Ok false -> c = Ok true.
Proof. destruct c as [[|]|e]; cbn; congruence. Qed.

Lemma is_not_raise (c : result bool) (e : exn) : is_not c = Raise e -> c = Raise e.
Proof. destruct c as [[|]|e']; cbn; congruence. Qed.

Section ListSortTheory.
Context {T : Type} (ISLT : T -> T -> result bool).
Variable D : T -> Prop.
Variable E : exn -> Prop.
Hypothesis ISLT_asym : forall x y, ISLT x y = Ok true -> ISLT y x = Ok false.
Hypothesis ISLT_raise : forall x y e, D x -> D y -> ISLT x y = Raise e -> E e.

Local Open Scope nat_scope.

#[local] Abbreviation R := (not_below ISLT).
Implicit Types (l a b r : list T) (x y z key : T).

Lemma nth_D l d i : D d -> Forall D l -> D (nth i l d).
Proof.
  intros Hd Hl. destruct (nth_in_or_default i l d) as [Hin | ->]; [|exact Hd].
  exact (proj1 (Forall_forall D l) Hl _ Hin).
Qed.

Lemma Forall_firstn_D k l : Forall D l -> Forall D (firstn k l).
Proof.
  intros H. rewrite <- (firstn_skipn k l) in H. now apply Forall_app in H.
Qed.

Lemma Forall_skipn_D k l : Forall D l -> Forall D (skipn k l).
Proof.
  intros H. rewrite <- (firstn_skipn k l) in H. now apply Forall_app in H.
Qed.

Lemma Forall_perm_D l r : Permutation l r -> Forall D l -> Forall D r.
Proof. intros Hp. apply Permutation_Forall. exact Hp. Qed.

(** *** Runs *)

Lemma descending_run_spec l : forall prev, D prev -> Forall D l ->
  outcome E (fun n => n <= List.length l
                      /\ Sorted (fun x y => ISLT y x = Ok true) (prev :: firstn n l))
    (descending_run ISLT prev l).
Proof.
  induction l as [|x l IH]; intros prev Hp Hl; cbn [descending_run].
  - cbn. split; [lia | repeat constructor].
  - inversion Hl as [|? ? Hx Hl']; subst.
    destruct (ISLT x prev) as [[|]|e] eqn:Hlt; cbn [bind].
    + eapply outcome_bind; [exact (IH x Hx Hl')|].
      intros n [Hn Hs]. cbn. split; [lia|].
      constructor; [exact Hs | constructor; exact Hlt].
    + cbn. split; [lia | repeat constructor].
    + exact (ISLT_raise _ _ _ Hx Hp Hlt).
Qed.

Lemma ascending_run_spec l : forall prev, D prev -> Forall D l ->
  outcome E (fun n => n <= List.length l /\ Sorted R (prev :: firstn n l))
    (ascending_run ISLT prev l).
Proof.
  induction l as [|x l IH]; intros prev Hp Hl; cbn [ascending_run].
  - cbn. split; [lia | repeat constructor].
  - inversion Hl as [|? ? Hx Hl']; subst.
    destruct (ISLT x prev) as [[|]|e] eqn:Hlt; cbn [bind].
    + cbn. split; [lia | repeat constructor].
    + eapply outcome_bind; [exact (IH x Hx Hl')|].
      intros n [Hn Hs]. cbn. split; [lia|].
      constructor; [exact Hs | constructor; exact Hlt].
    + exact (ISLT_raise _ _ _ Hx Hp Hlt).
Qed.

Lemma count_run_spec l : l <> [] -> Forall D l ->
  outcome E (fun nd : nat * bool => 1 <= fst nd <= List.length l
                       /\ Sorted R (if snd nd then rev (firstn (fst nd) l)
                                    else firstn (fst nd) l))
    (count_run ISLT l).
Proof.
  intros Hne Hl. destruct l as [|x [|y l]]; [congruence| |].
  - cbn. split; [lia | repeat constructor].
  - cbn [count_run]. inversion Hl as [|? ? Hx Hl']; subst.
    inversion Hl' as [|? ? Hy Hl'']; subst.
    destruct (ISLT y x) as [[|]|e] eqn:Hlt; cbn [bind].
    + eapply outcome_bind; [exact (descending_run_spec l y Hy Hl'')|].
      intros n [Hn Hs]. cbn [outcome fst snd List.length]. split; [lia|].
      change (firstn (2 + n) (x :: y :: l)) with (x :: y :: firstn n l).
      eapply Sorted_weaken; [|apply Sorted_rev; constructor; [exact Hs|]].
      * intros a b Hab. exact (ISLT_asym _ _ Hab).
      * constructor. exact Hlt.
    + eapply outcome_bind; [exact (ascending_run_spec l y Hy Hl'')|].
      intros n [Hn Hs]. cbn [outcome fst snd List.length]. split; [lia|].
      change (firstn (2 + n) (x :: y :: l)) with (x :: y :: firstn n l).
      constructor; [exact Hs | constructor; exact Hlt].
    + exact (ISLT_raise _ _ _ Hy Hx Hlt).
Qed.

Lemma ascending_run_sorted l : forall prev,
  Sorted R (prev :: l) -> ascending_run ISLT prev l = Ok (List.length l).
Proof.
  induction l as [|x l IH]; intros prev Hs; cbn [ascending_run]; [reflexivity|].
  inversion Hs as [|? ? Hs' Hh]; subst. inversion Hh as [|? ? Hlt]; subst.
  unfold not_below in Hlt. rewrite Hlt. cbn [bind]. rewrite (IH x Hs'). reflexivity.
Qed.

Lemma count_run_sorted l :
  l <> [] -> Sorted R l -> count_run ISLT l = Ok (List.length l, false).
Proof.
  intros Hne Hs. destruct l as [|x [|y l]]; [congruence|reflexivity|].
  cbn [count_run]. inversion Hs as [|? ? Hs' Hh]; subst.
  inversion Hh as [|? ? Hlt]; subst. unfold not_below in Hlt. rewrite Hlt.
  cbn [bind]. rewrite (ascending_run_sorted l y Hs'). reflexivity.
Qed.

(** *** Searches *)

Section Search.
Variables (a : list T) (d : T).
Variables (Low High : nat -> Prop).

Section Bisect.
Variable go_left : T -> result bool.
Hypothesis go_left_true : forall i, go_left (nth i a d) = Ok true -> High i.
Hypothesis go_left_false : forall i, go_left (nth i a d) = Ok false -> Low i.
Hypothesis go_left_raise : forall i e, go_left (nth i a d) = Raise e -> E e.

Lemma bisect_spec fuel : forall lo hi,
  lo <= hi -> hi - lo <= fuel ->
  (lo = 0 \/ Low (lo - 1)) -> (hi = List.length a \/ High hi) -> hi <= List.length a ->
  outcome E (fun k => k <= List.length a
                      /\ (k = 0 \/ Low (k - 1))
                      /\ (k = List.length a \/ High k))
    (bisect fuel go_left a d lo hi).
Proof.
  induction fuel as [|fuel IH]; intros lo hi Hle Hfuel Hlo Hhi Hn; cbn [bisect].
  - cbn. replace hi with lo in * by lia. auto.
  - destruct (Nat.ltb_spec lo hi) as [Hlt|Hge].
    + pose proof (half_lt (hi - lo) ltac:(lia)) as Hhalf.
      set (m := lo + (hi - lo) / 2) in *.
      destruct (go_left (nth m a d)) as [[|]|e] eqn:Hgo; cbn [bind].
      * apply IH; try lia; [exact Hlo|]. right. exact (go_left_true _ Hgo).
      * apply IH; try lia; [|exact Hhi]. right.
        replace (S m - 1) with m by lia. exact (go_left_false _ Hgo).
      * exact (go_left_raise _ _ Hgo).
    + cbn. replace hi with lo in * by lia. auto.
Qed.

End Bisect.

Lemma gallop_scan_spec (further : nat -> result bool) (P Q : nat -> Prop) maxofs :
  (forall ofs, further ofs = Ok true -> P ofs) ->
  (forall ofs, further ofs = Ok false -> Q ofs) ->
  (forall ofs e, further ofs = Raise e -> E e) ->
  forall fuel lastofs ofs,
  lastofs < ofs -> lastofs < maxofs -> maxofs - ofs <= fuel -> P lastofs ->
  outcome E (fun lo : nat * nat => fst lo < snd lo /\ fst lo < maxofs /\ P (fst lo)
                       /\ (maxofs <= snd lo \/ Q (snd lo)))
    (gallop_scan fuel further maxofs lastofs ofs).
Proof.
  intros HP HQ HE. induction fuel as [|fuel IH]; intros lastofs ofs Hlt Hmax Hfuel Hp;
    cbn [gallop_scan].
  - cbn. repeat split; try assumption. left. lia.
  - destruct (Nat.ltb_spec ofs maxofs) as [Hin|Hout].
    + destruct (further ofs) as [[|]|e] eqn:Hf; cbn [bind].
      * apply IH; try lia. exact (HP _ Hf).
      * cbn. repeat split; try assumption. right. exact (HQ _ Hf).
      * exact (HE _ _ Hf).
    + cbn. repeat split; try assumption. left. lia.
Qed.

End Search.

Lemma gallop_right_spec key a hint : D key -> Forall D a -> hint < List.length a ->
  outcome E (fun k => k <= List.length a
       /\ (forall z, ends_with (firstn k a) z -> ISLT key z = Ok false)
       /\ (forall z, starts_with (skipn k a) z -> ISLT key z = Ok true))
    (gallop_right ISLT key a hint).
Proof.
  intros Hk Ha Hhint. unfold gallop_right.
  set (Low := fun i => ISLT key (nth i a key) = Ok false).
  set (High := fun i => ISLT key (nth i a key) = Ok true).
  assert (Hfinish : forall lo hi,
    lo <= hi -> (lo = 0 \/ Low (lo - 1)) -> (hi = List.length a \/ High hi) ->
    hi <= List.length a ->
    outcome E (fun k => k <= List.length a
       /\ (forall z, ends_with (firstn k a) z -> ISLT key z = Ok false)
       /\ (forall z, starts_with (skipn k a) z -> ISLT key z = Ok true))
      (bisect (hi - lo) (ISLT key) a key lo hi)).
  { intros lo hi Hle Hlo Hhi Hn.
    eapply outcome_weaken.
    - apply (bisect_spec a key Low High (ISLT key)); try assumption; try lia.
      + intros i H. exact H.
      + intros i H. exact H.
      + intros i e H. exact (ISLT_raise _ _ _ Hk (nth_D a key i Hk Ha) H).
    - intros k (Hkn & Hl & Hh). split; [exact Hkn|]. split.
      + intros z Hz. destruct (ends_with_firstn key k a z Hkn Hz) as [Hpos ->].
        destruct Hl as [->|Hl]; [lia | exact Hl].
      + intros z Hz. destruct (starts_with_skipn key k a z Hz) as [Hlt ->].
        destruct Hh as [->|Hh]; [lia | exact Hh]. }
  set (Bounds := fun lohi : nat * nat =>
    fst lohi <= snd lohi /\ (fst lohi = 0 \/ Low (fst lohi - 1))
    /\ (snd lohi = List.length a \/ High (snd lohi)) /\ snd lohi <= List.length a).
  destruct (ISLT key (nth hint a key)) as [[|]|e] eqn:Hfirst; cbn [bind]; cbv zeta.
  - apply (outcome_bind E Bounds); [|intros [lo hi] (? & ? & ? & ?); now apply Hfinish].
    eapply outcome_bind.
    + apply (gallop_scan_spec (fun ofs => ISLT key (nth (hint - ofs) a key))
               (fun ofs => High (hint - ofs)) (fun ofs => Low (hint - ofs)) (S hint));
        try lia.
      * intros ofs H. exact H.
      * intros ofs H. exact H.
      * intros ofs e H. exact (ISLT_raise _ _ _ Hk (nth_D a key _ Hk Ha) H).
      * unfold High. rewrite Nat.sub_0_r. exact Hfirst.
    + intros [lastofs ofs] (Hlt & Hmax & HP & HQ). cbn [fst snd] in *.
      cbn [bind outcome]. unfold Bounds. cbn [fst snd]. repeat split; try lia.
      * destruct HQ as [HQ|HQ]; [left; lia|].
        destruct (Nat.le_gt_cases (S hint) ofs); [left; lia|]. right.
        replace (S hint - Nat.min ofs (S hint) - 1) with (hint - ofs) by lia.
        exact HQ.
      * right. exact HP.
  - apply (outcome_bind E Bounds); [|intros [lo hi] (? & ? & ? & ?); now apply Hfinish].
    eapply outcome_bind.
    + apply (gallop_scan_spec
               (fun ofs => is_not (ISLT key (nth (hint + ofs) a key)))
               (fun ofs => Low (hint + ofs)) (fun ofs => High (hint + ofs))
               (List.length a - hint));
        try lia.
      * intros ofs H. exact (is_not_true _ H).
      * intros ofs H. exact (is_not_false _ H).
      * intros ofs e H. apply is_not_raise in H.
        exact (ISLT_raise _ _ _ Hk (nth_D a key _ Hk Ha) H).
      * unfold Low. rewrite Nat.add_0_r. exact Hfirst.
    + intros [lastofs ofs] (Hlt & Hmax & HP & HQ). cbn [fst snd] in *.
      cbn [bind outcome]. unfold Bounds. cbn [fst snd]. repeat split; try lia.
      * right. replace (S (hint + lastofs) - 1) with (hint + lastofs) by lia.
        exact HP.
      * destruct HQ as [HQ|HQ]; [left; lia|].
        destruct (Nat.le_gt_cases (List.length a - hint) ofs); [left; lia|]. right.
        replace (Nat.min ofs (List.length a - hint)) with ofs by lia. exact HQ.
  - exact (ISLT_raise _ _ _ Hk (nth_D a key _ Hk Ha) Hfirst).
Qed.

Lemma gallop_left_spec key a hint : D key -> Forall D a -> hint < List.length a ->
  outcome E (fun k => k <= List.length a
       /\ (forall z, ends_with (firstn k a) z -> ISLT z key = Ok true)
       /\ (forall z, starts_with (skipn k a) z -> ISLT z key = Ok false))
    (gallop_left ISLT key a hint).
Proof.
  intros Hk Ha Hhint. unfold gallop_left.
  set (Low := fun i => ISLT (nth i a key) key = Ok true).
  set (High := fun i => ISLT (nth i a key) key = Ok false).
  assert (Hfinish : forall lo hi,
    lo <= hi -> (lo = 0 \/ Low (lo - 1)) -> (hi = List.length a \/ High hi) ->
    hi <= List.length a ->
    outcome E (fun k => k <= List.length a
       /\ (forall z, ends_with (firstn k a) z -> ISLT z key = Ok true)
       /\ (forall z, starts_with (skipn k a) z -> ISLT z key = Ok false))
      (bisect (hi - lo) (fun x => is_not (ISLT x key)) a key lo hi)).
  { intros lo hi Hle Hlo Hhi Hn.
    eapply outcome_weaken.
    - apply (bisect_spec a key Low High (fun x => is_not (ISLT x key)));
        try assumption; try lia.
      + intros i H. exact (is_not_true _ H).
      + intros i H. exact (is_not_false _ H).
      + intros i e H. apply is_not_raise in H.
        exact (ISLT_raise _ _ _ (nth_D a key i Hk Ha) Hk H).
    - intros k (Hkn & Hl & Hh). split; [exact Hkn|]. split.
      + intros z Hz. destruct (ends_with_firstn key k a z Hkn Hz) as [Hpos ->].
        destruct Hl as [->|Hl]; [lia | exact Hl].
      + intros z Hz. destruct (starts_with_skipn key k a z Hz) as [Hlt ->].
        destruct Hh as [->|Hh]; [lia | exact Hh]. }
  set (Bounds := fun lohi : nat * nat =>
    fst lohi <= snd lohi /\ (fst lohi = 0 \/ Low (fst lohi - 1))
    /\ (snd lohi = List.length a \/ High (snd lohi)) /\ snd lohi <= List.length a).
  destruct (ISLT (nth hint a key) key) as [[|]|e] eqn:Hfirst; cbn [bind]; cbv zeta.
  - apply (outcome_bind E Bounds); [|intros [lo hi] (? & ? & ? & ?); now apply Hfinish].
    eapply outcome_bind.
    + apply (gallop_scan_spec (fun ofs => ISLT (nth (hint + ofs) a key) key)
               (fun ofs => Low (hint + ofs)) (fun ofs => High (hint + ofs))
               (List.length a - hint));
        try lia.
      * intros ofs H. exact H.
      * intros ofs H. exact H.
      * intros ofs e H. exact (ISLT_raise _ _ _ (nth_D a key _ Hk Ha) Hk H).
      * unfold Low. rewrite Nat.add_0_r. exact Hfirst.
    + intros [lastofs ofs] (Hlt & Hmax & HP & HQ). cbn [fst snd] in *.
      cbn [bind outcome]. unfold Bounds. cbn [fst snd]. repeat split; try lia.
      * right. replace (S (hint + lastofs) - 1) with (hint + lastofs) by lia.
        exact HP.
      * destruct HQ as [HQ|HQ]; [left; lia|].
        destruct (Nat.le_gt_cases (List.length a - hint) ofs); [left; lia|]. right.
        replace (Nat.min ofs (List.length a - hint)) with ofs by lia. exact HQ.
  - apply (outcome_bind E Bounds); [|intros [lo hi] (? & ? & ? & ?); now apply Hfinish].
    eapply outcome_bind.
    + apply (gallop_scan_spec
               (fun ofs => is_not (ISLT (nth (hint - ofs) a key) key))
               (fun ofs => High (hint - ofs)) (fun ofs => Low (hint - ofs)) (S hint));
        try lia.
      * intros ofs H. exact (is_not_true _ H).
      * intros ofs H. exact (is_not_false _ H).
      * intros ofs e H. apply is_not_raise in H.
        exact (ISLT_raise _ _ _ (nth_D a key _ Hk Ha) Hk H).
      * unfold High. rewrite Nat.sub_0_r. exact Hfirst.
    + intros [lastofs ofs] (Hlt & Hmax & HP & HQ). cbn [fst snd] in *.
      cbn [bind outcome]. unfold Bounds. cbn [fst snd]. repeat split; try lia.
      * destruct HQ as [HQ|HQ]; [left; lia|].
        destruct (Nat.le_gt_cases (S hint) ofs); [left; lia|]. right.
        replace (S hint - Nat.min ofs (S hint) - 1) with (hint - ofs) by lia.
        exact HQ.
      * right. exact HP.
  - exact (ISLT_raise _ _ _ (nth_D a key _ Hk Ha) Hk Hfirst).
Qed.

(** *** Binary insertion *)

Lemma insert_at_sorted a (pos : nat) pivot :
  Sorted R a -> pos <= List.length a ->
  (forall z, ends_with (firstn pos a) z -> ISLT pivot z = Ok false) ->
  (forall z, starts_with (skipn pos a) z -> ISLT pivot z = Ok true) ->
  Sorted R (insert_at pos pivot a).
Proof.
  intros Hs Hl Hlo Hhi. unfold insert_at. apply Sorted_app.
  - now apply Sorted_firstn.
  - constructor; [now apply Sorted_skipn|]. apply HdRel_starts.
    intros y Hy. exact (ISLT_asym _ _ (Hhi y Hy)).
  - intros x y Hx [l' Hy]. injection Hy as <- _. exact (Hlo x Hx).
Qed.

Lemma insert_at_perm a (pos : nat) pivot :
  Permutation (pivot :: a) (insert_at pos pivot a).
Proof.
  unfold insert_at. rewrite <- (firstn_skipn pos a) at 1. apply Permutation_middle.
Qed.

Lemma binarysort_spec rest : forall a, Forall D a -> Forall D rest -> Sorted R a ->
  outcome E (fun r => Sorted R r /\ Permutation (a ++ rest) r)
    (binarysort ISLT a rest).
Proof.
  induction rest as [|pivot rest IH]; intros a Ha Hrest Hs; cbn [binarysort].
  - cbn. rewrite app_nil_r. auto.
  - inversion Hrest as [|? ? Hp Hrest']; subst.
    eapply outcome_bind.
    + apply (bisect_spec a pivot
               (fun i => ISLT pivot (nth i a pivot) = Ok false)
               (fun i => ISLT pivot (nth i a pivot) = Ok true) (ISLT pivot));
        try lia; auto.
      intros i e H. exact (ISLT_raise _ _ _ Hp (nth_D a pivot i Hp Ha) H).
    + intros pos (Hl & Hlo & Hhi). cbn beta.
      eapply outcome_weaken.
      * apply IH; [|exact Hrest'|].
        -- apply (Forall_perm_D (pivot :: a)); [apply insert_at_perm | now constructor].
        -- apply insert_at_sorted; [exact Hs | exact Hl | |].
           ++ intros z Hz. destruct (ends_with_firstn pivot pos a z Hl Hz) as [Hpos ->].
              destruct Hlo as [->|Hlo]; [lia | exact Hlo].
           ++ intros z Hz. destruct (starts_with_skipn pivot pos a z Hz) as [Hlt ->].
              destruct Hhi as [->|Hhi]; [lia | exact Hhi].
      * intros r [Hsr Hperm]. split; [exact Hsr|].
        rewrite <- Hperm. rewrite <- (insert_at_perm a pos pivot).
        symmetry. apply Permutation_middle.
Qed.

(** *** Merges *)

Lemma place_all_spec (P Q : list T * nat -> Prop) (chunk : list T) m :
  outcome E P m -> (forall r g, P (r, g) -> Q ((chunk ++ r)%list, g)) ->
  outcome E Q (place_all chunk m).
Proof.
  intros Hm HPQ. unfold place_all. eapply outcome_bind; [exact Hm|].
  intros [r g] H. exact (HPQ r g H).
Qed.

Lemma place_spec (P Q : list T * nat -> Prop) x m :
  outcome E P m -> (forall r g, P (r, g) -> Q (x :: r, g)) ->
  outcome E Q (place x m).
Proof. exact (place_all_spec P Q [x] m). Qed.

Lemma merge_lo_loop_spec fuel : forall mode (mg : nat) a b,
  Forall D a -> Forall D b ->
  List.length a + List.length b <= fuel -> 2 <= List.length a -> b <> [] ->
  Sorted R a -> Sorted R b ->
  (forall za zb, ends_with a za -> ends_with b zb -> R zb za) ->
  outcome E (merge_post R a b) (merge_lo_loop ISLT fuel mode mg a b).
Proof.
  induction fuel as [|fuel IH]; intros mode mg a b Da Db Hfuel Hna Hnb Sa Sb Hlast.
  { lia. }
  destruct a as [|x a']; [cbn in Hna; lia|].
  destruct b as [|y b']; [congruence|].
  cbn [List.length] in Hfuel, Hna.
  inversion Da as [|? ? Dx Da']; subst. inversion Db as [|? ? Dy Db']; subst.
  inversion Sa as [|? ? Sa' Ha']; subst. inversion Sb as [|? ? Sb' Hb']; subst.
  cbn [merge_lo_loop]. destruct mode as [acount bcount|].
  - (* one element at a time *)
    destruct (ISLT y x) as [[|]|e] eqn:Hlt; cbn [bind].
    + apply (place_spec (merge_post R (x :: a') b')).
      * destruct b' as [|y' b''].
        -- cbn [outcome]. now apply merge_post_nil_r.
        -- assert (Hrec : forall mode' mg',
             outcome E (merge_post R (x :: a') (y' :: b''))
               (merge_lo_loop ISLT fuel mode' mg' (x :: a') (y' :: b''))).
           { intros mode' mg'.
             apply IH; auto; cbn [List.length] in *; try lia; try discriminate.
             intros za zb Hza Hzb. apply Hlast; [exact Hza|].
             now apply (ends_with_app_r [y]). }
           destruct (mg <=? S bcount); apply Hrec.
      * intros r g Hr. apply (merge_post_chunk_b R (x :: a') [y] b'); auto.
        apply joins_one_l. intros u [l' Hu]. injection Hu as <- _.
        exact (ISLT_asym _ _ Hlt).
    + apply (place_spec (merge_post R a' (y :: b'))).
      * destruct a' as [|za [|x' a'']].
        -- cbn in Hna. lia.
        -- cbn [outcome]. apply merge_post_copy_a; auto; try discriminate.
           intros zb Hzb. apply Hlast; [|exact Hzb]. now exists [x].
        -- assert (Hrec : forall mode' mg',
             outcome E (merge_post R (za :: x' :: a'') (y :: b'))
               (merge_lo_loop ISLT fuel mode' mg' (za :: x' :: a'') (y :: b'))).
           { intros mode' mg'.
             apply IH; auto; cbn [List.length] in *; try lia; try discriminate.
             intros z zb Hz Hzb. apply Hlast; [|exact Hzb].
             now apply (ends_with_app_r [x]). }
           destruct (mg <=? S acount); apply Hrec.
      * intros r g Hr. apply (merge_post_chunk_a R [x] a' (y :: b')); auto.
        apply joins_one_l. intros u [l' Hu]. injection Hu as <- _. exact Hlt.
    + exact (ISLT_raise _ _ _ Dy Dx Hlt).
  - (* galloping *)
    set (mg' := if 1 <? mg then mg - 1 else mg).
    eapply outcome_bind.
    { apply (gallop_right_spec y (x :: a') 0); auto. cbn [List.length]. lia. }
    intros k (Hk & Hlo & Hhi). cbn beta.
    set (a := x :: a') in *.
    assert (Hsplit : a = (firstn k a ++ skipn k a)%list)
      by (symmetry; apply firstn_skipn).
    assert (Dl1 : Forall D (firstn k a)) by now apply Forall_firstn_D.
    assert (Dl2 : Forall D (skipn k a)) by now apply Forall_skipn_D.
    assert (Hlen : List.length a = List.length (firstn k a) + List.length (skipn k a))
      by (rewrite <- length_app, firstn_skipn; reflexivity).
    assert (Hk0 : k = 0 -> skipn k a = a) by (intros ->; reflexivity).
    revert Hlo Hhi Hsplit Dl1 Dl2 Hlen Hk0.
    generalize (firstn k a) as l1, (skipn k a) as l2.
    intros l1 l2 Hlo Hhi Hsplit Dl1 Dl2 Hlen Hk0.
    assert (Sl2 : Sorted R l2).
    { rewrite Hsplit in Sa. now apply Sorted_app_inv in Sa. }
    assert (Hend2 : forall z, ends_with l2 z -> ends_with a z).
    { intros z Hz. rewrite Hsplit. now apply ends_with_app_r. }
    apply (place_all_spec (merge_post R l2 (y :: b'))).
    2:{ intros r g Hr. rewrite Hsplit at 1.
        apply merge_post_chunk_a; auto; [now rewrite <- Hsplit|].
        apply joins_cons_r. exact Hlo. }
    assert (Hcont : 2 <= List.length l2 ->
      outcome E (merge_post R l2 (y :: b'))
        (place y
           match l2, b' with
           | x1 :: a2, _ :: _ =>
               k' <- gallop_left ISLT x1 b' 0 ;;
               let b1 := skipn k' b' in
               place_all (firstn k' b')
                 (if (0 <? k') && (List.length b1 =? 0) then Ok (l2, mg')
                  else
                    place x1
                      (if List.length a2 =? 1 then Ok ((b1 ++ a2)%list, mg')
                       else if (MIN_GALLOP <=? k) || (MIN_GALLOP <=? k')
                       then merge_lo_loop ISLT fuel Galloping mg' a2 b1
                       else merge_lo_loop ISLT fuel (Straight 0 0) (S mg') a2 b1))
           | _, _ => Ok (l2, mg')
           end)).
    { intros Hl2. destruct l2 as [|x1 [|x2 a2]]; try (cbn in Hl2; lia).
      set (a2' := x2 :: a2) in *.
      destruct (proj1 (Forall_cons_iff _ _ _) Dl2) as [Dx1 Da2].
      destruct (Sorted_inv Sl2) as [Sa2 Hx1].
      apply (place_spec (merge_post R (x1 :: a2') b')).
      2:{ intros r g Hr. apply (merge_post_chunk_b R (x1 :: a2') [y] b'); auto.
          apply joins_one_l. intros u Hu. exact (ISLT_asym _ _ (Hhi u Hu)). }
      destruct b' as [|y' b''].
      { cbn [outcome]. now apply merge_post_nil_r. }
      set (b' := y' :: b'') in *.
      eapply outcome_bind.
      { apply (gallop_left_spec x1 b' 0); auto. unfold b'. cbn [List.length]. lia. }
      intros k' (Hk' & Hlo' & Hhi'). cbn beta zeta.
      assert (Hsplit' : b' = (firstn k' b' ++ skipn k' b')%list)
        by (symmetry; apply firstn_skipn).
      assert (Dm1 : Forall D (firstn k' b')) by now apply Forall_firstn_D.
      assert (Dm2 : Forall D (skipn k' b')) by now apply Forall_skipn_D.
      assert (Hlen' : List.length b' = List.length (firstn k' b') + List.length (skipn k' b'))
        by (rewrite <- length_app, firstn_skipn; reflexivity).
      assert (Hk0' : k' = 0 -> skipn k' b' = b') by (intros ->; reflexivity).
      revert Hlo' Hhi' Hsplit' Dm1 Dm2 Hlen' Hk0'.
      generalize (firstn k' b') as m1, (skipn k' b') as m2.
      intros m1 m2 Hlo' Hhi' Hsplit' Dm1 Dm2 Hlen' Hk0'.
      assert (Sm2 : Sorted R m2).
      { rewrite Hsplit' in Sb'. now apply Sorted_app_inv in Sb'. }
      assert (Hendm : forall z, ends_with m2 z -> ends_with (y :: b') z).
      { intros z Hz. apply (ends_with_app_r [y]). rewrite Hsplit'.
        now apply ends_with_app_r. }
      assert (Henda : forall z, ends_with a2' z -> ends_with a z).
      { intros z Hz. apply Hend2. now apply (ends_with_app_r [x1]). }
      apply (place_all_spec (merge_post R (x1 :: a2') m2)).
      2:{ intros r g Hr. rewrite Hsplit' at 1.
          apply merge_post_chunk_b; auto; [now rewrite <- Hsplit'|].
          apply joins_cons_r. intros u Hu. exact (ISLT_asym _ _ (Hlo' u Hu)). }
      assert (Hm2 : (0 <? k') && (List.length m2 =? 0) = false -> m2 <> []).
      { intros Hc ->. destruct (Nat.ltb_spec 0 k') as [Hp|Hz]; cbn in Hc;
          [discriminate|]. assert (k' = 0) by lia. specialize (Hk0' H).
          unfold b' in Hk0'. discriminate. }
      destruct ((0 <? k') && (List.length m2 =? 0)) eqn:Hexit.
      { apply andb_prop in Hexit. destruct Hexit as [_ Hz].
        apply Nat.eqb_eq in Hz. destruct m2; [|discriminate].
        cbn [outcome]. now apply merge_post_nil_r. }
      specialize (Hm2 eq_refl).
      apply (place_spec (merge_post R a2' m2)).
      2:{ intros r g Hr. apply (merge_post_chunk_a R [x1] a2' m2); auto.
          apply joins_one_l. exact Hhi'. }
      destruct (Nat.eqb_spec (List.length a2') 1) as [Hone|Hnone].
      { destruct (length_one _ Hone) as [za Hza]. rewrite Hza in *. cbn [outcome].
        apply merge_post_copy_a; auto.
        intros zb Hzb. apply Hlast; [|now apply Hendm].
        apply Henda. now exists []. }
      assert (Hrec : forall mode' mg'',
        outcome E (merge_post R a2' m2)
          (merge_lo_loop ISLT fuel mode' mg'' a2' m2)).
      { intros mode' mg''. apply IH; auto.
        - unfold a in Hlen. cbn [List.length] in *. lia.
        - unfold a2' in *. cbn [List.length] in *. lia. }
      destruct ((MIN_GALLOP <=? k) || (MIN_GALLOP <=? k')); apply Hrec. }
    destruct (Nat.ltb_spec 0 k) as [Hkpos|Hkzero]; cbn [andb].
    + destruct (Nat.eqb_spec (List.length l2) 1) as [Hone|Hnone].
      { destruct (length_one _ Hone) as [za ->]. cbn [outcome].
        apply merge_post_copy_a; auto; try discriminate.
        intros zb Hzb. apply Hlast; [|exact Hzb]. apply Hend2. now exists []. }
      destruct (Nat.eqb_spec (List.length l2) 0) as [Hzero|Hnzero].
      { destruct l2; [|discriminate]. cbn [outcome]. now apply merge_post_nil_l. }
      apply Hcont. lia.
    + apply Hcont. rewrite Hk0 by lia. unfold a. cbn [List.length]. lia.
Qed.

Lemma merge_lo_spec (mg : nat) a b :
  Forall D a -> Forall D b -> a <> [] -> b <> [] -> Sorted R a -> Sorted R b ->
  (forall x y, starts_with a x -> starts_with b y -> ISLT y x = Ok true) ->
  (forall za zb, ends_with a za -> ends_with b zb -> ISLT zb za = Ok true) ->
  outcome E (merge_post R a b) (merge_lo ISLT mg a b).
Proof.
  intros Da Db Hna Hnb Sa Sb Hfirst Hlast. unfold merge_lo.
  destruct b as [|y b']; [congruence|].
  destruct (proj1 (Forall_cons_iff _ _ _) Db) as [Dy Db'].
  destruct (Sorted_inv Sb) as [Sb' Hb'].
  apply (place_spec (merge_post R a b')).
  2:{ intros r g Hr. apply (merge_post_chunk_b R a [y] b'); auto.
      apply joins_one_l. intros u Hu. apply ISLT_asym. apply Hfirst; [exact Hu|].
      now exists b'. }
  destruct b' as [|y' b''].
  { destruct a as [|x [|x' a']]; cbn [outcome]; now apply merge_post_nil_r. }
  destruct a as [|x [|x' a']]; [congruence| |].
  - cbn [outcome]. apply merge_post_copy_a; auto; try discriminate.
    intros zb Hzb. apply ISLT_asym. apply Hlast; [now exists []|].
    now apply (ends_with_app_r [y]).
  - apply merge_lo_loop_spec; auto; cbn [List.length]; try lia; try discriminate.
    intros za zb Hza Hzb. apply ISLT_asym. apply Hlast; [exact Hza|].
    now apply (ends_with_app_r [y]).
Qed.

Lemma gallop_right_rev_spec key ra : D key -> Forall D ra -> ra <> [] ->
  outcome E (fun k0 =>
       k0 <= List.length ra
       /\ (forall z, ends_with (firstn (List.length ra - k0) ra) z -> ISLT key z = Ok true)
       /\ (forall z, starts_with (skipn (List.length ra - k0) ra) z ->
                     ISLT key z = Ok false))
    (gallop_right ISLT key (rev ra) (List.length ra - 1)).
Proof.
  intros Hk Ha Hne. eapply outcome_weaken.
  - apply gallop_right_spec; [exact Hk | now apply Forall_rev|].
    rewrite length_rev. destruct ra; [congruence | cbn [List.length]; lia].
  - intros k0 (Hk0 & Hlo & Hhi). rewrite length_rev in Hk0. split; [exact Hk0|].
    rewrite firstn_rev in Hlo. rewrite skipn_rev in Hhi. split.
    + intros z Hz. apply Hhi. now apply starts_with_rev.
    + intros z Hz. apply Hlo. now apply ends_with_rev.
Qed.

Lemma gallop_left_rev_spec key rb : D key -> Forall D rb -> rb <> [] ->
  outcome E (fun k0 =>
       k0 <= List.length rb
       /\ (forall z, ends_with (firstn (List.length rb - k0) rb) z -> ISLT z key = Ok false)
       /\ (forall z, starts_with (skipn (List.length rb - k0) rb) z ->
                     ISLT z key = Ok true))
    (gallop_left ISLT key (rev rb) (List.length rb - 1)).
Proof.
  intros Hk Hb Hne. eapply outcome_weaken.
  - apply gallop_left_spec; [exact Hk | now apply Forall_rev|].
    rewrite length_rev. destruct rb; [congruence | cbn [List.length]; lia].
  - intros k0 (Hk0 & Hlo & Hhi). rewrite length_rev in Hk0. split; [exact Hk0|].
    rewrite firstn_rev in Hlo. rewrite skipn_rev in Hhi. split.
    + intros z Hz. apply Hhi. now apply starts_with_rev.
    + intros z Hz. apply Hlo. now apply ends_with_rev.
Qed.

#[local] Abbreviation R' := (fun x y : T => not_below ISLT y x).

Lemma merge_hi_loop_spec fuel : forall mode (mg : nat) ra rb,
  Forall D ra -> Forall D rb ->
  List.length ra + List.length rb <= fuel -> ra <> [] -> 2 <= List.length rb ->
  Sorted R' ra -> Sorted R' rb ->
  (forall za zb, ends_with ra za -> ends_with rb zb -> R' za zb) ->
  outcome E (merge_post R' ra rb) (merge_hi_loop ISLT fuel mode mg ra rb).
Proof.
  induction fuel as [|fuel IH]; intros mode mg ra rb Da Db Hfuel Hna Hnb Sa Sb Hlast.
  { lia. }
  destruct ra as [|x ra']; [congruence|].
  destruct rb as [|y rb']; [cbn in Hnb; lia|].
  cbn [List.length] in Hfuel, Hnb.
  destruct (proj1 (Forall_cons_iff _ _ _) Da) as [Dx Da'].
  destruct (proj1 (Forall_cons_iff _ _ _) Db) as [Dy Db'].
  destruct (Sorted_inv Sa) as [Sa' Ha']. destruct (Sorted_inv Sb) as [Sb' Hb'].
  cbn [merge_hi_loop]. destruct mode as [acount bcount|].
  - (* one element at a time *)
    destruct (ISLT y x) as [[|]|e] eqn:Hlt; cbn [bind].
    + apply (place_spec (merge_post R' ra' (y :: rb'))).
      * destruct ra' as [|x' ra''].
        -- cbn [outcome]. now apply merge_post_nil_l.
        -- assert (Hrec : forall mode' mg',
             outcome E (merge_post R' (x' :: ra'') (y :: rb'))
               (merge_hi_loop ISLT fuel mode' mg' (x' :: ra'') (y :: rb'))).
           { intros mode' mg'.
             apply IH; auto; cbn [List.length] in *; try lia; try discriminate.
             intros za zb Hza Hzb. apply Hlast; [|exact Hzb].
             now apply (ends_with_app_r [x]). }
           destruct (mg <=? S acount); apply Hrec.
      * intros r g Hr. apply (merge_post_chunk_a R' [x] ra' (y :: rb')); auto.
        apply joins_one_l. intros u [l' Hu]. injection Hu as <- _.
        exact (ISLT_asym _ _ Hlt).
    + apply (place_spec (merge_post R' (x :: ra') rb')).
      * destruct rb' as [|zb [|y' rb'']].
        -- cbn in Hnb. lia.
        -- cbn [outcome]. apply merge_post_copy_b; auto; try discriminate.
           intros za Hza. apply Hlast; [exact Hza|]. now exists [y].
        -- assert (Hrec : forall mode' mg',
             outcome E (merge_post R' (x :: ra') (zb :: y' :: rb''))
               (merge_hi_loop ISLT fuel mode' mg' (x :: ra') (zb :: y' :: rb''))).
           { intros mode' mg'.
             apply IH; auto; cbn [List.length] in *; try lia; try discriminate.
             intros za z Hza Hz. apply Hlast; [exact Hza|].
             now apply (ends_with_app_r [y]). }
           destruct (mg <=? S bcount); apply Hrec.
      * intros r g Hr. apply (merge_post_chunk_b R' (x :: ra') [y] rb'); auto.
        apply joins_one_l. intros u [l' Hu]. injection Hu as <- _. exact Hlt.
    + exact (ISLT_raise _ _ _ Dy Dx Hlt).
  - (* galloping *)
    set (mg' := if 1 <? mg then mg - 1 else mg).
    set (ra := x :: ra') in *. set (rb := y :: rb') in *.
    cbv zeta.
    eapply outcome_bind.
    { apply (gallop_right_rev_spec y ra); auto. }
    intros k0 (Hk0 & Hlo & Hhi). cbn beta.
    set (k := List.length ra - k0) in *.
    assert (Hsplit : ra = (firstn k ra ++ skipn k ra)%list)
      by (symmetry; apply firstn_skipn).
    assert (Dl1 : Forall D (firstn k ra)) by now apply Forall_firstn_D.
    assert (Dl2 : Forall D (skipn k ra)) by now apply Forall_skipn_D.
    assert (Hlen : List.length ra = List.length (firstn k ra) + List.length (skipn k ra))
      by (rewrite <- length_app, firstn_skipn; reflexivity).
    assert (Hkz : k = 0 -> skipn k ra = ra) by (intros ->; reflexivity).
    revert Hlo Hhi Hsplit Dl1 Dl2 Hlen Hkz.
    generalize (firstn k ra) as l1, (skipn k ra) as l2.
    intros l1 l2 Hlo Hhi Hsplit Dl1 Dl2 Hlen Hkz.
    assert (Sl2 : Sorted R' l2).
    { rewrite Hsplit in Sa. now apply Sorted_app_inv in Sa. }
    assert (Hend2 : forall z, ends_with l2 z -> ends_with ra z).
    { intros z Hz. rewrite Hsplit. now apply ends_with_app_r. }
    apply (place_all_spec (merge_post R' l2 rb)).
    2:{ intros r g Hr. rewrite Hsplit at 1.
        apply merge_post_chunk_a; auto; [now rewrite <- Hsplit|].
        apply joins_cons_r. intros u Hu. exact (ISLT_asym _ _ (Hlo u Hu)). }
    assert (Hl2 : (0 <? k) && (List.length l2 =? 0) = false -> l2 <> []).
    { intros Hc ->. destruct (Nat.ltb_spec 0 k) as [Hp|Hz]; cbn in Hc;
        [discriminate|]. assert (Hk : k = 0) by lia. specialize (Hkz Hk).
        unfold ra in Hkz. discriminate. }
    destruct ((0 <? k) && (List.length l2 =? 0)) eqn:Hexit.
    { apply andb_prop in Hexit. destruct Hexit as [_ Hz].
      apply Nat.eqb_eq in Hz. destruct l2; [|discriminate].
      cbn [outcome]. now apply merge_post_nil_l. }
    specialize (Hl2 eq_refl).
    apply (place_spec (merge_post R' l2 rb')).
    2:{ intros r g Hr. apply (merge_post_chunk_b R' l2 [y] rb'); auto.
        apply joins_one_l. exact Hhi. }
    destruct rb' as [|zb [|y' rb'']].
    { cbn in Hnb. lia. }
    { cbn [outcome]. apply merge_post_copy_b; auto.
      intros za Hza. apply Hlast; [now apply Hend2|]. now exists [y]. }
    set (rb' := zb :: y' :: rb'') in *.
    destruct l2 as [|x1 ra2]; [congruence|].
    destruct (proj1 (Forall_cons_iff _ _ _) Dl2) as [Dx1 Da2].
    destruct (Sorted_inv Sl2) as [Sa2 Hx1].
    eapply outcome_bind.
    { apply (gallop_left_rev_spec x1 rb'); auto. unfold rb'. discriminate. }
    intros k0' (Hk0' & Hlo' & Hhi'). cbn beta.
    set (k' := List.length rb' - k0') in *.
    assert (Hsplit' : rb' = (firstn k' rb' ++ skipn k' rb')%list)
      by (symmetry; apply firstn_skipn).
    assert (Dm1 : Forall D (firstn k' rb')) by now apply Forall_firstn_D.
    assert (Dm2 : Forall D (skipn k' rb')) by now apply Forall_skipn_D.
    assert (Hlen' : List.length rb'
                    = List.length (firstn k' rb') + List.length (skipn k' rb'))
      by (rewrite <- length_app, firstn_skipn; reflexivity).
    assert (Hkz' : k' = 0 -> skipn k' rb' = rb') by (intros ->; reflexivity).
    revert Hlo' Hhi' Hsplit' Dm1 Dm2 Hlen' Hkz'.
    generalize (firstn k' rb') as m1, (skipn k' rb') as m2.
    intros m1 m2 Hlo' Hhi' Hsplit' Dm1 Dm2 Hlen' Hkz'.
    assert (Sm2 : Sorted R' m2).
    { rewrite Hsplit' in Sb'. now apply Sorted_app_inv in Sb'. }
    assert (Hendm : forall z, ends_with m2 z -> ends_with rb z).
    { intros z Hz. apply (ends_with_app_r [y]). rewrite Hsplit'.
      now apply ends_with_app_r. }
    apply (place_all_spec (merge_post R' (x1 :: ra2) m2)).
    2:{ intros r g Hr. rewrite Hsplit' at 1.
        apply merge_post_chunk_b; auto; [now rewrite <- Hsplit'|].
        apply joins_cons_r. exact Hlo'. }
    assert (Hm2 : (0 <? k') && (List.length m2 =? 1) = false ->
                  (0 <? k') && (List.length m2 =? 0) = false ->
                  2 <= List.length m2).
    { intros Hc1 Hc0. destruct (Nat.ltb_spec 0 k') as [Hp|Hz]; cbn [andb] in *.
      - apply Nat.eqb_neq in Hc1, Hc0. lia.
      - rewrite Hkz' by lia. unfold rb'. cbn [List.length]. lia. }
    destruct ((0 <? k') && (List.length m2 =? 1)) eqn:Hexit1.
    { apply andb_prop in Hexit1. destruct Hexit1 as [_ Hone].
      apply Nat.eqb_eq in Hone. destruct (length_one _ Hone) as [zb' ->].
      cbn [outcome]. apply merge_post_copy_b; auto; try discriminate.
      intros za Hza. apply Hlast; [now apply Hend2|]. apply Hendm. now exists []. }
    destruct ((0 <? k') && (List.length m2 =? 0)) eqn:Hexit0.
    { apply andb_prop in Hexit0. destruct Hexit0 as [_ Hz].
      apply Nat.eqb_eq in Hz. destruct m2; [|discriminate].
      cbn [outcome]. now apply merge_post_nil_r. }
    specialize (Hm2 eq_refl eq_refl).
    apply (place_spec (merge_post R' ra2 m2)).
    2:{ intros r g Hr. apply (merge_post_chunk_a R' [x1] ra2 m2); auto.
        apply joins_one_l. intros u Hu. exact (ISLT_asym _ _ (Hhi' u Hu)). }
    destruct ra2 as [|x2 ra3].
    { cbn [outcome]. now apply merge_post_nil_l. }
    assert (Hrec : forall mode' mg'',
      outcome E (merge_post R' (x2 :: ra3) m2)
        (merge_hi_loop ISLT fuel mode' mg'' (x2 :: ra3) m2)).
    { intros mode' mg''. apply IH; auto; try discriminate.
      - unfold ra, rb, rb' in *. cbn [List.length] in *. lia.
      - intros za z Hza Hz. apply Hlast; [|now apply Hendm].
        apply Hend2. now apply (ends_with_app_r [x1]). }
    destruct ((MIN_GALLOP <=? k) || (MIN_GALLOP <=? k')); apply Hrec.
Qed.

Lemma merge_hi_spec (mg : nat) a b :
  Forall D a -> Forall D b -> a <> [] -> b <> [] -> Sorted R a -> Sorted R b ->
  (forall x y, starts_with a x -> starts_with b y -> ISLT y x = Ok true) ->
  (forall za zb, ends_with a za -> ends_with b zb -> ISLT zb za = Ok true) ->
  outcome E (merge_post R a b) (merge_hi ISLT mg a b).
Proof.
  intros Da Db Hna Hnb Sa Sb Hfirst Hlast. unfold merge_hi.
  apply (outcome_bind E (merge_post R' (rev a) (rev b))).
  2:{ intros [r g] Hr. cbn [outcome]. now apply merge_post_rev. }
  assert (Dra : Forall D (rev a)) by now apply Forall_rev.
  assert (Drb : Forall D (rev b)) by now apply Forall_rev.
  assert (Sra : Sorted R' (rev a)) by now apply Sorted_rev.
  assert (Srb : Sorted R' (rev b)) by now apply Sorted_rev.
  assert (Hfirst' : forall za zb, ends_with (rev a) za -> ends_with (rev b) zb ->
                                  R' za zb).
  { intros za zb Hza Hzb. apply ends_with_rev in Hza, Hzb.
    exact (ISLT_asym _ _ (Hfirst za zb Hza Hzb)). }
  assert (Hlast' : forall x y, starts_with (rev a) x -> starts_with (rev b) y ->
                               R' x y).
  { intros x y Hx Hy. apply starts_with_rev in Hx, Hy.
    exact (ISLT_asym _ _ (Hlast x y Hx Hy)). }
  assert (Hrb : rev b <> []).
  { intros H. apply (f_equal (@rev T)) in H. rewrite rev_involutive in H.
    cbn in H. congruence. }
  assert (Hra : rev a <> []).
  { intros H. apply (f_equal (@rev T)) in H. rewrite rev_involutive in H.
    cbn in H. congruence. }
  revert Dra Drb Sra Srb Hfirst' Hlast' Hra Hrb.
  generalize (rev a) as ra, (rev b) as rb.
  intros ra rb Dra Drb Sra Srb Hfirst' Hlast' Hra Hrb.
  destruct ra as [|x ra']; [congruence|].
  destruct (proj1 (Forall_cons_iff _ _ _) Dra) as [Dx Dra'].
  destruct (Sorted_inv Sra) as [Sra' Hx].
  apply (place_spec (merge_post R' ra' rb)).
  2:{ intros r g Hr. apply (merge_post_chunk_a R' [x] ra' rb); auto.
      apply joins_one_l. intros u Hu. apply Hlast'; [now exists ra' | exact Hu]. }
  destruct ra' as [|x' ra''].
  { destruct rb as [|y [|y' rb']]; cbn [outcome]; now apply merge_post_nil_l. }
  destruct rb as [|y [|y' rb']]; [congruence| |].
  - cbn [outcome]. apply merge_post_copy_b; auto; try discriminate.
    intros za Hza. apply Hfirst'; [|now exists []].
    now apply (ends_with_app_r [x]).
  - apply merge_hi_loop_spec; auto; cbn [List.length]; try lia; try discriminate.
    intros za zb Hza Hzb. apply Hfirst'; [|exact Hzb].
    now apply (ends_with_app_r [x]).
Qed.

Lemma merge_at_spec (mg : nat) a b :
  Forall D a -> Forall D b -> a <> [] -> b <> [] -> Sorted R a -> Sorted R b ->
  outcome E (fun rg : list T * nat =>
               Sorted R (fst rg) /\ Permutation (a ++ b) (fst rg))
    (merge_at ISLT mg a b).
Proof.
  intros Da Db Hna Hnb Sa Sb. unfold merge_at.
  destruct b as [|y b0]; [congruence|].
  set (b := y :: b0) in *.
  destruct (proj1 (Forall_cons_iff _ _ _) Db) as [Dy _].
  eapply outcome_bind.
  { apply (gallop_right_spec y a 0); auto. destruct a; [congruence|].
    cbn [List.length]. lia. }
  intros k (Hk & Hlo & Hhi). cbn beta zeta.
  assert (Hsplit : a = (firstn k a ++ skipn k a)%list)
    by (symmetry; apply firstn_skipn).
  assert (Dl1 : Forall D (firstn k a)) by now apply Forall_firstn_D.
  assert (Dl2 : Forall D (skipn k a)) by now apply Forall_skipn_D.
  revert Hlo Hhi Hsplit Dl1 Dl2.
  generalize (firstn k a) as l1, (skipn k a) as l2.
  intros l1 l2 Hlo Hhi Hsplit Dl1 Dl2.
  destruct (Sorted_app_inv R l1 l2 ltac:(now rewrite <- Hsplit)) as (Sl1 & Sl2 & Hj12).
  apply (place_all_spec
           (fun rg : list T * nat =>
              Sorted R (fst rg) /\ Permutation (l2 ++ b) (fst rg)
              /\ (forall u, starts_with (fst rg) u ->
                            starts_with l2 u \/ starts_with b u))).
  2:{ intros r g (Hs & Hp & Hh). cbn [fst] in *. split.
      - apply Sorted_app; auto. intros x u Hx Hu.
        destruct (Hh u Hu) as [H|H]; [exact (Hj12 x u Hx H)|].
        destruct H as [l' H]. injection H as <- _. exact (Hlo x Hx).
      - rewrite Hsplit, <- app_assoc. now apply Permutation_app_head. }
  destruct (rev l2) as [|z rl2] eqn:Hrev.
  { apply (f_equal (@rev T)) in Hrev. rewrite rev_involutive in Hrev.
    cbn in Hrev. subst l2. cbn [outcome fst]. auto. }
  assert (Hz : ends_with l2 z).
  { apply starts_with_rev. rewrite Hrev. now exists rl2. }
  assert (Dz : D z).
  { destruct Hz as [l' ->]. apply Forall_app in Dl2. destruct Dl2 as [_ Dl2].
    now inversion Dl2. }
  eapply outcome_bind.
  { apply (gallop_left_spec z b (List.length b - 1)); auto.
    unfold b. cbn [List.length]. lia. }
  intros nb (Hnb' & Hlo' & Hhi'). cbn beta zeta.
  assert (Hsplit' : b = (firstn nb b ++ skipn nb b)%list)
    by (symmetry; apply firstn_skipn).
  assert (Dm1 : Forall D (firstn nb b)) by now apply Forall_firstn_D.
  assert (Hm1 : nb <> 0 -> starts_with (firstn nb b) y).
  { intros H. destruct nb; [congruence|]. unfold b. cbn [firstn]. now eexists. }
  assert (Hm1' : nb <> 0 -> firstn nb b <> []).
  { intros H Hnil. destruct (Hm1 H) as [l' Hl']. congruence. }
  assert (Hm0 : nb = 0 -> firstn nb b = []) by (intros ->; reflexivity).
  revert Hlo' Hhi' Hsplit' Dm1 Hm1 Hm1' Hm0.
  generalize (firstn nb b) as m1, (skipn nb b) as m2.
  intros m1 m2 Hlo' Hhi' Hsplit' Dm1 Hm1 Hm1' Hm0.
  destruct (Sorted_app_inv R m1 m2 ltac:(now rewrite <- Hsplit')) as (Sm1 & Sm2 & Hjm).
  apply (outcome_bind E (merge_post R l2 m1)).
  - destruct (Nat.eqb_spec nb 0) as [Hzero|Hpos].
    + rewrite (Hm0 Hzero). cbn [outcome]. now apply merge_post_nil_r.
    + assert (Hl2 : l2 <> []) by (destruct Hz as [l' ->]; destruct l'; discriminate).
      assert (Hf : forall x v, starts_with l2 x -> starts_with m1 v ->
                                ISLT v x = Ok true).
      { intros x v Hx Hv. destruct (Hm1 Hpos) as [l' Hl'].
        destruct Hv as [l'' Hv]. rewrite Hv in Hl'. injection Hl' as -> _.
        exact (Hhi x Hx). }
      assert (Hl : forall za zb, ends_with l2 za -> ends_with m1 zb ->
                                 ISLT zb za = Ok true).
      { intros za zb Hza Hzb. rewrite (ends_with_unique _ _ _ Hza Hz).
        exact (Hlo' zb Hzb). }
      destruct (List.length l2 <=? nb).
      * apply merge_lo_spec; auto.
      * apply merge_hi_spec; auto.
  - intros [m g] (Hs & Hp & Hh & Ht). cbn [fst outcome] in *. repeat split.
    + apply Sorted_app; auto. intros u v Hu Hv.
      destruct (Ht u Hu) as [H|H]; [|exact (Hjm u v H Hv)].
      rewrite (ends_with_unique _ _ _ H Hz). exact (Hhi' v Hv).
    + rewrite Hsplit', app_assoc. now apply Permutation_app_tail.
    + intros u Hu. destruct (starts_with_app_inv _ _ _ Hu) as [H|[-> H]].
      * destruct (Hh u H) as [H'|H']; [now left|right].
        rewrite Hsplit'. now apply starts_with_app_l.
      * exfalso. apply Permutation_sym, Permutation_nil, app_eq_nil in Hp.
        destruct Hp as [-> _]. now apply ends_with_nil in Hz.
Qed.

(** *** The stack of runs *)

#[local] Abbreviation prun := (pending_run (T := T)).

Lemma run_elems_cons (r : prun) pending :
  run_elems (r :: pending) = (run_elems pending ++ elems r)%list.
Proof.
  unfold run_elems. cbn [map rev]. rewrite concat_app. cbn [List.concat].
  now rewrite app_nil_r.
Qed.

Lemma merge_top_spec (mg : nat) pending :
  Forall D (run_elems pending) -> runs_in_order ISLT pending ->
  outcome E (fun pg : list prun * nat =>
               runs_in_order ISLT (fst pg)
               /\ Permutation (run_elems pending) (run_elems (fst pg))
               /\ (2 <= List.length pending ->
                   S (List.length (fst pg)) = List.length pending)
               /\ List.length (fst pg) <= List.length pending)
    (merge_top ISLT mg pending).
Proof.
  intros Dp Hp. unfold merge_top.
  destruct pending as [|rb [|ra below]].
  - cbn. repeat split; auto. lia.
  - cbn [outcome fst List.length]. repeat split; auto. lia.
  - rewrite !run_elems_cons in Dp.
    apply Forall_app in Dp. destruct Dp as [Dp Db].
    apply Forall_app in Dp. destruct Dp as [Dbelow Da].
    inversion Hp as [|? ? [Sb Hb] Hp']; subst.
    inversion Hp' as [|? ? [Sa Ha] Hp'']; subst.
    eapply outcome_bind; [apply (merge_at_spec mg (elems ra) (elems rb)); auto|].
    intros [m g] [Sm Pm]. cbn [fst outcome List.length] in *. repeat split; try lia.
    + constructor; [|exact Hp'']. cbn [merged elems]. split; [exact Sm|].
      intros ->. apply Permutation_sym, Permutation_nil, app_eq_nil in Pm. destruct Pm. congruence.
    + rewrite !run_elems_cons. cbn [merged elems]. rewrite <- app_assoc.
      now apply Permutation_app_head.
Qed.

Lemma found_new_run_loop_spec fuel : forall (power' mg : nat) pending,
  Forall D (run_elems pending) -> runs_in_order ISLT pending ->
  outcome E (fun pg : list prun * nat =>
               runs_in_order ISLT (fst pg)
               /\ Permutation (run_elems pending) (run_elems (fst pg)))
    (found_new_run_loop ISLT fuel power' mg pending).
Proof.
  induction fuel as [|fuel IH]; intros power' mg pending Dp Hp.
  { cbn. auto. }
  cbn [found_new_run_loop]. destruct pending as [|top [|below rest]]; try (cbn; auto; fail).
  destruct (power' <? power below); [|cbn; auto].
  eapply outcome_bind; [apply merge_top_spec; auto|].
  intros [p g] (Hp' & Pp & _). cbn [fst] in *.
  eapply outcome_weaken.
  - apply IH; [|exact Hp']. exact (Forall_perm_D _ _ Pp Dp).
  - intros [p' g'] [Hp'' Pp']. cbn [fst] in *. split; [exact Hp''|].
    now rewrite Pp.
Qed.

Lemma found_new_run_spec (listlen n2 mg : nat) pending :
  Forall D (run_elems pending) -> runs_in_order ISLT pending ->
  outcome E (fun pg : list prun * nat =>
               runs_in_order ISLT (fst pg)
               /\ Permutation (run_elems pending) (run_elems (fst pg)))
    (found_new_run ISLT listlen n2 mg pending).
Proof.
  intros Dp Hp. unfold found_new_run. destruct pending as [|top below].
  { cbn. auto. }
  eapply outcome_bind; [apply found_new_run_loop_spec; auto|].
  intros [p g] [Hp' Pp]. cbn [fst] in *. destruct p as [|top' below'].
  { cbn. auto. }
  cbn [outcome fst]. inversion Hp' as [|? ? Ht Hb]; subst. split.
  - constructor; [exact Ht | exact Hb].
  - rewrite Pp. rewrite !run_elems_cons. reflexivity.
Qed.

Lemma merge_force_collapse_spec fuel : forall (mg : nat) pending,
  List.length pending <= S fuel ->
  Forall D (run_elems pending) -> runs_in_order ISLT pending ->
  outcome E (fun pg : list prun * nat =>
               runs_in_order ISLT (fst pg)
               /\ Permutation (run_elems pending) (run_elems (fst pg))
               /\ List.length (fst pg) <= 1)
    (merge_force_collapse ISLT fuel mg pending).
Proof.
  induction fuel as [|fuel IH]; intros mg pending Hlen Dp Hp.
  { cbn. auto. }
  cbn [merge_force_collapse].
  assert (Htop : 2 <= List.length pending ->
    outcome E (fun pg : list prun * nat =>
                 runs_in_order ISLT (fst pg)
                 /\ Permutation (run_elems pending) (run_elems (fst pg))
                 /\ List.length (fst pg) <= 1)
      (' (pending', mg') <- merge_top ISLT mg pending ;;
       merge_force_collapse ISLT fuel mg' pending')).
  { intros H2. eapply outcome_bind; [apply merge_top_spec; auto|].
    intros [p g] (Hp' & Pp & Hl & _). cbn [fst] in *. specialize (Hl H2).
    eapply outcome_weaken.
    - apply IH; [lia | exact (Forall_perm_D _ _ Pp Dp) | exact Hp'].
    - intros [p' g'] (Hp'' & Pp' & Hl'). cbn [fst] in *. repeat split; auto.
      now rewrite Pp. }
  destruct pending as [|c [|b [|a below]]].
  - cbn. auto.
  - cbn [outcome fst List.length]. auto.
  - apply Htop. cbn [List.length]. lia.
  - destruct (List.length (elems a) <? List.length (elems c));
      [|apply Htop; cbn [List.length]; lia].
    pose proof Dp as Dp'. rewrite !run_elems_cons in Dp'.
    apply Forall_app in Dp'. destruct Dp' as [Dp' Dc].
    apply Forall_app in Dp'. destruct Dp' as [Dp' Db].
    apply Forall_app in Dp'. destruct Dp' as [Dbelow Da].
    inversion Hp as [|? ? Hc Hp1]; subst. inversion Hp1 as [|? ? [Sb Hb] Hp2]; subst.
    inversion Hp2 as [|? ? [Sa Ha] Hp3]; subst.
    eapply outcome_bind; [apply (merge_at_spec mg (elems a) (elems b)); auto|].
    intros [m g] [Sm Pm]. cbn [fst] in *.
    assert (Pp : Permutation (run_elems (c :: b :: a :: below))
                   (run_elems (c :: merged a m :: below))).
    { rewrite !run_elems_cons. cbn [merged elems]. apply Permutation_app_tail.
      rewrite <- app_assoc. now apply Permutation_app_head. }
    eapply outcome_weaken.
    + apply IH; [cbn [List.length] in *; lia | exact (Forall_perm_D _ _ Pp Dp)|].
      constructor; [exact Hc|]. constructor; [|exact Hp3]. cbn [merged elems].
      split; [exact Sm|]. intros ->.
      apply Permutation_sym, Permutation_nil, app_eq_nil in Pm. destruct Pm. congruence.
    + intros [p' g'] (Hp'' & Pp' & Hl'). cbn [fst] in *. repeat split; auto.
      now rewrite Pp.
Qed.

Lemma firstn_more (n m : nat) l :
  firstn (n + m) l = (firstn n l ++ firstn m (skipn n l))%list.
Proof.
  revert l. induction n as [|n IH]; intros l; [reflexivity|].
  destruct l as [|x l]; cbn [Nat.add firstn skipn app].
  - now rewrite firstn_nil.
  - now rewrite IH.
Qed.

Lemma skipn_more (n m : nat) l : skipn (n + m) l = skipn m (skipn n l).
Proof.
  revert l. induction n as [|n IH]; intros l; [reflexivity|].
  destruct l as [|x l]; cbn [Nat.add skipn]; [now rewrite skipn_nil | apply IH].
Qed.

Lemma sort_runs_spec fuel : forall (listlen minrun lo mg : nat) pending rest,
  List.length rest <= fuel ->
  Forall D (run_elems pending) -> Forall D rest -> runs_in_order ISLT pending ->
  outcome E (fun pg : list prun * nat =>
               runs_in_order ISLT (fst pg)
               /\ Permutation (run_elems pending ++ rest) (run_elems (fst pg)))
    (sort_runs ISLT fuel listlen minrun lo mg pending rest).
Proof.
  induction fuel as [|fuel IH]; intros listlen minrun lo mg pending rest Hfuel Dp Dr Hp.
  { destruct rest; [|cbn in Hfuel; lia]. cbn. rewrite app_nil_r. auto. }
  cbn [sort_runs]. destruct rest as [|x0 rest0].
  { cbn. rewrite app_nil_r. auto. }
  set (rest := x0 :: rest0) in *.
  eapply outcome_bind; [apply (count_run_spec rest); [discriminate | exact Dr]|].
  intros [n d] (Hn & Sr). cbn [fst snd] in *.
  set (r0 := if d then rev (firstn n rest) else firstn n rest) in *.
  assert (Pr0 : Permutation (firstn n rest) r0).
  { unfold r0. destruct d; [apply Permutation_rev | reflexivity]. }
  assert (Dr0 : Forall D r0).
  { apply (Forall_perm_D _ _ Pr0). now apply Forall_firstn_D. }
  apply (outcome_bind E (fun rn : list T * nat =>
           Sorted R (fst rn) /\ Permutation (firstn (snd rn) rest) (fst rn)
           /\ 1 <= snd rn <= List.length rest)).
  - destruct (Nat.ltb_spec n minrun) as [Hshort|Hlong].
    + eapply outcome_bind.
      * apply (binarysort_spec (firstn (Nat.min minrun (List.length rest) - n)
                                  (skipn n rest)) r0); auto.
        apply Forall_firstn_D. now apply Forall_skipn_D.
      * intros r [Sr' Pr]. cbn [outcome fst snd]. repeat split; try lia; auto.
        rewrite <- Pr, <- Pr0.
        replace (Nat.min minrun (List.length rest))
          with (n + (Nat.min minrun (List.length rest) - n)) at 1 by lia.
        now rewrite firstn_more.
    + cbn [outcome fst snd]. repeat split; try lia; auto.
  - intros [r n'] (Sr' & Pr & Hn'). cbn [fst snd] in *.
    eapply outcome_bind; [apply found_new_run_spec; auto|].
    intros [p g] [Hp' Pp]. cbn [fst] in *.
    assert (Hne : r <> []).
    { intros ->. apply Permutation_sym, Permutation_nil in Pr.
      apply (f_equal (@List.length T)) in Pr. rewrite length_firstn in Pr.
      cbn [List.length] in Pr. lia. }
    eapply outcome_weaken.
    + apply IH.
      * rewrite length_skipn. unfold rest in *. cbn [List.length] in *. lia.
      * rewrite run_elems_cons. cbn [elems]. apply Forall_app. split.
        -- exact (Forall_perm_D _ _ Pp Dp).
        -- apply (Forall_perm_D _ _ Pr). now apply Forall_firstn_D.
      * now apply Forall_skipn_D.
      * constructor; [cbn [elems]; auto | exact Hp'].
    + intros [p' g'] [Hp'' Pp']. cbn [fst] in *. split; [exact Hp''|].
      rewrite <- Pp'. rewrite run_elems_cons. cbn [elems].
      rewrite <- (firstn_skipn n' rest) at 1.
      rewrite <- app_assoc. rewrite !app_assoc. apply Permutation_app_tail.
      now apply Permutation_app.
Qed.

(** **** The sort *)

Theorem list_sort_spec l : Forall D l ->
  outcome E (fun r => Sorted R r /\ Permutation l r) (list_sort ISLT l).
Proof.
  intros Dl. unfold list_sort. destruct (Nat.ltb_spec (List.length l) 2) as [Hs|Hl].
  { cbn. split; [|reflexivity]. destruct l as [|x [|y l]]; cbn in Hs; try lia;
      repeat constructor. }
  eapply outcome_bind.
  { apply (sort_runs_spec (List.length l)); auto; constructor. }
  intros [p g] [Hp Pp]. cbn [fst] in *. cbn [run_elems app] in Pp.
  change (run_elems []) with (@nil T) in Pp. cbn [app] in Pp.
  eapply outcome_bind.
  { apply (merge_force_collapse_spec (List.length p)); auto.
    exact (Forall_perm_D _ _ Pp Dl). }
  intros [p' g'] (Hp' & Pp' & Hl'). cbn [fst outcome] in *.
  fold (run_elems p'). split; [|now rewrite Pp].
  destruct p' as [|r [|]]; cbn [List.length] in Hl'; try lia.
  - constructor.
  - rewrite run_elems_cons. cbn. inversion Hp' as [|? ? [Sr _] _]; subst. exact Sr.
Qed.

Lemma merge_compute_minrun_loop_le fuel : forall n c : nat,
  c <= 1 -> 1 <= n -> merge_compute_minrun_loop fuel n c <= n + c.
Proof.
  induction fuel as [|fuel IH]; intros n c Hr Hn; cbn [merge_compute_minrun_loop];
    [lia|].
  destruct (Nat.leb_spec 64 n) as [Hbig|Hsmall]; [|lia].
  assert (Hbit : Nat.land n 1 <= 1).
  { assert (Hland : Nat.land n 1 = n mod 2) by exact (Nat.land_ones n 1).
    pose proof (Nat.mod_upper_bound n 2). lia. }
  assert (Hr' : Nat.lor c (Nat.land n 1) <= 1).
  { destruct c as [|[|]]; try lia.
    - now rewrite Nat.lor_0_l.
    - destruct (Nat.land n 1) as [|[|]]; try lia; reflexivity. }
  assert (Hhalf : n / 2 + 1 <= n).
  { pose proof (half_lt n ltac:(lia)). lia. }
  assert (Hpos : 1 <= n / 2).
  { apply Nat.div_le_lower_bound; lia. }
  specialize (IH (n / 2) _ Hr' Hpos). lia.
Qed.

Lemma merge_compute_minrun_le (n : nat) : 1 <= n -> merge_compute_minrun n <= n.
Proof.
  intros Hn. unfold merge_compute_minrun.
  pose proof (merge_compute_minrun_loop_le n n 0 ltac:(lia) Hn). lia.
Qed.

(** A list in order is one run, and no run is touched. *)
Theorem list_sort_fixed l : Sorted R l -> list_sort ISLT l = Ok l.
Proof.
  intros Sl. unfold list_sort. destruct (Nat.ltb_spec (List.length l) 2) as [Hs|Hl];
    [reflexivity|].
  destruct l as [|x l']; [cbn in Hl; lia|].
  set (l := x :: l') in *.
  assert (Hn : List.length l = S (List.length l')) by reflexivity.
  rewrite Hn at 1. cbn [sort_runs]. unfold l at 1.
  fold l. rewrite (count_run_sorted l ltac:(discriminate) Sl). cbn [bind].
  pose proof (merge_compute_minrun_le (List.length l) ltac:(lia)) as Hmin.
  destruct (Nat.ltb_spec (List.length l) (merge_compute_minrun (List.length l)));
    [lia|].
  cbn [bind found_new_run]. rewrite firstn_all, skipn_all.
  clear Hn Hl.
  destruct (List.length l') as [|n'];
    cbn [sort_runs bind List.length merge_force_collapse map rev app List.concat elems];
    now rewrite app_nil_r.
Qed.

End ListSortTheory.

(** ** Sorting by keys *)

Section SortTheory.
Context {A : Type}.
Implicit Types (x y : value * A) (l r s : list (value * A)).

Lemma key_lt_asym x y : key_lt x y = Ok true -> key_lt y x = Ok false.
Proof. apply py_lt_asym. Qed.

(** What the sort returns is in order, and a rearrangement of the
    list. *)
Lemma sort_returns l r :
  list_sort key_lt l = Ok r -> Sorted may_precede r /\ Permutation l r.
Proof.
  intros H.
  refine (outcome_ok (fun _ => True) _ _ _
            (list_sort_spec key_lt (fun _ => True) (fun _ => True) key_lt_asym
               (fun _ _ _ _ _ _ => I) l _) H).
  apply Forall_forall. intros; exact I.
Qed.

Lemma sort_perm l r : list_sort key_lt l = Ok r -> Permutation l r.
Proof. intros H. exact (proj2 (sort_returns l r H)). Qed.

Lemma sort_sorted l r : list_sort key_lt l = Ok r -> Sorted may_precede r.
Proof. intros H. exact (proj1 (sort_returns l r H)). Qed.

(** A list already in order is left as it is. *)
Lemma sort_fixed l : Sorted may_precede l -> list_sort key_lt l = Ok l.
Proof. exact (list_sort_fixed key_lt l). Qed.

Variable key : A -> result value.

Lemma decorate_keyed (xs : list A) ks :
  decorate key xs = Ok ks -> map snd ks = xs /\ keyed key ks.
Proof.
  revert ks. induction xs as [|x xs IH]; intros ks; cbn [decorate].
  - intros [= <-]. split; constructor.
  - destruct (key x) as [k|e] eqn:Hk; cbn [bind]; try discriminate.
    destruct (decorate key xs) as [r|e]; cbn [bind]; try discriminate.
    intros [= <-]. destruct (IH r eq_refl) as [Hm Hf].
    split; [cbn; now rewrite Hm | constructor; [exact Hk | exact Hf]].
Qed.


Lemma keyed_perm ks ks' : Permutation ks ks' -> keyed key ks -> keyed key ks'.
Proof. intros Hp. unfold keyed. now rewrite Hp. Qed.

End SortTheory.



(** ** Keys in a common total order *)

Lemma SFltb_false_trans (a b c : spec_float) :
  is_nan a = false -> is_nan b = false -> is_nan c = false ->
  SFltb b a = false -> SFltb c b = false -> SFltb c a = false.
Proof.
  unfold SFltb.
  destruct a as [s1|s1| |s1 m1 e1], b as [s2|s2| |s2 m2 e2],
           c as [s3|s3| |s3 m3 e3];
    cbn [is_nan SFcompare]; try discriminate; intros _ _ _;
    destruct s1, s2, s3; try congruence;
    change (Pos.compare_cont Eq) with Pos.compare;
    destruct (Z.compare_spec e2 e1), (Z.compare_spec e3 e2),
             (Z.compare_spec e3 e1);
    try congruence; try lia; subst;
    destruct (Pos.compare_spec m2 m1), (Pos.compare_spec m3 m2),
             (Pos.compare_spec m3 m1);
    cbn [CompOpp]; try congruence; try lia.
Qed.

Lemma ascii_compare_N (a b : ascii) :
  Ascii.compare a b = N.compare (N_of_ascii a) (N_of_ascii b).
Proof. reflexivity. Qed.

Lemma string_compare_lt_trans (s t u : string) :
  String.compare s t = Lt -> String.compare t u = Lt -> String.compare s u = Lt.
Proof.
  revert t u. induction s as [|a s IH]; intros [|b t] [|d u]; cbn [String.compare];
    try congruence.
  rewrite !ascii_compare_N.
  destruct (N.compare_spec (N_of_ascii a) (N_of_ascii b)) as [Hab|Hab|Hab],
           (N.compare_spec (N_of_ascii b) (N_of_ascii d)) as [Hbd|Hbd|Hbd];
    try discriminate; intros H1 H2.
  - rewrite Hab, Hbd, N.compare_refl. now apply (IH t u).
  - rewrite (proj2 (N.compare_lt_iff _ _)) by lia. reflexivity.
  - rewrite (proj2 (N.compare_lt_iff _ _)) by lia. reflexivity.
  - rewrite (proj2 (N.compare_lt_iff _ _)) by lia. reflexivity.
Qed.

Lemma string_compare_flip (s t : string) (c : comparison) :
  String.compare s t = c -> String.compare t s = CompOpp c.
Proof. intros <-. apply String.compare_antisym. Qed.

Lemma string_ltb_false_trans (a b c : string) :
  String.ltb b a = false -> String.ltb c b = false -> String.ltb c a = false.
Proof.
  unfold String.ltb. intros Hba Hcb.
  destruct (String.compare c a) eqn:Hca; try reflexivity. exfalso.
  destruct (String.compare b a) eqn:E1; try discriminate;
    destruct (String.compare c b) eqn:E2; try discriminate.
  - apply String.compare_eq_iff in E1, E2. subst.
    pose proof (string_compare_flip _ _ _ Hca) as Hflip.
    rewrite Hca in Hflip. discriminate.
  - apply String.compare_eq_iff in E1. subst. congruence.
  - apply String.compare_eq_iff in E2. subst. congruence.
  - apply string_compare_flip in E1, E2. cbn [CompOpp] in E1, E2.
    pose proof (string_compare_lt_trans a b c E1 E2) as Hac.
    apply string_compare_flip in Hac. cbn [CompOpp] in Hac. congruence.
Qed.

Lemma number_keys_total : total_family is_number_key.
Proof.
  split.
  - intros [ | | |f| | | ] [ | | |g| | | ]; cbn; try discriminate.
    intros _ _. eexists. reflexivity.
  - intros [ | | |f| | | ] [ | | |g| | | ] [ | | |h| | | ]; cbn [is_number_key];
      try discriminate.
    intros Hf Hg Hh. apply negb_true_iff in Hf, Hg, Hh.
    cbn [py_lt as_num]. unfold num_lt, num_compare.
    fold (SFltb g f) (SFltb h g) (SFltb h f).
    intros [= Hgf] [= Hhg]. f_equal.
    now apply (SFltb_false_trans f g h).
Qed.

Lemma text_keys_total : total_family is_text_key.
Proof.
  split.
  - intros [ | | | |s| | ] [ | | | |t| | ]; cbn; try discriminate.
    intros _ _. eexists. reflexivity.
  - intros [ | | | |s| | ] [ | | | |t| | ] [ | | | |u| | ]; cbn [is_text_key];
      try discriminate.
    intros _ _ _. cbn [py_lt]. intros [= Hts] [= Hut]. f_equal.
    now apply (string_ltb_false_trans s t u).
Qed.

(** ** The order of the sorted list *)

Lemma StronglySorted_snoc {A} (R : A -> A -> Prop) (l : list A) (x : A) :
  StronglySorted R l -> Forall (fun y => R y x) l -> StronglySorted R (l ++ [x]).
Proof.
  induction 1 as [|y l Hs IH Hy]; intros Hx; cbn.
  - repeat constructor.
  - inversion Hx as [|? ? Hyx Hlx]; subst. constructor.
    + apply IH. exact Hlx.
    + apply Forall_app. split; [exact Hy | repeat constructor; exact Hyx].
Qed.

Lemma StronglySorted_rev {A} (R : A -> A -> Prop) (l : list A) :
  StronglySorted R l -> StronglySorted (fun a b => R b a) (rev l).
Proof.
  induction 1 as [|x l Hs IH Hx]; cbn; [constructor|].
  apply StronglySorted_snoc; [exact IH|].
  apply Forall_rev. exact Hx.
Qed.

Section OrderedSort.
Context {A : Type}.
Variable P : value -> bool.
Hypothesis family : total_family P.
Implicit Types (x y : value * A) (l r s : list (value * A)).

(** Within a family no comparison raises, so the sort returns. *)
Lemma sort_total l : in_family P l -> exists s, list_sort key_lt l = Ok s.
Proof.
  intros Hl.
  assert (Hraise : forall x y e, P (fst x) = true -> P (fst y) = true ->
                                 key_lt x y = Raise e -> False).
  { intros x y e Hx Hy He.
    destruct (family_defined P family _ _ Hx Hy) as [c Hc].
    unfold key_lt in He. congruence. }
  pose proof (list_sort_spec key_lt (fun x => P (fst x) = true) (fun _ => False)
                key_lt_asym Hraise l Hl) as Hspec.
  destruct (list_sort key_lt l) as [s|e]; [now exists s | contradiction].
Qed.

(** Within a family, order between neighbours is order between all. *)
Lemma sorted_strongly l :
  in_family P l -> Sorted may_precede l -> StronglySorted may_precede l.
Proof.
  intros Hf Hs. induction Hs as [|x l Hs IH Hhd]; [constructor|].
  inversion Hf as [|? ? Hx Hl]; subst.
  specialize (IH Hl). constructor; [exact IH|].
  destruct Hhd as [|y l Hxy]; [constructor|].
  inversion IH as [|? ? _ Hy]; subst. inversion Hl as [|? ? Hpy Hl']; subst.
  constructor; [exact Hxy|].
  rewrite Forall_forall in Hy, Hl'. apply Forall_forall. intros z Hz.
  unfold may_precede in *.
  apply (family_transitive P family (fst x) (fst y) (fst z));
    auto.
Qed.

Variable key : A -> result value.

Lemma decorate_total (xs : list A) :
  Forall (fun a => exists k, key a = Ok k /\ P k = true) xs ->
  exists ks, decorate key xs = Ok ks /\ in_family P ks.
Proof.
  induction 1 as [|a xs (k & Hk & HP) _ (ks & Hks & Hf)]; cbn [decorate].
  - exists []. split; [reflexivity | constructor].
  - rewrite Hk, Hks. cbn [bind]. eexists. split; [reflexivity|].
    constructor; [exact HP | exact Hf].
Qed.

Lemma keyed_order_map (reverse : bool) s :
  keyed key s ->
  StronglySorted
    (fun p q => if reverse then may_precede q p else may_precede p q) s ->
  StronglySorted (key_order key reverse) (map snd s).
Proof.
  intros Hk Hs. induction Hs as [|p s Hs IH Hp]; cbn [map]; [constructor|].
  inversion Hk as [|? ? Hkp Hks]; subst.
  constructor; [apply IH; exact Hks|].
  apply Forall_map. rewrite Forall_forall in *.
  intros q Hq. exists (fst p), (fst q).
  split; [exact Hkp|]. split; [apply Hks; exact Hq|].
  specialize (Hp q Hq). destruct reverse; exact Hp.
Qed.

(** On keys of one family [sorted] returns, and what it returns is a
    rearrangement of its input in the chosen order. *)
Lemma sorted_in_order (reverse : bool) (xs : list A) :
  Forall (fun a => exists k, key a = Ok k /\ P k = true) xs ->
  exists ys,
    sorted key reverse xs = Ok ys
    /\ Permutation xs ys
    /\ StronglySorted (key_order key reverse) ys.
Proof.
  intros Hxs. destruct (decorate_total xs Hxs) as (ks & Hd & Hf).
  destruct (decorate_keyed key _ _ Hd) as [Hmap Hk].
  assert (Hin : in_family P (if reverse then rev ks else ks)).
  { destruct reverse; [|exact Hf]. unfold in_family.
    rewrite <- (Permutation_rev ks). exact Hf. }
  destruct (sort_total _ Hin) as [s Hs].
  pose proof (sort_perm _ _ Hs) as Hperm.
  assert (Hks : Permutation ks s).
  { rewrite <- Hperm. destruct reverse; [apply Permutation_rev | reflexivity]. }
  assert (Hss : StronglySorted may_precede s).
  { apply sorted_strongly; [|exact (sort_sorted _ _ Hs)].
    unfold in_family. rewrite <- Hperm. exact Hin. }
  exists (map snd (if reverse then rev s else s)).
  unfold sorted. rewrite Hd. cbn [bind]. rewrite Hs. cbn [bind].
  split; [reflexivity|]. split.
  - rewrite <- Hmap. apply Permutation_map. rewrite Hks.
    destruct reverse; [apply Permutation_rev | reflexivity].
  - apply keyed_order_map.
    + apply (keyed_perm key s); [|apply (keyed_perm key ks _ Hks Hk)].
      destruct reverse; [apply Permutation_rev | reflexivity].
    + destruct reverse; [apply StronglySorted_rev|]; exact Hss.
Qed.

End OrderedSort.

(* ================================================================== *)
(** * Properties of the sort key *)
(* ================================================================== *)

Lemma remove_char_filter (c : ascii) (s : string) :
  list_ascii_of_string (remove_char c s)
  = filter (fun a => negb (Ascii.eqb a c)) (list_ascii_of_string s).
Proof.
  induction s as [|a s IH]; cbn [remove_char list_ascii_of_string filter].
  - reflexivity.
  - destruct (Ascii.eqb a c); cbn [negb list_ascii_of_string]; now rewrite IH.
Qed.

Lemma stripped_filter (s : string) :
  list_ascii_of_string (stripped s)
  = filter (fun a => negb (Ascii.eqb a "$" || Ascii.eqb a "%"))
      (list_ascii_of_string s).
Proof.
  unfold stripped. rewrite !remove_char_filter.
  induction (list_ascii_of_string s) as [|a l IH]; cbn [filter]; [reflexivity|].
  destruct (Ascii.eqb a "$"); cbn [negb orb filter]; [exact IH|].
  destruct (Ascii.eqb a "%"); cbn [negb]; now rewrite IH.
Qed.

Section SortKeyProperties.
Context {B : Builtins}.

Lemma get_sort_key_field (sort_by : string) (contract : dict) :
  get_sort_key (VStr sort_by) (VDict contract)
  = let value :=
      match sort_field sort_by contract with
      | VStr s => VStr (stripped s)
      | v => v
      end in
    match py_float value with
    | Ok f => Ok (VFloat f)
    | Raise e => if is_value_or_type_error e then Ok value else Raise e
    end.
Proof.
  unfold get_sort_key, sort_field. cbn [get_any get bind].
  destruct (lookup sort_by contract) as [[]|]; reflexivity.
Qed.

(** C5 (as the code has it).  The key of a contract under a sort field:
    a string value loses every '$' and '%' and is parsed as a float; if
    the parse fails the key is that stripped string, not the field's
    original text; a value that is neither number nor string ([None], a
    list, an object) is its own key; a float is its own key and an
    integer that converts is its float.  Two string keys compare as
    strings, lexicographically. *)
Theorem get_sort_key_cases (sort_by : string) (contract : dict) :
  let value := sort_field sort_by contract in
  let key := get_sort_key (VStr sort_by) (VDict contract) in
  (forall s, value = VStr s ->
     list_ascii_of_string (stripped s)
     = filter (fun a => negb (Ascii.eqb a "$" || Ascii.eqb a "%"))
         (list_ascii_of_string s)
     /\ key = Ok (match float_of_str (stripped s) with
                  | Some f => VFloat f
                  | None => VStr (stripped s)
                  end))
  /\ (value = VNone \/ (exists l, value = VList l) \/ (exists d, value = VDict d) ->
      key = Ok value)
  /\ (forall f, value = VFloat f -> key = Ok (VFloat f))
  /\ (forall z f, value = VInt z -> float_of_int z = Ok f -> key = Ok (VFloat f))
  /\ (forall a b, py_lt (VStr a) (VStr b) = Ok (String.ltb a b)).
Proof.
  intros value key. subst value key. rewrite get_sort_key_field.
  split; [|split; [|split; [|split]]].
  - intros s Hs. split; [apply stripped_filter|].
    rewrite Hs. cbn [py_float].
    destruct (float_of_str (stripped s)); reflexivity.
  - intros [-> | [[l ->] | [d ->]]]; reflexivity.
  - intros f ->. reflexivity.
  - intros z f -> Hz. cbn [py_float]. rewrite Hz. reflexivity.
  - reflexivity.
Qed.

End SortKeyProperties.

(** A strike quoted with its dollar sign. *)
Lemma get_sort_key_cases_witness :
  get_sort_key (B := CPython.builtins) (VStr "strike")
    (VDict [("contractID", VStr "IBM240119C00095000"); ("strike", VStr "$95.00")])
  = Ok (VFloat (S754_finite false 6685030696878080 (-46))).
Proof.
  exact (proj2 (proj1 (get_sort_key_cases (B := CPython.builtins) "strike"
                         [("contractID", VStr "IBM240119C00095000");
                          ("strike", VStr "$95.00")])
                      "$95.00" eq_refl)).
Defined.

(** C5, refuted as stated: when the parse fails the key is the stripped
    string, not the raw value of the field. *)
Lemma get_sort_key_not_raw :
  sort_field "strike" [("strike", VStr "$abc")] = VStr "$abc"
  /\ get_sort_key (B := CPython.builtins) (VStr "strike")
       (VDict [("strike", VStr "$abc")])
     = Ok (VStr "abc")
  /\ get_sort_key (B := CPython.builtins) (VStr "strike")
       (VDict [("strike", VStr "$abc")])
     <> Ok (VStr "$abc").
Proof. split; [reflexivity | split; [reflexivity | discriminate]]. Qed.

(** ** A contract without the sort field *)

Lemma StronglySorted_before {A} (R : A -> A -> Prop) (before after : list A)
  (x : A) :
  StronglySorted R (before ++ x :: after)%list -> Forall (fun a => R a x) before.
Proof.
  induction before as [|a before IH]; cbn; intros Hs; [constructor|].
  inversion Hs as [|? ? Hs' Ha]; subst. constructor.
  - rewrite Forall_forall in Ha. apply Ha, in_elt.
  - apply IH. exact Hs'.
Qed.

Section MissingFieldProperties.
Context {B : Builtins}.

(** C10.  A contract without the sort field has the key [0.0], the key
    of a contract whose field is the integer [0]; and in the ascending
    order of contracts with number keys it stands before every contract
    whose key is above [0.0]: whatever precedes it has a key that is not
    above [0.0]. *)
Theorem missing_sort_field_sorts_as_zero (sort_by : string) (contract : dict) :
  lookup sort_by contract = None ->
  sort_field sort_by contract = VInt 0
  /\ get_sort_key (VStr sort_by) (VDict contract) = Ok (VFloat zero)
  /\ get_sort_key (VStr sort_by) (VDict contract)
     = get_sort_key (VStr sort_by) (VDict ((sort_by, VInt 0) :: contract))
  /\ (forall chain : list value,
        In (VDict contract) chain ->
        Forall (fun c => exists k, get_sort_key (VStr sort_by) c = Ok k
                                   /\ is_number_key k = true) chain ->
        exists before after,
          sorted (get_sort_key (VStr sort_by)) false chain
            = Ok (before ++ VDict contract :: after)%list
          /\ Forall (fun c => exists f,
                       get_sort_key (VStr sort_by) c = Ok (VFloat f)
                       /\ SFltb zero f = false) before).
Proof.
  intros Habsent.
  assert (Hfield : sort_field sort_by contract = VInt 0).
  { unfold sort_field. now rewrite Habsent. }
  assert (Hkey : get_sort_key (VStr sort_by) (VDict contract) = Ok (VFloat zero)).
  { rewrite get_sort_key_field, Hfield. reflexivity. }
  split; [exact Hfield|]. split; [exact Hkey|]. split.
  - rewrite Hkey, get_sort_key_field. unfold sort_field. cbn [lookup].
    rewrite String.eqb_refl. reflexivity.
  - intros chain Hin Hkeys.
    destruct (sorted_in_order is_number_key number_keys_total
                (get_sort_key (VStr sort_by)) false chain Hkeys)
      as (sorted_chain & Hsorted & Hperm & Horder).
    destruct (in_split _ _ (Permutation_in _ Hperm Hin)) as (before & after & ->).
    exists before, after. split; [exact Hsorted|].
    pose proof (StronglySorted_before _ _ _ _ Horder) as Hbefore.
    rewrite Forall_forall in Hbefore, Hkeys. apply Forall_forall.
    intros c Hc.
    destruct (Hbefore c Hc) as (kc & k & Hkc & Hk & Hlt). cbn in Hlt.
    rewrite Hkey in Hk. injection Hk as <-.
    assert (Hin' : In c chain).
    { apply (Permutation_in _ (Permutation_sym Hperm)).
      apply in_or_app. left. exact Hc. }
    destruct (Hkeys c Hin') as (k' & Hk' & Hnum).
    rewrite Hkc in Hk'. injection Hk' as <-.
    destruct kc as [ | | |f| | | ]; try discriminate.
    exists f. split; [exact Hkc|].
    cbn [py_lt as_num] in Hlt. injection Hlt as Hlt. exact Hlt.
Qed.

End MissingFieldProperties.

(** Two contracts with strikes, and one without. *)
Lemma missing_sort_field_sorts_as_zero_witness :
  get_sort_key (B := CPython.builtins) (VStr "strike")
    (VDict [("contractID", VStr "B")])
  = Ok (VFloat zero)
  /\ exists before after,
       sorted (get_sort_key (B := CPython.builtins) (VStr "strike")) false
         [VDict [("contractID", VStr "A"); ("strike", VStr "105.00")];
          VDict [("contractID", VStr "B")];
          VDict [("contractID", VStr "C"); ("strike", VStr "95.00")]]
       = Ok (before ++ VDict [("contractID", VStr "B")] :: after)%list
       /\ Forall (fun c => exists f,
                    get_sort_key (B := CPython.builtins) (VStr "strike") c
                    = Ok (VFloat f)
                    /\ SFltb zero f = false) before.
Proof.
  destruct (missing_sort_field_sorts_as_zero (B := CPython.builtins)
              "strike" [("contractID", VStr "B")] eq_refl)
    as (_ & Hkey & _ & Hsorted).
  split; [exact Hkey|]. apply Hsorted.
  - cbn. tauto.
  - repeat constructor; eexists; split; reflexivity.
Defined.

(* ================================================================== *)
(** * Properties of the options report *)
(* ================================================================== *)

Section OptionsProperties.
Context {B : Builtins}.

Lemma contract_lines_object (contract : dict) :
  contract_lines (VDict contract) = Ok (contract_text contract).
Proof. unfold contract_lines. rewrite !field_dict. reflexivity. Qed.

Lemma for_each_contract_lines (contracts : list dict) :
  for_each contract_lines (map VDict contracts) = Ok (map contract_text contracts).
Proof.
  induction contracts as [|c contracts IH]; cbn [map for_each]; [reflexivity|].
  rewrite contract_lines_object, IH. reflexivity.
Qed.

Lemma py_eq_int (a b : Z) : py_eq (VInt a) (VInt b) = Z.eqb a b.
Proof.
  cbn. unfold num_eq. cbn. destruct (Z.compare_spec a b) as [->|Hlt|Hgt].
  - now rewrite Z.eqb_refl.
  - symmetry. apply Z.eqb_neq. lia.
  - symmetry. apply Z.eqb_neq. lia.
Qed.

Lemma int_gt_int (n z : Z) : int_gt n (VInt z) = Ok (Z.ltb z n).
Proof. reflexivity. Qed.

Lemma keys_in_family (P : value -> bool) (sort_by : string) (contracts : list dict) :
  keys_in P sort_by contracts = true ->
  Forall (fun c => exists k, get_sort_key (VStr sort_by) c = Ok k /\ P k = true)
    (map VDict contracts).
Proof.
  unfold keys_in. rewrite forallb_forall. intros Hall.
  apply Forall_map, Forall_forall. intros c Hc. specialize (Hall c Hc).
  destruct (get_sort_key (VStr sort_by) (VDict c)) as [k|e]; [|discriminate].
  exists k. split; [reflexivity | exact Hall].
Qed.


End OptionsProperties.

Section OptionsLimit.
Context {B : Builtins}.


End OptionsLimit.



(* ================================================================== *)
(** * Worked examples *)
(* ================================================================== *)

Section Examples.
Import Fixtures.
Existing Instance CPython.builtins.

Example empty_options_list :
  format_historical_options (VDict (options_payload [])) (VInt 10)
    (VStr "strike") (VStr "asc")
  = "No options data available in the response".
Proof. reflexivity. Qed.

Example strikes_ascending :
  sorted (get_sort_key (VStr "strike")) false (map VDict three_strikes)
  = Ok (map VDict [contract "B" "95.00"; contract "C" "100.00";
                   contract "A" "105.00"]).
Proof. reflexivity. Qed.

Example strikes_descending :
  sorted (get_sort_key (VStr "strike")) true (map VDict three_strikes)
  = Ok (map VDict [contract "A" "105.00"; contract "C" "100.00";
                   contract "B" "95.00"]).
Proof. reflexivity. Qed.

(** Equal keys keep their original order in both directions. *)
Example equal_keys_keep_their_order :
  sorted (get_sort_key (VStr "strike")) false
    (map VDict [contract "A" "100"; contract "B" "95"; contract "C" "100.0"])
  = Ok (map VDict [contract "B" "95"; contract "A" "100"; contract "C" "100.0"])
  /\ sorted (get_sort_key (VStr "strike")) true
       (map VDict [contract "A" "100"; contract "B" "95"; contract "C" "100.0"])
     = Ok (map VDict [contract "A" "100"; contract "C" "100.0"; contract "B" "95"]).
Proof. split; reflexivity. Qed.

(** A key that is NaN is below nothing and above nothing; the chain
    comes out as CPython leaves it, in both directions. *)
Example nan_key_ascending :
  sorted (get_sort_key (VStr "strike")) false (map VDict nan_strikes)
  = Ok (map VDict [contract "B" "1.0"; contract "D" "2.0"; contract "A" "3.0";
                   contract "C" "nan"]).
Proof. reflexivity. Qed.

Example nan_key_descending :
  sorted (get_sort_key (VStr "strike")) true (map VDict nan_strikes)
  = Ok (map VDict [contract "A" "3.0"; contract "B" "1.0"; contract "C" "nan";
                   contract "D" "2.0"]).
Proof. reflexivity. Qed.

(** The first comparison of [count_run] is the second key against the
    first. *)
Example text_key_after_number :
  sorted (get_sort_key (VStr "strike")) false
    [VDict [("strike", VInt 0)]; VDict [("strike", VStr "abc")];
     VDict [("strike", VStr "1.0")]]
  = Raise (TypeError "<" [TStr; TFloat]).
Proof. reflexivity. Qed.

Example quote_report :
  format_quote
    (VDict [("Global Quote",
             VDict [("01. symbol", VStr "IBM"); ("05. price", VStr "190.10");
                    ("06. volume", VStr "3000000"); ("09. change", VStr "1.20");
                    ("10. change percent", VStr "0.63%")])])
  = "Price: $190.10" ++ nl ++ "Change: $1.20 (0.63%)" ++ nl
    ++ "Volume: 3000000" ++ nl ++ "High: $N/A" ++ nl ++ "Low: $N/A" ++ nl
    ++ "---".
Proof. reflexivity. Qed.

Example rate_limited :
  make_alpha_request (W := answering (Response 429 "slow down" (Ok (VDict []))))
    "GLOBAL_QUOTE" (VStr "IBM") None
  = VStr "Rate limit exceeded. Error details: slow down".
Proof. reflexivity. Qed.

Example unknown_tool :
  handle_call_tool (W := offline) (C := no_analysis)
    "get-weather" (Some [("symbol", VStr "IBM")])
  = Ok [{| type := "text"; text := "Unknown tool: get-weather" |}].
Proof. reflexivity. Qed.

Example quote_when_offline :
  handle_call_tool (W := offline) (C := no_analysis)
    "get-stock-quote" (Some [("symbol", VStr "ibm")])
  = Ok [{| type := "text";
           text := "Error: Failed to connect to Alpha Vantage API. Please check your internet connection." |}].
Proof. reflexivity. Qed.

End Examples.

(* ================================================================== *)
(** * Further properties of the request gateway *)
(* ================================================================== *)

Section GatewayOutcomes.
Context {B : Builtins} {W : World}.

(** X1.  A response with a status outside 200..299 is reported by a
    string, and its body is never parsed, whatever it holds: 429 and
    403 have their own messages, built from the response text alone;
    every other such status gives the HTTP error message, made of the
    text that [httpx] gives the status error of that response to that
    request, and of the response text. *)
Theorem non_success_status_reports_text
  function symbol extra status_code text (json : result value) :
  client_get ALPHA_VANTAGE_BASE (request_params function symbol extra)
    = Response status_code text json ->
  is_success status_code = false ->
  make_alpha_request function symbol extra
  = VStr (if (status_code =? 429)%Z
          then "Rate limit exceeded. Error details: " ++ text
          else if (status_code =? 403)%Z
          then "API key invalid or expired. Error details: " ++ text
          else "HTTP error occurred: "
               ++ status_error ALPHA_VANTAGE_BASE
                    (request_params function symbol extra)
               ++ " - Response: " ++ text).
Proof.
  intros Hget Hs. unfold make_alpha_request. rewrite Hget, Hs.
  destruct (status_code =? 429)%Z; [reflexivity|].
  destruct (status_code =? 403)%Z; reflexivity.
Qed.

(** What the checks on a parsed body can return: an error string or the
    body itself. *)
Lemma check_body_outcome (data r : value) :
  check_body data = Ok r -> r = data \/ exists t, r = VStr t.
Proof.
  unfold check_body.
  destruct (str_in "Error Message" data) as [[|]|e]; cbn [bind]; try discriminate.
  - destruct (subscript data "Error Message"); cbn [bind]; try discriminate.
    intros [= <-]. right. eexists. reflexivity.
  - destruct (str_in "Note" data) as [[|]|e]; cbn [bind]; try discriminate.
    + destruct (subscript data "Note") as [note|e]; cbn [bind]; try discriminate.
      destruct (str_in "API call frequency" note) as [[|]|e]; cbn [bind];
        try discriminate.
      * intros [= <-]. right. eexists. reflexivity.
      * intros [= <-]. left. reflexivity.
    + intros [= <-]. left. reflexivity.
Qed.

(** X2.  The gateway returns something other than a string only when
    the request was answered with a 2xx status and a body that parsed,
    and what it returns then is that body: every transport failure,
    every other status, every undecodable body and every provider error
    comes back as a string. *)
Theorem structured_only_from_success function symbol extra (r : value) :
  make_alpha_request function symbol extra = r ->
  structured r ->
  exists status_code text,
    client_get ALPHA_VANTAGE_BASE (request_params function symbol extra)
      = Response status_code text (Ok r)
    /\ is_success status_code = true
    /\ check_body r = Ok r.
Proof.
  unfold make_alpha_request, structured. intros Hr Hstruct.
  destruct (client_get ALPHA_VANTAGE_BASE (request_params function symbol extra))
    as [ | |e|status_code text json];
    try (exfalso; eapply Hstruct; symmetry; exact Hr).
  destruct (status_code =? 429)%Z;
    [exfalso; eapply Hstruct; symmetry; exact Hr|].
  destruct (status_code =? 403)%Z;
    [exfalso; eapply Hstruct; symmetry; exact Hr|].
  destruct (is_success status_code) eqn:Hs; cbn [negb] in Hr;
    [|exfalso; eapply Hstruct; symmetry; exact Hr].
  destruct json as [data|e]; cbn [bind] in Hr;
    [|exfalso; eapply Hstruct; symmetry; exact Hr].
  destruct (check_body data) as [r'|e] eqn:Hc;
    [|exfalso; eapply Hstruct; symmetry; exact Hr].
  subst r'. destruct (check_body_outcome _ _ Hc) as [-> | [t ->]].
  - exists status_code, text. auto.
  - exfalso. eapply Hstruct. reflexivity.
Qed.

(** X3.  A 2xx body that is an object with no "Error Message" and no
    frequency note is returned as it is: this covers a body without
    "Note" and a body whose "Note" is a text that does not mention "API
    call frequency". *)
Theorem clean_body_passes_through
  function symbol extra status_code text (d : dict) :
  client_get ALPHA_VANTAGE_BASE (request_params function symbol extra)
    = Response status_code text (Ok (VDict d)) ->
  is_success status_code = true ->
  lookup "Error Message" d = None ->
  lookup "Note" d = None
  \/ (exists note, lookup "Note" d = Some (VStr note)
                   /\ contains "API call frequency" note = false) ->
  make_alpha_request function symbol extra = VDict d.
Proof.
  intros Hget Hs Herr Hnote.
  rewrite (make_alpha_request_success _ _ _ _ _ _ Hget Hs).
  unfold check_body. cbn [str_in bind]. unfold has_key. rewrite Herr.
  destruct Hnote as [Hnone | (note & Hn & Hc)].
  - rewrite Hnone. reflexivity.
  - rewrite Hn. cbn [subscript bind]. rewrite Hn. cbn [str_in bind].
    rewrite Hc. reflexivity.
Qed.

(** X4.  A 2xx answer whose body cannot be searched for the error field
    is reported as an unexpected error: a body that does not decode, and
    a body that decodes to null, a boolean or a number. *)
Theorem unsearchable_body_is_unexpected
  function symbol extra status_code text (json : result value) :
  client_get ALPHA_VANTAGE_BASE (request_params function symbol extra)
    = Response status_code text json ->
  is_success status_code = true ->
  (forall e, json = Raise e ->
     make_alpha_request function symbol extra
     = VStr ("Unexpected error occurred: " ++ exn_message e))
  /\ (forall data, json = Ok data ->
        match data with
        | VNone | VBool _ | VInt _ | VFloat _ => True
        | _ => False
        end ->
        make_alpha_request function symbol extra
        = VStr ("Unexpected error occurred: "
                ++ exn_message (TypeError "in" [type_of data]))).
Proof.
  intros Hget Hs.
  destruct (success_is_not_429_403 _ Hs) as [H429 H403].
  split.
  - intros e ->. unfold make_alpha_request. rewrite Hget, H429, H403, Hs.
    reflexivity.
  - intros data -> Hdata.
    rewrite (make_alpha_request_success _ _ _ _ _ _ Hget Hs).
    destruct data; try contradiction; reflexivity.
Qed.

End GatewayOutcomes.

(** ** The shape of the query parameters *)

Lemma has_key_in (k : string) (d : dict) :
  has_key k d = true <-> In k (keys d).
Proof.
  unfold has_key.
  induction d as [|[k1 v1] d IH]; cbn [lookup keys map fst In].
  - split; [discriminate | contradiction].
  - destruct (String.eqb k k1) eqn:E.
    + apply String.eqb_eq in E. subst. split; auto.
    + apply String.eqb_neq in E. rewrite IH. split; [auto|].
      intros [Heq | Hin]; [congruence | exact Hin].
Qed.

Lemma has_key_dict_set (k k' : string) (v : value) (d : dict) :
  has_key k (dict_set k' v d) = String.eqb k k' || has_key k d.
Proof.
  unfold has_key. rewrite lookup_dict_set.
  destruct (String.eqb k k'); reflexivity.
Qed.

Lemma keys_dict_set (k : string) (v : value) (d : dict) :
  keys (dict_set k v d) = if has_key k d then keys d else (keys d ++ [k])%list.
Proof.
  unfold has_key.
  induction d as [|[k1 v1] d IH]; cbn [dict_set lookup keys map fst app].
  - reflexivity.
  - destruct (String.eqb k k1) eqn:E; cbn [keys map fst].
    + apply String.eqb_eq in E. subst. reflexivity.
    + fold (keys (dict_set k v d)) (keys d). rewrite IH.
      destruct (lookup k d); reflexivity.
Qed.

Lemma keys_dict_update (other : dict) :
  dict_wf other ->
  forall d : dict,
    keys (dict_update d other) = (keys d ++ new_keys d other)%list.
Proof.
  unfold dict_update, dict_wf, new_keys.
  induction other as [|[k v] other IH]; intros Hwf d; cbn [fold_left keys map fst filter].
  - now rewrite app_nil_r.
  - cbn [keys map fst] in Hwf. inversion Hwf as [|? ? Hnotin Hwf']; subst.
    fold (keys other) in *. rewrite (IH Hwf'). cbn [fst snd].
    rewrite keys_dict_set.
    assert (Hsame : filter (fun k' => negb (has_key k' (dict_set k v d))) (keys other)
                    = filter (fun k' => negb (has_key k' d)) (keys other)).
    { apply filter_ext_in. intros k' Hk'. rewrite has_key_dict_set.
      destruct (String.eqb k' k) eqn:E; [|reflexivity].
      apply String.eqb_eq in E. subst. contradiction. }
    rewrite Hsame. destruct (has_key k d); cbn [negb].
    + reflexivity.
    + now rewrite <- app_assoc.
Qed.

Section ParamsShape.
Context {W : World}.

(** X5.  With extra parameters of distinct names, the query parameters
    are "function", "symbol", "apikey" in this order, followed by the
    extra parameters of other names in their own order; no name occurs
    twice. *)
Theorem request_params_keys function symbol (extra : dict) :
  dict_wf extra ->
  keys (request_params function symbol (Some extra))
  = (["function"; "symbol"; "apikey"]
     ++ new_keys (base_params function symbol) extra)%list
  /\ dict_wf (request_params function symbol (Some extra)).
Proof.
  intros Hwf.
  assert (Hkeys : keys (request_params function symbol (Some extra))
                  = (["function"; "symbol"; "apikey"]
                     ++ new_keys (base_params function symbol) extra)%list).
  { unfold request_params. destruct extra as [|kv extra]; cbn [truthy].
    - reflexivity.
    - fold (base_params function symbol).
      rewrite (keys_dict_update _ Hwf). reflexivity. }
  split; [exact Hkeys|].
  unfold dict_wf. rewrite Hkeys.
  assert (Hnew : NoDup (new_keys (base_params function symbol) extra))
    by (apply NoDup_filter; exact Hwf).
  assert (Hout : forall k, In k (new_keys (base_params function symbol) extra) ->
                           has_key k (base_params function symbol) = false).
  { intros k Hk. unfold new_keys in Hk. apply filter_In in Hk as [_ Hk].
    now apply negb_true_iff in Hk. }
  assert (Hfresh : forall k, In k ["function"; "symbol"; "apikey"] ->
                    ~ In k (new_keys (base_params function symbol) extra)).
  { intros k Hk Hin. specialize (Hout k Hin).
    cbn in Hk. destruct Hk as [<- | [<- | [<- | []]]]; discriminate. }
  cbn [app]. repeat constructor; try exact Hnew; cbn [In]; intros Hin;
    repeat (destruct Hin as [Hin | Hin]; [discriminate|]);
    eapply Hfresh; try exact Hin; cbn; tauto.
Qed.

End ParamsShape.

(* ================================================================== *)
(** * Further properties of the formatters *)
(* ================================================================== *)

Section ReportCases.
Context {B : Builtins}.

(** X6.  [format_quote] on an object: without "Global Quote", or with
    one that is empty or null, the no-data message; with a non-empty
    quote object, the fixed layout, each missing field shown as "N/A". *)
Theorem format_quote_cases (d : dict) :
  (lookup "Global Quote" d = None
   \/ (exists v, lookup "Global Quote" d = Some v /\ truthy v = false) ->
   format_quote (VDict d) = "No quote data available in the response")
  /\ (forall q, lookup "Global Quote" d = Some (VDict q) -> q <> [] ->
        format_quote (VDict d) = quote_layout q).
Proof.
  unfold format_quote, format_quote_body. cbn [get bind]. split.
  - intros [-> | (v & -> & Hv)]; [reflexivity|]. rewrite Hv. reflexivity.
  - intros q -> Hq. destruct q as [|kv q]; [contradiction|].
    cbn [truthy negb]. rewrite !field_dict. reflexivity.
Qed.

(** X7.  [format_crypto_rate] on an object: without "Realtime Currency
    Exchange Rate", or with one that is empty or null, the no-data
    message; with a non-empty rate object, the fixed layout, each
    missing field shown as "N/A". *)
Theorem format_crypto_rate_cases (d : dict) :
  (lookup "Realtime Currency Exchange Rate" d = None
   \/ (exists v, lookup "Realtime Currency Exchange Rate" d = Some v
                 /\ truthy v = false) ->
   format_crypto_rate (VDict d)
   = "No exchange rate data available in the response")
  /\ (forall r, lookup "Realtime Currency Exchange Rate" d = Some (VDict r) ->
        r <> [] ->
        format_crypto_rate (VDict d) = crypto_layout r).
Proof.
  unfold format_crypto_rate, format_crypto_rate_body. cbn [get bind]. split.
  - intros [-> | (v & -> & Hv)]; [reflexivity|]. rewrite Hv. reflexivity.
  - intros r -> Hr. destruct r as [|kv r]; [contradiction|].
    cbn [truthy negb]. rewrite !field_dict. reflexivity.
Qed.


End ReportCases.

(* ================================================================== *)
(** * Further properties of the options report *)
(* ================================================================== *)

Section OptionsEdges.
Context {B : Builtins}.

(** X9.  The two early exits of [format_historical_options], whatever
    the limit and the sort arguments: a payload with "Error Message"
    yields "Error: " and that message even when it also carries data;
    otherwise a payload whose "data" is missing, empty or null yields
    the no-data message. *)
Theorem options_early_exits (options_data : dict) (limit sort_by sort_order : value) :
  (forall msg, lookup "Error Message" options_data = Some msg ->
     format_historical_options (VDict options_data) limit sort_by sort_order
     = "Error: " ++ py_str msg)
  /\ (lookup "Error Message" options_data = None ->
      lookup "data" options_data = None
      \/ (exists v, lookup "data" options_data = Some v /\ truthy v = false) ->
      format_historical_options (VDict options_data) limit sort_by sort_order
      = "No options data available in the response").
Proof.
  unfold format_historical_options, format_historical_options_body.
  cbn [str_in bind]. unfold has_key. split.
  - intros msg Hmsg. rewrite Hmsg. cbn [subscript bind]. rewrite Hmsg. reflexivity.
  - intros Herr Hdata. rewrite Herr. cbn [get bind].
    destruct Hdata as [-> | (v & -> & Hv)]; [reflexivity|].
    rewrite Hv. reflexivity.
Qed.

(** The body once the chain is sorted, for any integer limit. *)
Lemma options_body_any_limit (options_data : dict) (sort_by sort_order : string)
  (contracts sorted_contracts : list dict) (limit : Z) :
  lookup "Error Message" options_data = None ->
  lookup "data" options_data = Some (VList (map VDict contracts)) ->
  contracts <> [] ->
  sorted (get_sort_key (VStr sort_by)) (String.eqb sort_order "desc")
    (map VDict contracts) = Ok (map VDict sorted_contracts) ->
  let total := Z.of_nat (List.length sorted_contracts) in
  format_historical_options (VDict options_data) (VInt limit)
    (VStr sort_by) (VStr sort_order)
  = concat_all
      (if (limit =? -1)%Z
       then options_report options_data sort_by sort_order sorted_contracts
       else
         (options_report options_data sort_by sort_order
            (firstn (Z.to_nat (if (0 <=? limit)%Z then limit
                               else (total + limit)%Z))
               sorted_contracts)
          ++ (if (limit <? total)%Z
              then [more_contracts (VInt (total - limit))]
              else []))%list).
Proof.
  intros Herr Hdata Hne Hsorted total. subst total.
  unfold format_historical_options, format_historical_options_body.
  cbn [str_in bind]. unfold has_key. rewrite Herr.
  cbn [get bind]. rewrite Hdata.
  destruct contracts as [|c contracts]; [contradiction|].
  cbn [map truthy negb iterate bind].
  change (VDict c :: map VDict contracts) with (map VDict (c :: contracts)).
  change (py_eq (VStr sort_order) (VStr "desc")) with (String.eqb sort_order "desc").
  rewrite Hsorted. cbn [bind]. unfold minus_one. rewrite py_eq_int.
  rewrite length_map. unfold options_report.
  destruct (limit =? -1)%Z eqn:Hm1.
  - cbn [negb bind]. rewrite for_each_contract_lines. cbn [bind].
    rewrite flat_map_concat_map. reflexivity.
  - cbn [negb slice_to bind].
    assert (Hslice :
              (if (0 <=? limit)%Z
               then firstn (Z.to_nat limit) (map VDict sorted_contracts)
               else firstn
                      (Z.to_nat
                         (Z.of_nat (List.length (map VDict sorted_contracts)) + limit))
                      (map VDict sorted_contracts))
              = map VDict
                  (firstn (Z.to_nat (if (0 <=? limit)%Z then limit
                                     else (Z.of_nat (List.length sorted_contracts)
                                           + limit)%Z))
                     sorted_contracts)).
    { rewrite length_map. destruct (0 <=? limit)%Z; now rewrite firstn_map. }
    rewrite Hslice, for_each_contract_lines. cbn [bind].
    rewrite int_gt_int.
    destruct (limit <? Z.of_nat (List.length sorted_contracts))%Z; cbn [bind].
    + cbn [int_sub as_num bind].
      rewrite flat_map_concat_map, <- app_assoc. reflexivity.
    + rewrite flat_map_concat_map, app_nil_r. reflexivity.
Qed.

(** On keys of one family the chain sorts into a rearrangement of
    itself. *)
Lemma options_chain_sorts (sort_by : string) (reverse : bool)
  (contracts : list dict) :
  keys_in is_number_key sort_by contracts = true
  \/ keys_in is_text_key sort_by contracts = true ->
  exists sorted_contracts : list dict,
    sorted (get_sort_key (VStr sort_by)) reverse (map VDict contracts)
      = Ok (map VDict sorted_contracts)
    /\ Permutation contracts sorted_contracts.
Proof.
  intros Hkeys.
  assert (Hsorted : exists ys,
             sorted (get_sort_key (VStr sort_by)) reverse (map VDict contracts)
               = Ok ys
             /\ Permutation (map VDict contracts) ys).
  { destruct Hkeys as [Hnum | Htxt].
    - destruct (sorted_in_order is_number_key number_keys_total
                  (get_sort_key (VStr sort_by)) reverse (map VDict contracts)
                  (keys_in_family _ _ _ Hnum)) as (ys & Hys & Hp & _).
      exists ys. auto.
    - destruct (sorted_in_order is_text_key text_keys_total
                  (get_sort_key (VStr sort_by)) reverse (map VDict contracts)
                  (keys_in_family _ _ _ Htxt)) as (ys & Hys & Hp & _).
      exists ys. auto. }
  destruct Hsorted as (ys & Hys & Hperm).
  destruct (Permutation_map_inv _ _ (Permutation_sym Hperm))
    as (sorted_contracts & -> & Hperm').
  exists sorted_contracts. auto.
Qed.

(** X10.  A limit that is at least the number of contracts shows every
    contract, in sorted order, and adds no line about further
    contracts: the report is the one of limit [-1]. *)
Theorem limit_at_least_total
  (options_data : dict) (sort_by sort_order : string) (contracts : list dict)
  (limit : Z) :
  lookup "Error Message" options_data = None ->
  lookup "data" options_data = Some (VList (map VDict contracts)) ->
  contracts <> [] ->
  keys_in is_number_key sort_by contracts = true
  \/ keys_in is_text_key sort_by contracts = true ->
  (Z.of_nat (List.length contracts) <= limit)%Z ->
  format_historical_options (VDict options_data) (VInt limit)
    (VStr sort_by) (VStr sort_order)
  = format_historical_options (VDict options_data) (VInt (-1))
      (VStr sort_by) (VStr sort_order).
Proof.
  intros Herr Hdata Hne Hkeys Hlimit.
  destruct (options_chain_sorts sort_by (String.eqb sort_order "desc")
              contracts Hkeys) as (sorted_contracts & Hsorted & Hperm).
  pose proof (Permutation_length Hperm) as Hlen.
  rewrite !(options_body_any_limit options_data sort_by sort_order contracts
              sorted_contracts _ Herr Hdata Hne Hsorted).
  cbn zeta. rewrite <- Hlen.
  assert (Hm1 : (limit =? -1)%Z = false) by (apply Z.eqb_neq; lia).
  assert (Hpos : (0 <=? limit)%Z = true) by (apply Z.leb_le; lia).
  assert (Hlt : (limit <? Z.of_nat (List.length contracts))%Z = false)
    by (apply Z.ltb_ge; lia).
  rewrite Hm1, Hpos, Hlt, Z.eqb_refl, app_nil_r.
  rewrite firstn_all2 by lia. reflexivity.
Qed.


End OptionsEdges.

Section SortEdges.
Context {B : Builtins}.

Lemma equal_zero_keys_sorted {A} (l : list (value * A)) :
  Forall (fun p => fst p = VFloat zero) l -> Sorted may_precede l.
Proof.
  induction 1 as [|p l Hp Hl IH]; constructor; [exact IH|].
  destruct Hl as [|q l Hq _]; constructor.
  unfold may_precede. rewrite Hp, Hq. reflexivity.
Qed.

Lemma decorate_absent_field (sort_by : string) (contracts : list dict) :
  Forall (fun c => lookup sort_by c = None) contracts ->
  decorate (get_sort_key (VStr sort_by)) (map VDict contracts)
  = Ok (map (fun c => (VFloat zero, VDict c)) contracts).
Proof.
  induction 1 as [|c contracts Hc _ IH]; cbn [map decorate]; [reflexivity|].
  rewrite get_sort_key_field. unfold sort_field. rewrite Hc.
  cbn [py_float float_of_int bind]. rewrite IH. reflexivity.
Qed.

(** X12.  Sorting by a field that no contract has changes nothing: every
    key is [0.0], and in ascending as in descending order the contracts
    come out in the order they came in. *)
Theorem absent_sort_field_keeps_order
  (sort_by : string) (reverse : bool) (contracts : list dict) :
  Forall (fun c => lookup sort_by c = None) contracts ->
  sorted (get_sort_key (VStr sort_by)) reverse (map VDict contracts)
  = Ok (map VDict contracts).
Proof.
  intros Habsent. unfold sorted.
  rewrite (decorate_absent_field _ _ Habsent). cbn [bind].
  set (ks := map (fun c => (VFloat zero, VDict c)) contracts).
  assert (Hzero : Forall (fun p : value * value => fst p = VFloat zero) ks).
  { apply Forall_map, Forall_forall. reflexivity. }
  assert (Hsnd : map snd ks = map VDict contracts).
  { unfold ks. rewrite map_map. reflexivity. }
  destruct reverse.
  - rewrite (sort_fixed (rev ks))
      by (apply equal_zero_keys_sorted, Forall_rev; exact Hzero).
    cbn [bind]. rewrite rev_involutive, Hsnd. reflexivity.
  - rewrite (sort_fixed ks) by (apply equal_zero_keys_sorted; exact Hzero).
    cbn [bind]. rewrite Hsnd. reflexivity.
Qed.

(** The key of an object under a field name: a value, or the overflow
    of an integer too large for a float, the one exception that
    [get_sort_key] lets through. *)
Lemma get_sort_key_object (sort_by : string) (contract : dict) :
  (exists k, get_sort_key (VStr sort_by) (VDict contract) = Ok k)
  \/ get_sort_key (VStr sort_by) (VDict contract) = Raise OverflowError.
Proof.
  rewrite get_sort_key_field.
  destruct (sort_field sort_by contract) as [ |b|z|f|s|l|d]; cbn [py_float];
    try (left; eexists; reflexivity).
  - left. destruct b; eexists; reflexivity.
  - unfold float_of_int.
    destruct (binary_normalize 53 1024 z 0 false);
      try (left; eexists; reflexivity).
    right. reflexivity.
  - destruct (float_of_str (stripped s)); left; eexists; reflexivity.
Qed.

Lemma decorate_overflow (sort_by : string) (contracts : list dict) :
  Exists (fun c => get_sort_key (VStr sort_by) (VDict c) = Raise OverflowError)
    contracts ->
  decorate (get_sort_key (VStr sort_by)) (map VDict contracts)
  = Raise OverflowError.
Proof.
  induction 1 as [c contracts Hc | c contracts _ IH]; cbn [map decorate].
  - rewrite Hc. reflexivity.
  - destruct (get_sort_key_object sort_by c) as [[k ->] | ->]; cbn [bind];
      [|reflexivity].
    rewrite IH. reflexivity.
Qed.

(** X13.  An integer too large for a float is not a key: [float()]
    raises [OverflowError], which [get_sort_key] does not catch.  One
    contract holding such an integer in the sort field turns the whole
    report into the error line, whatever the limit and the order. *)
Theorem overflowing_sort_field
  (options_data : dict) (sort_by : string) (limit sort_order : value)
  (contracts : list dict) (contract : dict) (z : Z) :
  lookup "Error Message" options_data = None ->
  lookup "data" options_data = Some (VList (map VDict contracts)) ->
  In contract contracts ->
  lookup sort_by contract = Some (VInt z) ->
  float_of_int z = Raise OverflowError ->
  get_sort_key (VStr sort_by) (VDict contract) = Raise OverflowError
  /\ format_historical_options (VDict options_data) limit (VStr sort_by) sort_order
     = "Error formatting options data: " ++ exn_message OverflowError.
Proof.
  intros Herr Hdata Hin Hfield Hover.
  assert (Hkey : get_sort_key (VStr sort_by) (VDict contract) = Raise OverflowError).
  { rewrite get_sort_key_field. unfold sort_field. rewrite Hfield.
    cbn [py_float]. rewrite Hover. reflexivity. }
  split; [exact Hkey|].
  unfold format_historical_options, format_historical_options_body.
  cbn [str_in bind]. unfold has_key. rewrite Herr.
  cbn [get bind]. rewrite Hdata.
  destruct contracts as [|c contracts]; [contradiction|].
  cbn [map truthy negb iterate bind].
  change (VDict c :: map VDict contracts) with (map VDict (c :: contracts)).
  unfold sorted. rewrite decorate_overflow; [reflexivity|].
  apply Exists_exists. exists contract. auto.
Qed.

End SortEdges.

(** ** When the sort returns and when it raises *)

(** The only exception of [<] says that two values cannot be ordered. *)
Lemma py_lt_raises (a b : value) (e : exn) :
  py_lt a b = Raise e -> exists x y, e = TypeError "<" [x; y].
Proof.
  revert b. induction a as [ | | | | |l IH|d IH] using value_nested_ind;
    intros v; destruct v as [ | | | | |m|d']; cbn [py_lt as_num];
    try discriminate;
    try (intros [= <-]; eexists; eexists; reflexivity).
  revert m. induction IH as [|x l Hx _ IHl]; intros [|y m]; try discriminate.
  change ((if py_eq x y then py_lt (VList l) (VList m) else py_lt x y) = Raise e
          -> exists a b, e = TypeError "<" [a; b]).
  destruct (py_eq x y); [apply IHl | apply Hx].
Qed.

Lemma py_lt_one_kind (a b : value) (c : bool) :
  py_lt a b = Ok c -> kind_of a = kind_of b.
Proof. destruct a, b; cbn; try discriminate; reflexivity. Qed.

Section SortOutcomes.
Context {A : Type}.
Implicit Types (x y : value * A) (l s : list (value * A)).

(** A sort raises only what a comparison raised. *)
Lemma sort_raises l e :
  list_sort key_lt l = Raise e -> exists a b, e = TypeError "<" [a; b].
Proof.
  intros H.
  refine (outcome_raise (fun e => exists a b, e = TypeError "<" [a; b]) _ _ _
            (list_sort_spec key_lt (fun _ => True) _ key_lt_asym _ l _) H).
  - intros x y e' _ _ He. exact (py_lt_raises _ _ _ He).
  - apply Forall_forall. intros; exact I.
Qed.

(** Neighbours in order have been compared: they are of one kind, and
    so is the whole list. *)
Lemma sorted_one_kind s :
  Sorted may_precede s ->
  forall x y, In x s -> In y s -> kind_of (fst x) = kind_of (fst y).
Proof.
  induction 1 as [|a s Hs IH Hhd]; [contradiction|].
  assert (Ha : forall y, In y s -> kind_of (fst a) = kind_of (fst y)).
  { intros y Hy. destruct Hhd as [|b s Hab]; [contradiction|].
    unfold may_precede in Hab. rewrite <- (py_lt_one_kind _ _ _ Hab).
    apply IH; [left; reflexivity | exact Hy]. }
  intros x y [<- | Hx] [<- | Hy].
  - reflexivity.
  - apply Ha. exact Hy.
  - symmetry. apply Ha. exact Hx.
  - exact (IH x y Hx Hy).
Qed.

(** A sort that returns has compared every key with another one: all
    its keys are of one kind. *)
Lemma sort_one_kind l s :
  list_sort key_lt l = Ok s ->
  forall x y, In x l -> In y l -> kind_of (fst x) = kind_of (fst y).
Proof.
  intros Hs x y Hx Hy. destruct (sort_returns l s Hs) as [Hsorted Hperm].
  apply (sorted_one_kind s Hsorted);
    [exact (Permutation_in _ Hperm Hx) | exact (Permutation_in _ Hperm Hy)].
Qed.

Variable key : A -> result value.


(** On keys that all exist, a sort that meets keys of two kinds
    raises, and what it raises is the [TypeError] of [<]. *)
Lemma sorted_two_kinds (reverse : bool) (xs : list A) (a b : A) (ka kb : value) :
  Forall (fun c => exists k, key c = Ok k) xs ->
  In a xs -> In b xs ->
  key a = Ok ka -> key b = Ok kb ->
  kind_of ka <> kind_of kb ->
  exists t1 t2, sorted key reverse xs = Raise (TypeError "<" [t1; t2]).
Proof.
  intros Hall Ha Hb Hka Hkb Hkinds. unfold sorted.
  assert (Hd : exists ks, decorate key xs = Ok ks).
  { clear Ha Hb. induction Hall as [|c xs [k Hk] _ [ks IH]]; cbn [decorate].
    - eexists. reflexivity.
    - rewrite Hk, IH. eexists. reflexivity. }
  destruct Hd as [ks Hd]. rewrite Hd. cbn [bind].
  destruct (decorate_keyed key _ _ Hd) as [Hmap Hkeyed].
  assert (Hin : forall c k, In c xs -> key c = Ok k ->
                            In (k, c) (if reverse then rev ks else ks)).
  { intros c k Hx Hk. rewrite <- Hmap in Hx. apply in_map_iff in Hx.
    destruct Hx as ([k' c'] & Heq & Hx'). cbn in Heq. subst c'.
    unfold keyed in Hkeyed. rewrite Forall_forall in Hkeyed.
    specialize (Hkeyed _ Hx'). cbn in Hkeyed.
    assert (k' = k) by congruence. subst k'.
    destruct reverse; [apply in_rev; rewrite rev_involutive|]; exact Hx'. }
  destruct (list_sort key_lt (if reverse then rev ks else ks)) as [s|e] eqn:Hs; cbn [bind].
  - exfalso. apply Hkinds.
    exact (sort_one_kind _ _ Hs (ka, a) (kb, b) (Hin a ka Ha Hka) (Hin b kb Hb Hkb)).
  - destruct (sort_raises _ _ Hs) as (t1 & t2 & ->).
    exists t1, t2. reflexivity.
Qed.

End SortOutcomes.

(* ================================================================== *)
(** * The failure guard of the formatters *)
(* ================================================================== *)

Section GuardedFormatters.
Context {B : Builtins}.

(** ** What the operations of the bodies raise *)

Lemma get_raises (v : value) (k : string) (d : value) (e : exn) :
  get v k d = Raise e -> e = AttributeError (type_of v) "get".
Proof. destruct v; cbn; try discriminate; now intros [= <-]. Qed.

Lemma field_raises (v : value) (k : string) (e : exn) :
  field v k = Raise e -> e = AttributeError (type_of v) "get".
Proof.
  unfold field. destruct (get v k (VStr "N/A")) eqn:H; cbn [bind]; [discriminate|].
  intros [= <-]. exact (get_raises _ _ _ _ H).
Qed.

Lemma items_raises (v : value) (e : exn) :
  items v = Raise e -> e = AttributeError (type_of v) "items".
Proof. destruct v; cbn; try discriminate; now intros [= <-]. Qed.

Lemma for_each_raises {X Y} (f : X -> result Y) (xs : list X) (e : exn) :
  for_each f xs = Raise e -> exists x, In x xs /\ f x = Raise e.
Proof.
  induction xs as [|x xs IH]; cbn [for_each]; [discriminate|].
  destruct (f x) as [y|e'] eqn:Hx; cbn [bind].
  - destruct (for_each f xs) as [ys|e'] eqn:Hxs; cbn [bind]; [discriminate|].
    intros [= <-]. destruct (IH eq_refl) as (x' & Hin & Hx').
    exists x'. split; [now right | exact Hx'].
  - intros [= <-]. exists x. split; [now left | exact Hx].
Qed.

Ltac bind_step tac :=
  lazymatch goal with
  | |- bind ?m _ = Raise _ -> _ =>
      let H := fresh "Hstep" in
      destruct m eqn:H; cbn [bind]; [ | intros [= <-]; tac H ]
  end.

Ltac by_get H := rewrite (get_raises _ _ _ _ H); reflexivity.
Ltac by_field H := rewrite (field_raises _ _ _ H); reflexivity.

Lemma format_quote_body_raises (data : value) (e : exn) :
  format_quote_body data = Raise e -> no_attribute ["get"] e = true.
Proof.
  unfold format_quote_body. bind_step by_get.
  destruct (negb (truthy _)); [discriminate|].
  repeat bind_step by_field. discriminate.
Qed.

Lemma format_company_info_body_raises (data : value) (e : exn) :
  format_company_info_body data = Raise e -> no_attribute ["get"] e = true.
Proof.
  unfold format_company_info_body.
  destruct (negb (truthy _)); [discriminate|].
  repeat bind_step by_field. discriminate.
Qed.

Lemma format_crypto_rate_body_raises (data : value) (e : exn) :
  format_crypto_rate_body data = Raise e -> no_attribute ["get"] e = true.
Proof.
  unfold format_crypto_rate_body. bind_step by_get.
  destruct (negb (truthy _)); [discriminate|].
  repeat bind_step by_field. discriminate.
Qed.

Lemma date_block_raises (entry : string * value) (e : exn) :
  date_block entry = Raise e -> no_attribute ["get"; "items"] e = true.
Proof.
  destruct entry as [date values]. unfold date_block.
  repeat bind_step by_field. discriminate.
Qed.

Lemma format_time_series_body_raises (data : value) (e : exn) :
  format_time_series_body data = Raise e -> no_attribute ["get"; "items"] e = true.
Proof.
  unfold format_time_series_body. bind_step by_get.
  destruct (negb (truthy _)); [discriminate|].
  repeat bind_step by_get.
  bind_step ltac:(fun H => rewrite (items_raises _ _ H); reflexivity).
  bind_step ltac:(fun H =>
    destruct (for_each_raises _ _ _ H) as (x & _ & Hx);
    exact (date_block_raises _ _ Hx)).
  discriminate.
Qed.

Lemma str_in_raises (k : string) (v : value) (e : exn) :
  str_in k v = Raise e -> options_guard_case e = true.
Proof. destruct v; cbn; try discriminate; now intros [= <-]. Qed.

(** A key that [in] found is there: on an object the subscript
    returns. *)
Lemma subscript_raises (v : value) (k : string) (e : exn) :
  str_in k v = Ok true -> subscript v k = Raise e -> options_guard_case e = true.
Proof.
  destruct v; cbn [str_in subscript]; try discriminate;
    try (intros _ [= <-]; reflexivity).
  unfold has_key. destruct (lookup k d); [discriminate|]. intros [= ].
Qed.

Lemma get_guard_case (v : value) (k : string) (d : value) (e : exn) :
  get v k d = Raise e -> options_guard_case e = true.
Proof. intros H. rewrite (get_raises _ _ _ _ H). reflexivity. Qed.

Lemma iterate_raises (v : value) (e : exn) :
  iterate v = Raise e -> options_guard_case e = true.
Proof. destruct v; cbn; try discriminate; now intros [= <-]. Qed.

Lemma py_float_raises (v : value) (e : exn) :
  py_float v = Raise e -> is_value_or_type_error e = false -> e = OverflowError.
Proof.
  destruct v as [ |b|z|f|s|l|d]; cbn [py_float]; try discriminate;
    try (intros [= <-]; discriminate).
  - unfold float_of_int.
    destruct (binary_normalize _ _ _ _ _); try discriminate; now intros [= <-].
  - unfold float_of_int.
    destruct (binary_normalize _ _ _ _ _); try discriminate; now intros [= <-].
  - destruct (float_of_str s); [discriminate|]. intros [= <-]. discriminate.
Qed.

(** [get_sort_key] lets through the missing [.get] of a contract that
    is no object, the [TypeError] of a sort field that cannot be
    hashed, and the overflow of [float()]. *)
Lemma get_sort_key_raises (sort_by contract : value) (e : exn) :
  get_sort_key sort_by contract = Raise e -> options_guard_case e = true.
Proof.
  unfold get_sort_key.
  destruct (get_any contract sort_by (VInt 0)) as [v|e'] eqn:Hget; cbn [bind].
  - match goal with
    | |- match py_float ?w with _ => _ end = _ -> _ =>
        destruct (py_float w) as [f|e'] eqn:Hf; [discriminate|]
    end.
    destruct (is_value_or_type_error e') eqn:He; [discriminate|].
    intros [= <-]. rewrite (py_float_raises _ _ Hf He). reflexivity.
  - intros [= <-]. revert Hget. unfold get_any.
    destruct contract; try (intros [= <-]; reflexivity).
    destruct sort_by; try discriminate; intros [= <-]; reflexivity.
Qed.

Lemma decorate_raises {X} (key : X -> result value) (xs : list X) (e : exn) :
  decorate key xs = Raise e -> exists x, In x xs /\ key x = Raise e.
Proof.
  induction xs as [|x xs IH]; cbn [decorate]; [discriminate|].
  destruct (key x) as [k|e'] eqn:Hx; cbn [bind].
  - destruct (decorate key xs) as [ks|e'] eqn:Hxs; cbn [bind]; [discriminate|].
    intros [= <-]. destruct (IH eq_refl) as (x' & Hin & Hx').
    exists x'. split; [now right | exact Hx'].
  - intros [= <-]. exists x. split; [now left | exact Hx].
Qed.

(** The sort of the options chain raises what a key raised or what a
    comparison raised. *)
Lemma sorted_chain_raises (sort_by : value) (reverse : bool)
  (contracts : list value) (e : exn) :
  sorted (get_sort_key sort_by) reverse contracts = Raise e ->
  options_guard_case e = true.
Proof.
  unfold sorted.
  destruct (decorate (get_sort_key sort_by) contracts) as [ks|e'] eqn:Hd;
    cbn [bind].
  - destruct (list_sort key_lt (if reverse then rev ks else ks)) as [s|e'] eqn:Hs;
      cbn [bind]; [discriminate|].
    intros [= <-]. destruct (sort_raises _ _ Hs) as (a & b & ->). reflexivity.
  - intros [= <-]. destruct (decorate_raises _ _ _ Hd) as (c & _ & Hc).
    exact (get_sort_key_raises _ _ _ Hc).
Qed.

Lemma slice_to_raises {X} (xs : list X) (limit : value) (e : exn) :
  slice_to xs limit = Raise e -> options_guard_case e = true.
Proof. destruct limit; cbn; try discriminate; now intros [= <-]. Qed.

Lemma contract_lines_raises (contract : value) (e : exn) :
  contract_lines contract = Raise e -> options_guard_case e = true.
Proof.
  unfold contract_lines.
  repeat bind_step ltac:(fun H => rewrite (field_raises _ _ _ H); reflexivity).
  discriminate.
Qed.

Lemma int_gt_raises (n : Z) (v : value) (e : exn) :
  int_gt n v = Raise e -> options_guard_case e = true.
Proof.
  unfold int_gt. destruct (as_num v); [discriminate|]. now intros [= <-].
Qed.

Lemma int_sub_raises (n : Z) (v : value) (e : exn) :
  int_sub n v = Raise e -> options_guard_case e = true.
Proof.
  unfold int_sub. destruct (as_num v) as [[z|f]|]; try discriminate.
  - unfold float_of_int.
    destruct (binary_normalize _ _ _ _ _); cbn [bind]; try discriminate.
    now intros [= <-].
  - now intros [= <-].
Qed.

Lemma format_historical_options_body_raises
  (data limit sort_by sort_order : value) (e : exn) :
  format_historical_options_body data limit sort_by sort_order = Raise e ->
  options_guard_case e = true.
Proof.
  unfold format_historical_options_body.
  destruct (str_in "Error Message" data) as [has_error|e'] eqn:Hin; cbn [bind];
    [|intros [= <-]; exact (str_in_raises _ _ _ Hin)].
  destruct has_error.
  { bind_step ltac:(fun H => exact (subscript_raises _ _ _ Hin H)). discriminate. }
  bind_step ltac:(fun H => exact (get_guard_case _ _ _ _ H)).
  destruct (negb (truthy _)); [discriminate|].
  bind_step ltac:(fun H => exact (get_guard_case _ _ _ _ H)).
  bind_step ltac:(fun H => exact (iterate_raises _ _ H)).
  bind_step ltac:(fun H => exact (sorted_chain_raises _ _ _ _ H)).
  bind_step ltac:(fun H =>
    destruct (py_eq limit minus_one); [discriminate|];
    exact (slice_to_raises _ _ _ H)).
  bind_step ltac:(fun H =>
    destruct (for_each_raises _ _ _ H) as (c & _ & Hc);
    exact (contract_lines_raises _ _ Hc)).
  bind_step ltac:(fun H =>
    destruct (negb (py_eq limit minus_one)); [|discriminate];
    exact (int_gt_raises _ _ _ H)).
  match goal with |- (if ?t then _ else _) = _ -> _ => destruct t end;
    [|discriminate].
  bind_step ltac:(fun H => exact (int_sub_raises _ _ _ H)).
  discriminate.
Qed.

(** ** The guard *)

Lemma guarded_spec (what : string) (raised : exn -> bool) (body : result string) :
  (forall e, body = Raise e -> raised e = true) ->
  guard_spec what raised body (guarded what body).
Proof.
  intros Hraised. destruct body as [s|e]; cbn [guard_spec guarded].
  - reflexivity.
  - split; [now apply Hraised | reflexivity].
Qed.

Lemma format_crypto_rate_malformed (d : dict) (v : value) :
  lookup "Realtime Currency Exchange Rate" d = Some v ->
  malformed v ->
  format_crypto_rate (VDict d)
  = "Error formatting cryptocurrency data: "
    ++ exn_message (AttributeError (type_of v) "get").
Proof.
  intros Hl [Ht Hv]. unfold format_crypto_rate, format_crypto_rate_body.
  cbn [get bind]. rewrite Hl, Ht. cbn [negb].
  rewrite (field_not_dict _ _ Hv). reflexivity.
Qed.

(** A series of days that is not an object has no [.items]. *)
Lemma format_time_series_no_items (d : dict) (v : value) :
  lookup "Time Series (Daily)" d = Some v ->
  malformed v ->
  (lookup "Meta Data" d = None \/ exists m, lookup "Meta Data" d = Some (VDict m)) ->
  format_time_series (VDict d)
  = "Error formatting time series data: "
    ++ exn_message (AttributeError (type_of v) "items").
Proof.
  intros Hl [Ht Hv] Hmeta. unfold format_time_series, format_time_series_body.
  cbn [get bind]. rewrite Hl, Ht. cbn [negb].
  assert (Hitems : items v = Raise (AttributeError (type_of v) "items")).
  { destruct v; try reflexivity. exfalso. eapply Hv. reflexivity. }
  destruct Hmeta as [-> | [m ->]]; cbn [get bind]; rewrite Hitems; reflexivity.
Qed.

(** A chain whose first entry is not an object: the key function has
    no [.get] to call. *)
Lemma format_historical_options_no_get
  (d : dict) (c : value) (rest : list value) (limit sort_by sort_order : value) :
  lookup "Error Message" d = None ->
  lookup "data" d = Some (VList (c :: rest)) ->
  (forall o, c <> VDict o) ->
  format_historical_options (VDict d) limit sort_by sort_order
  = "Error formatting options data: "
    ++ exn_message (AttributeError (type_of c) "get").
Proof.
  intros Herr Hdata Hc.
  unfold format_historical_options, format_historical_options_body.
  cbn [str_in bind]. unfold has_key. rewrite Herr.
  cbn [get bind]. rewrite Hdata. cbn [truthy negb iterate bind].
  unfold sorted. cbn [decorate].
  assert (Hkey : get_sort_key sort_by c = Raise (AttributeError (type_of c) "get")).
  { unfold get_sort_key, get_any. destruct c; try reflexivity.
    exfalso. eapply Hc. reflexivity. }
  rewrite Hkey. reflexivity.
Qed.

(** On an object [format_company_info] has nothing to fail on. *)
Lemma format_company_info_body_returns (d : dict) :
  exists s, format_company_info_body (VDict d) = Ok s.
Proof.
  unfold format_company_info_body. destruct (negb (truthy (VDict d)));
    [eexists; reflexivity|].
  rewrite !field_dict. cbn [bind]. eexists. reflexivity.
Qed.

(** C2.  Each of the five formatters returns a string on every input,
    dictionary or not (and, for the options, whatever the limit, the
    sort field and the sort order are): the text its body produced or,
    when an operation of the body raised, "Error formatting ... data: "
    followed by the message of that exception.  What the bodies raise
    is: a [.get] or an [.items] on a value that has none and, in the
    options formatter, a [TypeError] or the overflow of [float()].  On
    a dictionary this is the case of a nested field that is there but
    is no object (the quote, the exchange rate, the series of days or
    one of its days, a contract of the chain), which gives the error
    line and no crash;
    [format_company_info], which reads no nested field, then never
    fails.  (The formatters only read their argument, through [.get],
    [in], [.items], [sorted] and slices, which build new lists: they
    are functions of an immutable value here.) *)
Theorem formatters_guarded (data limit sort_by sort_order : value) :
  (guard_spec "quote" (no_attribute ["get"])
     (format_quote_body data) (format_quote data)
   /\ guard_spec "company" (no_attribute ["get"])
        (format_company_info_body data) (format_company_info data)
   /\ guard_spec "cryptocurrency" (no_attribute ["get"])
        (format_crypto_rate_body data) (format_crypto_rate data)
   /\ guard_spec "time series" (no_attribute ["get"; "items"])
        (format_time_series_body data) (format_time_series data)
   /\ guard_spec "options" options_guard_case
        (format_historical_options_body data limit sort_by sort_order)
        (format_historical_options data limit sort_by sort_order))
  /\ (forall d, data = VDict d ->
        (forall v, lookup "Global Quote" d = Some v -> malformed v ->
           format_quote data
           = "Error formatting quote data: "
             ++ exn_message (AttributeError (type_of v) "get"))
        /\ (exists s, format_company_info_body data = Ok s)
        /\ (forall v, lookup "Realtime Currency Exchange Rate" d = Some v ->
              malformed v ->
              format_crypto_rate data
              = "Error formatting cryptocurrency data: "
                ++ exn_message (AttributeError (type_of v) "get"))
        /\ (forall v, lookup "Time Series (Daily)" d = Some v -> malformed v ->
              lookup "Meta Data" d = None ->
              format_time_series data
              = "Error formatting time series data: "
                ++ exn_message (AttributeError (type_of v) "items"))
        /\ (forall date v rest,
              lookup "Time Series (Daily)" d = Some (VDict ((date, v) :: rest)) ->
              lookup "Meta Data" d = None ->
              (forall o, v <> VDict o) ->
              format_time_series data
              = "Error formatting time series data: "
                ++ exn_message (AttributeError (type_of v) "get"))
        /\ (forall c rest, lookup "Error Message" d = None ->
              lookup "data" d = Some (VList (c :: rest)) ->
              (forall o, c <> VDict o) ->
              format_historical_options data limit sort_by sort_order
              = "Error formatting options data: "
                ++ exn_message (AttributeError (type_of c) "get"))).
Proof.
  split.
  - repeat split.
    + apply guarded_spec. apply format_quote_body_raises.
    + apply guarded_spec. apply format_company_info_body_raises.
    + apply guarded_spec. apply format_crypto_rate_body_raises.
    + apply guarded_spec. apply format_time_series_body_raises.
    + apply guarded_spec. apply format_historical_options_body_raises.
  - intros d ->. repeat split.
    + intros v Hl [Ht Hv]. exact (format_quote_malformed d v Hl Ht Hv).
    + apply format_company_info_body_returns.
    + intros v Hl Hv. exact (format_crypto_rate_malformed d v Hl Hv).
    + intros v Hl Hv Hm. apply format_time_series_no_items; auto.
    + intros date v rest Hl Hm Hv.
      exact (format_time_series_malformed d date v rest Hl Hm Hv).
    + intros c rest Herr Hdata Hc.
      exact (format_historical_options_no_get d c rest _ _ _ Herr Hdata Hc).
Qed.

End GuardedFormatters.

Section Rearrangement.
Context {B : Builtins}.


End Rearrangement.

Section MixedKeys.
Context {B : Builtins}.

(** X26.  Keys of two kinds cannot be sorted.  When every contract has
    a key and two of them have keys of different kinds (a contract
    without the sort field, whose key is [0.0], beside one whose field
    is text that is no number), [sorted] raises the [TypeError] of [<]
    and the report is the error line, whatever the limit and the
    order. *)
Theorem mixed_keys_are_an_error
  (options_data : dict) (sort_by : string) (limit sort_order : value)
  (contracts : list dict) (c1 c2 : dict) (k1 k2 : value) :
  lookup "Error Message" options_data = None ->
  lookup "data" options_data = Some (VList (map VDict contracts)) ->
  Forall (fun c => exists k, get_sort_key (VStr sort_by) (VDict c) = Ok k)
    contracts ->
  In c1 contracts -> In c2 contracts ->
  get_sort_key (VStr sort_by) (VDict c1) = Ok k1 ->
  get_sort_key (VStr sort_by) (VDict c2) = Ok k2 ->
  kind_of k1 <> kind_of k2 ->
  exists t1 t2,
    format_historical_options (VDict options_data) limit (VStr sort_by) sort_order
    = "Error formatting options data: " ++ exn_message (TypeError "<" [t1; t2]).
Proof.
  intros Herr Hdata Hall Hin1 Hin2 Hk1 Hk2 Hkinds.
  destruct (sorted_two_kinds (get_sort_key (VStr sort_by))
              (py_eq sort_order (VStr "desc")) (map VDict contracts)
              (VDict c1) (VDict c2) k1 k2)
    as (t1 & t2 & Hraise); auto using in_map.
  { apply Forall_map. exact Hall. }
  exists t1, t2.
  unfold format_historical_options, format_historical_options_body.
  cbn [str_in bind]. unfold has_key. rewrite Herr.
  cbn [get bind]. rewrite Hdata.
  destruct contracts as [|c contracts]; [contradiction|].
  cbn [map truthy negb iterate bind].
  change (VDict c :: map VDict contracts) with (map VDict (c :: contracts)).
  rewrite Hraise. reflexivity.
Qed.

End MixedKeys.

(* ================================================================== *)
(** * Further properties of the tool dispatch *)
(* ================================================================== *)

Lemma arg_present (arguments : dict) (k : string) (default v : value) :
  lookup k arguments = Some v -> arg arguments k default = v.
Proof. unfold arg. now intros ->. Qed.

Lemma lookup_snoc (k k' : string) (d : value) (arguments : dict) :
  lookup k' (arguments ++ [(k, d)])
  = match lookup k' arguments with
    | Some v => Some v
    | None => if String.eqb k' k then Some d else None
    end.
Proof.
  induction arguments as [|[k1 v1] arguments IH]; cbn [app lookup].
  - reflexivity.
  - destruct (String.eqb k' k1); [reflexivity | exact IH].
Qed.

(** An argument appended with the default the handler would use anyway,
    and any other argument after such an append. *)
Lemma arg_snoc_default (k : string) (d : value) (arguments : dict) :
  lookup k arguments = None ->
  arg (arguments ++ [(k, d)]) k d = arg arguments k d.
Proof.
  intros Habsent. unfold arg. rewrite lookup_snoc, Habsent, String.eqb_refl.
  reflexivity.
Qed.

Lemma arg_snoc_other (k k' : string) (d default : value) (arguments : dict) :
  String.eqb k' k = false ->
  arg (arguments ++ [(k, d)]) k' default = arg arguments k' default.
Proof.
  intros Hother. unfold arg. rewrite lookup_snoc, Hother.
  destruct (lookup k' arguments); reflexivity.
Qed.

Section DispatchEdges.
Context {B : Builtins} {W : World} {C : Collaborators}.

(** X14.  A name that [handle_list_tools] does not list is answered,
    for any non-empty arguments, with the text "Unknown tool: " and the
    name; nothing is fetched or raised. *)
Theorem unlisted_tool_is_unknown (name : string) (arguments : dict) :
  ~ In name tool_names ->
  arguments <> [] ->
  handle_call_tool name (Some arguments)
  = Ok [{| type := "text"; text := "Unknown tool: " ++ name |}].
Proof.
  intros Hnot Hargs. destruct arguments as [|kv arguments]; [contradiction|].
  unfold handle_call_tool.
  repeat match goal with
         | |- context [String.eqb name ?tool] =>
             destruct (String.eqb name tool) eqn:?E;
             [apply String.eqb_eq in E; subst name; exfalso; apply Hnot;
              cbn; tauto
             |clear E]
         end.
  reflexivity.
Qed.

(** X15.  For every tool that [handle_list_tools] lists and every field
    its schema requires, a call with non-empty arguments that lack the
    field returns the text "Missing [field] parameter": the handler
    checks what the schema demands, for "crypto_symbol" as for
    "symbol". *)
Theorem required_field_is_checked (tool : Tool) (field : string)
  (arguments : dict) :
  In tool handle_list_tools ->
  In field (required_fields tool) ->
  arguments <> [] ->
  lookup field arguments = None ->
  handle_call_tool (name tool) (Some arguments)
  = Ok [{| type := "text"; text := "Missing " ++ field ++ " parameter" |}].
Proof.
  intros Htool Hfield Hargs Habsent.
  destruct arguments as [|kv arguments]; [contradiction|].
  cbn in Htool.
  repeat (destruct Htool as [<- | Htool];
          [cbn in Hfield; destruct Hfield as [<- | []];
           unfold handle_call_tool;
           cbn [name String.eqb Ascii.eqb Bool.eqb];
           rewrite (arg_absent _ _ _ Habsent); reflexivity|]).
  contradiction.
Qed.

(** X16.  The defaults of the schemas are the defaults of the handler:
    for every listed tool and every argument whose schema declares a
    default, a call that leaves the argument out returns what the call
    returns with the argument set to that default. *)
Theorem schema_default_is_handler_default (tool : Tool) (k : string)
  (d : value) (arguments : dict) :
  In tool handle_list_tools ->
  In (k, d) (schema_defaults tool) ->
  arguments <> [] ->
  lookup k arguments = None ->
  handle_call_tool (name tool) (Some (arguments ++ [(k, d)])%list)
  = handle_call_tool (name tool) (Some arguments).
Proof.
  intros Htool Hdefault Hargs Habsent.
  destruct arguments as [|kv arguments]; [contradiction|].
  cbn in Htool.
  repeat (destruct Htool as [<- | Htool];
          [cbn in Hdefault;
           repeat (destruct Hdefault as [[= <- <-] | Hdefault];
                   [unfold handle_call_tool;
                    cbn [name String.eqb Ascii.eqb Bool.eqb app];
                    change (kv :: (arguments ++ [?x]))%list
                      with ((kv :: arguments) ++ [x])%list;
                    rewrite (arg_snoc_default _ _ _ Habsent);
                    rewrite ?arg_snoc_other by reflexivity;
                    reflexivity|]);
           try contradiction|]).
  contradiction.
Qed.

End DispatchEdges.

Section DispatchFailures.
Context {B : Builtins} {W : World} {C : Collaborators}.

Lemma is_text_truthy (v : value) :
  is_text v = true -> truthy v = true /\ exists s, v = VStr s.
Proof.
  destruct v; cbn; try discriminate. intros Hs. split; [exact Hs|].
  eexists. reflexivity.
Qed.

(** X17.  When the gateway fails, the data tools say so and format
    nothing: if every request comes back as the error string [err], each
    of the five data tools, called with its symbol (and, for the
    exchange rate, a market that is a string or left out), returns the
    single text "Error: " followed by [err]. *)
Theorem gateway_failure_is_surfaced (err : string) (arguments : dict) :
  (forall function symbol extra,
     make_alpha_request function symbol extra = VStr err) ->
  (forall name,
     In name symbol_data_tools ->
     is_text (arg arguments "symbol" VNone) = true ->
     handle_call_tool name (Some arguments)
     = Ok [{| type := "text"; text := "Error: " ++ err |}])
  /\ (is_text (arg arguments "crypto_symbol" VNone) = true ->
      (exists m, arg arguments "market" (VStr "USD") = VStr m) ->
      handle_call_tool "get-crypto-exchange-rate" (Some arguments)
      = Ok [{| type := "text"; text := "Error: " ++ err |}]).
Proof.
  intros Hfail. split.
  - intros name Hname Hsym.
    destruct (is_text_truthy _ Hsym) as [Htruthy [s Hs]].
    destruct arguments as [|kv arguments]; [discriminate|].
    cbn in Hname.
    repeat (destruct Hname as [<- | Hname];
            [unfold handle_call_tool; cbn [String.eqb Ascii.eqb Bool.eqb];
             rewrite Htruthy, Hs; cbn [negb upper bind];
             rewrite Hfail; reflexivity|]).
    contradiction.
  - intros Hsym [m Hm].
    destruct (is_text_truthy _ Hsym) as [Htruthy [s Hs]].
    destruct arguments as [|kv arguments]; [discriminate|].
    unfold handle_call_tool; cbn [String.eqb Ascii.eqb Bool.eqb].
    rewrite Htruthy, Hs, Hm. cbn [negb upper bind].
    rewrite Hfail. reflexivity.
Qed.

(** X18.  An exception in an analysis module does not leave the
    handler: for each of the four analysis tools, called with a symbol,
    a collaborator that raises is reported as the text "Error analyzing
    ...: " followed by the message of the exception.  (For the futures
    tool the account value and the leverage are left out, so that their
    defaults apply.) *)
Theorem analysis_failure_is_reported (arguments : dict) (s : string) (e : exn) :
  arg arguments "symbol" VNone = VStr s ->
  s <> "" ->
  (technical_setup_report (str_upper s) = Raise e ->
   handle_call_tool "analyze-technical-setup" (Some arguments)
   = Ok [{| type := "text";
            text := "Error analyzing technical setup: " ++ exn_message e |}])
  /\ (institutional_report (str_upper s) = Raise e ->
      handle_call_tool "analyze-institutional-activity" (Some arguments)
      = Ok [{| type := "text";
               text := "Error analyzing institutional activity: "
                       ++ exn_message e |}])
  /\ (lookup "account_value" arguments = None ->
      lookup "leverage" arguments = None ->
      (forall account_value leverage,
         analyze_futures_trade_setup (str_upper s) account_value leverage
         = Raise e) ->
      handle_call_tool "analyze-futures-trade-setup" (Some arguments)
      = Ok [{| type := "text";
               text := "Error analyzing futures trade setup: "
                       ++ exn_message e |}])
  /\ (get_day_of_week_edge = Raise e
      \/ (exists day_edge, get_day_of_week_edge = Ok day_edge
                           /\ get_intraday_timing_edge (str_upper s) = Raise e) ->
      handle_call_tool "get-timing-edge" (Some arguments)
      = Ok [{| type := "text";
               text := "Error analyzing timing edge: " ++ exn_message e |}]).
Proof.
  intros Hs Hne.
  assert (Htruthy : truthy (VStr s) = true).
  { cbn. apply negb_true_iff, String.eqb_neq. exact Hne. }
  destruct arguments as [|kv arguments]; [discriminate|].
  split; [|split; [|split]].
  - intros Hraise. unfold handle_call_tool; cbn [String.eqb Ascii.eqb Bool.eqb].
    rewrite Hs, Htruthy. cbn [negb upper bind]. rewrite Hraise. reflexivity.
  - intros Hraise. unfold handle_call_tool; cbn [String.eqb Ascii.eqb Bool.eqb].
    rewrite Hs, Htruthy. cbn [negb upper bind]. rewrite Hraise. reflexivity.
  - intros Hacc Hlev Hraise.
    unfold handle_call_tool; cbn [String.eqb Ascii.eqb Bool.eqb].
    rewrite Hs, Htruthy. cbn [negb upper bind].
    rewrite (arg_absent _ _ _ Hacc), (arg_absent _ _ _ Hlev).
    set (account := py_float (VInt 100000)). vm_compute in account.
    set (leverage := py_float (VInt 10)). vm_compute in leverage.
    subst account leverage. cbn [bind].
    unfold futures_report. rewrite Hraise. reflexivity.
  - intros Hraise. unfold handle_call_tool; cbn [String.eqb Ascii.eqb Bool.eqb].
    rewrite Hs, Htruthy. cbn [negb upper bind]. unfold timing_edge_report.
    destruct Hraise as [-> | (day_edge & -> & ->)]; reflexivity.
Qed.

(** X19.  A symbol that is present and truthy but not a string (a
    number, a list, an object, [true]) is not rejected as missing: the
    handler calls [.upper()] on it, and for each of the eight
    symbol-keyed tools the call ends in an [AttributeError] instead of a
    text result. *)
Theorem non_string_symbol_raises (name : string) (arguments : dict) (v : value) :
  In name symbol_tools ->
  arg arguments "symbol" VNone = v ->
  truthy v = true ->
  (forall s, v <> VStr s) ->
  handle_call_tool name (Some arguments)
  = Raise (AttributeError (type_of v) "upper").
Proof.
  intros Hname Hv Htruthy Hnot.
  destruct arguments as [|kv arguments].
  { cbn in Hv. subst v. discriminate. }
  assert (Hupper : upper v = Raise (AttributeError (type_of v) "upper")).
  { destruct v; try reflexivity. exfalso. eapply Hnot. reflexivity. }
  cbn in Hname.
  repeat (destruct Hname as [<- | Hname];
          [unfold handle_call_tool; cbn [String.eqb Ascii.eqb Bool.eqb];
           rewrite Hv, Htruthy; cbn [negb]; rewrite Hupper; reflexivity|]).
  contradiction.
Qed.

(** X20.  The account value and the leverage of the futures tool are
    converted with [float()] before the guarded block: a value that
    [float()] rejects ends the call in that exception, and the analysis
    is never started. *)
Theorem futures_amounts_are_converted_unguarded
  (arguments : dict) (s : string) (e : exn) :
  arg arguments "symbol" VNone = VStr s ->
  s <> "" ->
  py_float (arg arguments "account_value" (VInt 100000)) = Raise e
  \/ (exists a, py_float (arg arguments "account_value" (VInt 100000)) = Ok a
                /\ py_float (arg arguments "leverage" (VInt 10)) = Raise e) ->
  handle_call_tool "analyze-futures-trade-setup" (Some arguments) = Raise e.
Proof.
  intros Hs Hne Hraise.
  assert (Htruthy : truthy (VStr s) = true).
  { cbn. apply negb_true_iff, String.eqb_neq. exact Hne. }
  destruct arguments as [|kv arguments]; [discriminate|].
  unfold handle_call_tool; cbn [String.eqb Ascii.eqb Bool.eqb].
  rewrite Hs, Htruthy. cbn [negb upper bind].
  destruct Hraise as [-> | (a & -> & ->)]; reflexivity.
Qed.

End DispatchFailures.

Section ReplyShape.
Context {B : Builtins} {W : World} {C : Collaborators}.

Lemma one_reply (s : string) : one_text_block (reply s).
Proof. intros r [= <-]. eexists. reflexivity. Qed.

Lemma one_surface (data : value) (render : value -> string) :
  one_text_block (surface data render).
Proof. unfold surface. destruct data; apply one_reply. Qed.

Lemma one_bind {A} (m : result A) (k : A -> result (list TextContent)) :
  (forall a, one_text_block (k a)) -> one_text_block (bind m k).
Proof. intros Hk. destruct m as [a|e]; [apply Hk | intros r; discriminate]. Qed.

Lemma one_analysing (prefix : string) (body : result (list TextContent)) :
  one_text_block body -> one_text_block (analysing prefix body).
Proof.
  intros Hbody. unfold analysing. destruct body as [r|e]; [exact Hbody|].
  apply one_reply.
Qed.

Lemma one_text_of (v : value) :
  one_text_block (content <- text_of v ;; Ok [content]).
Proof.
  destruct v; try (intros r; discriminate). intros r [= <-].
  eexists. reflexivity.
Qed.

(** X21.  Whatever the tool name, the arguments, the network and the
    analysis modules do: when [handle_call_tool] returns, it returns
    exactly one content block, of type "text". *)
Theorem reply_is_one_text_block
  (name : string) (arguments : option dict) (r : list TextContent) :
  handle_call_tool name arguments = Ok r ->
  exists s, r = [{| type := "text"; text := s |}].
Proof.
  revert r. change (one_text_block (handle_call_tool name arguments)).
  unfold handle_call_tool, missing_symbol, futures_report, timing_edge_report.
  destruct arguments as [[|kv arguments]|]; try apply one_reply.
  repeat match goal with
         | |- one_text_block (if ?c then _ else _) => destruct c
         | |- one_text_block (reply _) => apply one_reply
         | |- one_text_block (surface _ _) => apply one_surface
         | |- one_text_block (analysing _ _) => apply one_analysing
         | |- one_text_block (bind (text_of _) _) => apply one_text_of
         | |- one_text_block (bind _ _) => apply one_bind; intros ?
         | |- one_text_block (let _ := _ in _) => cbv zeta
         end.
Qed.

End ReplyShape.

Lemma arg_dict_set (k k' : string) (v default : value) (arguments : dict) :
  arg (dict_set k v arguments) k' default
  = if String.eqb k' k then v else arg arguments k' default.
Proof.
  unfold arg. rewrite lookup_dict_set. destruct (String.eqb k' k); reflexivity.
Qed.

Lemma dict_set_cons (k : string) (v : value) (kv : string * value) (d : dict) :
  exists kv' d', dict_set k v (kv :: d) = kv' :: d'.
Proof.
  destruct kv as [k1 v1]. cbn [dict_set].
  destruct (String.eqb k k1); eexists; eexists; reflexivity.
Qed.

Lemma arg_snoc_absent (k : string) (d default : value) (arguments : dict) :
  lookup k arguments = None ->
  arg (arguments ++ [(k, d)]) k default = d.
Proof.
  intros Habsent. unfold arg. rewrite lookup_snoc, Habsent, String.eqb_refl.
  reflexivity.
Qed.

Section DispatchArguments.
Context {B : Builtins} {W : World} {C : Collaborators}.

(** X22.  Symbols are matched without regard to case: for each of the
    eight symbol-keyed tools, replacing the symbol by another text with
    the same upper-case form changes nothing in the reply, the request
    sent included. *)
Theorem symbol_case_is_ignored
  (name : string) (arguments : dict) (s1 s2 : string) :
  In name symbol_tools ->
  arg arguments "symbol" VNone = VStr s1 ->
  s1 <> "" ->
  s2 <> "" ->
  str_upper s1 = str_upper s2 ->
  handle_call_tool name (Some (dict_set "symbol" (VStr s2) arguments))
  = handle_call_tool name (Some arguments).
Proof.
  intros Hname Hs1 Hne1 Hne2 Hupper.
  assert (Ht1 : truthy (VStr s1) = true)
    by (cbn; apply negb_true_iff, String.eqb_neq; exact Hne1).
  assert (Ht2 : truthy (VStr s2) = true)
    by (cbn; apply negb_true_iff, String.eqb_neq; exact Hne2).
  destruct arguments as [|kv arguments]; [discriminate|].
  destruct (dict_set_cons "symbol" (VStr s2) kv arguments) as (kv' & d' & Hset).
  rewrite Hset. cbn in Hname.
  repeat (destruct Hname as [<- | Hname];
          [unfold handle_call_tool; cbn [String.eqb Ascii.eqb Bool.eqb];
           rewrite <- Hset; rewrite !arg_dict_set;
           cbn [String.eqb Ascii.eqb Bool.eqb];
           rewrite Hs1, Ht1, Ht2; cbn [negb upper bind];
           rewrite Hupper; reflexivity|]).
  contradiction.
Qed.

(** X23.  For the options tool a date that is empty or null counts as
    no date: the request carries no "date" parameter and the title no
    "on ..." part, exactly as when the argument is left out. *)
Theorem falsy_date_is_no_date (arguments : dict) (date : value) :
  arguments <> [] ->
  lookup "date" arguments = None ->
  truthy date = false ->
  handle_call_tool "get-historical-options"
    (Some (arguments ++ [("date", date)])%list)
  = handle_call_tool "get-historical-options" (Some arguments).
Proof.
  intros Hargs Habsent Hfalsy.
  destruct arguments as [|kv arguments]; [contradiction|].
  unfold handle_call_tool; cbn [String.eqb Ascii.eqb Bool.eqb app].
  change (kv :: (arguments ++ [?x]))%list with ((kv :: arguments) ++ [x])%list.
  rewrite (arg_snoc_absent _ _ _ _ Habsent), (arg_absent _ _ _ Habsent).
  rewrite ?arg_snoc_other by reflexivity.
  rewrite Hfalsy. reflexivity.
Qed.

End DispatchArguments.

Section LimitTypes.
Context {B : Builtins}.

(** X24.  A limit that is a string, a list or an object cannot bound a
    slice: once the chain is sorted, [sorted_chain[:limit]] raises and
    the report is the error line, with no contract rendered. *)
Theorem non_integer_limit_is_an_error
  (options_data : dict) (sort_by sort_order : string) (contracts : list dict)
  (limit : value) :
  lookup "Error Message" options_data = None ->
  lookup "data" options_data = Some (VList (map VDict contracts)) ->
  contracts <> [] ->
  keys_in is_number_key sort_by contracts = true
  \/ keys_in is_text_key sort_by contracts = true ->
  match limit with
  | VStr _ | VList _ | VDict _ => True
  | _ => False
  end ->
  format_historical_options (VDict options_data) limit
    (VStr sort_by) (VStr sort_order)
  = "Error formatting options data: "
    ++ exn_message (TypeError "slice" [type_of limit]).
Proof.
  intros Herr Hdata Hne Hkeys Hlimit.
  destruct (options_chain_sorts sort_by (String.eqb sort_order "desc")
              contracts Hkeys) as (sorted_contracts & Hsorted & _).
  unfold format_historical_options, format_historical_options_body.
  cbn [str_in bind]. unfold has_key. rewrite Herr.
  cbn [get bind]. rewrite Hdata.
  destruct contracts as [|c contracts]; [contradiction|].
  cbn [map truthy negb iterate bind].
  change (VDict c :: map VDict contracts) with (map VDict (c :: contracts)).
  change (py_eq (VStr sort_order) (VStr "desc")) with (String.eqb sort_order "desc").
  rewrite Hsorted. cbn [bind].
  destruct limit; try contradiction; reflexivity.
Qed.

End LimitTypes.

(* ================================================================== *)
(** * Closed instances of the further properties *)
(* ================================================================== *)

Section FurtherInstances.
Import Fixtures.
Existing Instance CPython.builtins.

Lemma non_success_status_reports_text_witness :
  make_alpha_request
    (W := answering (Response 403 "Invalid API key" (Ok (VDict []))))
    "OVERVIEW" (VStr "IBM") None
  = VStr "API key invalid or expired. Error details: Invalid API key".
Proof.
  exact (non_success_status_reports_text
           (W := answering (Response 403 "Invalid API key" (Ok (VDict []))))
           "OVERVIEW" (VStr "IBM") None 403 "Invalid API key" (Ok (VDict []))
           eq_refl eq_refl).
Defined.

Lemma structured_only_from_success_witness :
  exists status_code text,
    client_get
      (World := answering (Response 200 "{}" (Ok (VDict [("Symbol", VStr "IBM")]))))
      ALPHA_VANTAGE_BASE
      (request_params
         (W := answering (Response 200 "{}" (Ok (VDict [("Symbol", VStr "IBM")]))))
         "OVERVIEW" (VStr "IBM") None)
    = Response status_code text (Ok (VDict [("Symbol", VStr "IBM")]))
    /\ is_success status_code = true
    /\ check_body (VDict [("Symbol", VStr "IBM")])
       = Ok (VDict [("Symbol", VStr "IBM")]).
Proof.
  apply (structured_only_from_success
           (W := answering (Response 200 "{}" (Ok (VDict [("Symbol", VStr "IBM")]))))
           "OVERVIEW" (VStr "IBM") None).
  - reflexivity.
  - intros t. discriminate.
Defined.

Lemma clean_body_passes_through_witness :
  make_alpha_request
    (W := answering
            (Response 200 "{}"
               (Ok (VDict [("Note", VStr "Thank you for using Alpha Vantage.");
                           ("Symbol", VStr "IBM")]))))
    "OVERVIEW" (VStr "IBM") None
  = VDict [("Note", VStr "Thank you for using Alpha Vantage.");
           ("Symbol", VStr "IBM")].
Proof.
  apply (clean_body_passes_through
           (W := answering
                   (Response 200 "{}"
                      (Ok (VDict [("Note", VStr "Thank you for using Alpha Vantage.");
                                  ("Symbol", VStr "IBM")]))))
           "OVERVIEW" (VStr "IBM") None 200 "{}").
  - reflexivity.
  - reflexivity.
  - reflexivity.
  - right. eexists. split; reflexivity.
Defined.

Lemma unsearchable_body_is_unexpected_witness :
  make_alpha_request (W := answering (Response 200 "null" (Ok VNone)))
    "OVERVIEW" (VStr "IBM") None
  = VStr "Unexpected error occurred: argument of type 'NoneType' is not iterable".
Proof.
  exact (proj2 (unsearchable_body_is_unexpected
                  (W := answering (Response 200 "null" (Ok VNone)))
                  "OVERVIEW" (VStr "IBM") None 200 "null" (Ok VNone)
                  eq_refl eq_refl)
               VNone eq_refl I).
Defined.

Lemma request_params_keys_witness :
  keys (request_params (W := offline) "TIME_SERIES_DAILY" (VStr "IBM")
          (Some [("outputsize", VStr "full"); ("symbol", VStr "MSFT")]))
  = ["function"; "symbol"; "apikey"; "outputsize"].
Proof.
  assert (Hwf : dict_wf [("outputsize", VStr "full"); ("symbol", VStr "MSFT")]).
  { unfold dict_wf. cbn. repeat constructor; cbn; intuition discriminate. }
  rewrite (proj1 (request_params_keys (W := offline)
                    "TIME_SERIES_DAILY" (VStr "IBM") _ Hwf)).
  reflexivity.
Defined.

Lemma format_quote_cases_witness :
  format_quote (VDict [("Global Quote", VDict [])])
  = "No quote data available in the response".
Proof.
  apply (proj1 (format_quote_cases [("Global Quote", VDict [])])).
  right. eexists. split; reflexivity.
Defined.

Lemma format_crypto_rate_cases_witness :
  format_crypto_rate
    (VDict [("Realtime Currency Exchange Rate",
             VDict [("1. From_Currency Code", VStr "BTC");
                    ("5. Exchange Rate", VStr "43000.1")])])
  = crypto_layout [("1. From_Currency Code", VStr "BTC");
                   ("5. Exchange Rate", VStr "43000.1")].
Proof.
  apply (proj2 (format_crypto_rate_cases
                  [("Realtime Currency Exchange Rate",
                    VDict [("1. From_Currency Code", VStr "BTC");
                           ("5. Exchange Rate", VStr "43000.1")])])).
  - reflexivity.
  - discriminate.
Defined.


Lemma options_early_exits_witness :
  format_historical_options
    (VDict (("Error Message", VStr "Invalid API call.")
            :: options_payload three_strikes))
    (VInt 10) (VStr "strike") (VStr "asc")
  = "Error: Invalid API call.".
Proof.
  exact (proj1 (options_early_exits
                  (("Error Message", VStr "Invalid API call.")
                   :: options_payload three_strikes)
                  (VInt 10) (VStr "strike") (VStr "asc"))
               (VStr "Invalid API call.") eq_refl).
Defined.

Lemma limit_at_least_total_witness :
  format_historical_options (VDict (options_payload three_strikes))
    (VInt 10) (VStr "strike") (VStr "asc")
  = format_historical_options (VDict (options_payload three_strikes))
      (VInt (-1)) (VStr "strike") (VStr "asc").
Proof.
  apply (limit_at_least_total (options_payload three_strikes)
           "strike" "asc" three_strikes 10).
  - reflexivity.
  - reflexivity.
  - discriminate.
  - left. reflexivity.
  - cbn. lia.
Defined.


Lemma absent_sort_field_keeps_order_witness :
  sorted (get_sort_key (VStr "volume")) true (map VDict three_strikes)
  = Ok (map VDict three_strikes).
Proof.
  apply (absent_sort_field_keeps_order "volume" true three_strikes).
  repeat constructor.
Defined.

Lemma overflowing_sort_field_witness :
  format_historical_options
    (VDict (options_payload [[("contractID", VStr "A"); ("strike", VInt (2 ^ 1024))]]))
    (VInt 10) (VStr "strike") (VStr "asc")
  = "Error formatting options data: int too large to convert to float".
Proof.
  refine (proj2 (overflowing_sort_field
                   (options_payload
                      [[("contractID", VStr "A"); ("strike", VInt (2 ^ 1024))]])
                   "strike" (VInt 10) (VStr "asc")
                   [[("contractID", VStr "A"); ("strike", VInt (2 ^ 1024))]]
                   [("contractID", VStr "A"); ("strike", VInt (2 ^ 1024))]
                   (2 ^ 1024) eq_refl eq_refl _ eq_refl _)).
  - left. reflexivity.
  - vm_compute. reflexivity.
Defined.

Lemma unlisted_tool_is_unknown_witness :
  handle_call_tool (W := offline) (C := no_analysis)
    "get-weather" (Some [("symbol", VStr "IBM")])
  = Ok [{| type := "text"; text := "Unknown tool: get-weather" |}].
Proof.
  apply (unlisted_tool_is_unknown (W := offline) (C := no_analysis)).
  - cbn. intuition discriminate.
  - discriminate.
Defined.

Lemma required_field_is_checked_witness :
  handle_call_tool (W := offline) (C := no_analysis)
    "get-crypto-exchange-rate" (Some [("market", VStr "EUR")])
  = Ok [{| type := "text"; text := "Missing crypto_symbol parameter" |}].
Proof.
  apply (required_field_is_checked (W := offline) (C := no_analysis)
           (nth 2 handle_list_tools (nth 0 handle_list_tools
              {| name := ""; description := ""; inputSchema := VNone |}))
           "crypto_symbol" [("market", VStr "EUR")]).
  - cbn. tauto.
  - cbn. tauto.
  - discriminate.
  - reflexivity.
Defined.

Lemma schema_default_is_handler_default_witness :
  handle_call_tool (W := offline) (C := no_analysis)
    "get-time-series" (Some [("symbol", VStr "IBM"); ("outputsize", VStr "compact")])
  = handle_call_tool (W := offline) (C := no_analysis)
      "get-time-series" (Some [("symbol", VStr "IBM")]).
Proof.
  apply (schema_default_is_handler_default (W := offline) (C := no_analysis)
           (nth 3 handle_list_tools
              {| name := ""; description := ""; inputSchema := VNone |})
           "outputsize" (VStr "compact") [("symbol", VStr "IBM")]).
  - cbn. tauto.
  - cbn. tauto.
  - discriminate.
  - reflexivity.
Defined.

Lemma gateway_failure_is_surfaced_witness :
  handle_call_tool (W := offline) (C := no_analysis)
    "get-company-info" (Some [("symbol", VStr "ibm")])
  = Ok [{| type := "text";
           text := "Error: Failed to connect to Alpha Vantage API. Please check your internet connection." |}].
Proof.
  apply (proj1 (gateway_failure_is_surfaced (W := offline) (C := no_analysis)
                  "Failed to connect to Alpha Vantage API. Please check your internet connection."
                  [("symbol", VStr "ibm")]
                  (fun _ _ _ => eq_refl))).
  - cbn. tauto.
  - reflexivity.
Defined.

Lemma analysis_failure_is_reported_witness :
  handle_call_tool (W := offline) (C := no_analysis)
    "analyze-institutional-activity" (Some [("symbol", VStr "ibm")])
  = Ok [{| type := "text";
           text := "Error analyzing institutional activity: unavailable" |}].
Proof.
  refine (proj1 (proj2 (analysis_failure_is_reported
                          (W := offline) (C := no_analysis)
                          [("symbol", VStr "ibm")] "ibm"
                          (OtherException "unavailable") eq_refl _)) eq_refl).
  discriminate.
Defined.

Lemma non_string_symbol_raises_witness :
  handle_call_tool (W := offline) (C := no_analysis)
    "get-stock-quote" (Some [("symbol", VInt 5)])
  = Raise (AttributeError TInt "upper").
Proof.
  apply (non_string_symbol_raises (W := offline) (C := no_analysis)
           "get-stock-quote" [("symbol", VInt 5)] (VInt 5)).
  - cbn. tauto.
  - reflexivity.
  - reflexivity.
  - intros s. discriminate.
Defined.

Lemma futures_amounts_are_converted_unguarded_witness :
  handle_call_tool (W := offline) (C := no_analysis)
    "analyze-futures-trade-setup"
    (Some [("symbol", VStr "ES"); ("account_value", VStr "a lot")])
  = Raise (ValueError "a lot").
Proof.
  apply (futures_amounts_are_converted_unguarded
           (W := offline) (C := no_analysis)
           [("symbol", VStr "ES"); ("account_value", VStr "a lot")] "ES").
  - reflexivity.
  - discriminate.
  - left. reflexivity.
Defined.

Lemma reply_is_one_text_block_witness :
  exists s,
    [{| type := "text"; text := "Missing arguments for the request" |}]
    = [{| type := "text"; text := s |}].
Proof.
  apply (reply_is_one_text_block (W := offline) (C := no_analysis)
           "get-stock-quote" None).
  reflexivity.
Defined.

Lemma symbol_case_is_ignored_witness :
  handle_call_tool (W := offline) (C := no_analysis)
    "get-time-series" (Some [("symbol", VStr "IBM"); ("outputsize", VStr "full")])
  = handle_call_tool (W := offline) (C := no_analysis)
      "get-time-series" (Some [("symbol", VStr "ibm"); ("outputsize", VStr "full")]).
Proof.
  apply (symbol_case_is_ignored (W := offline) (C := no_analysis)
           "get-time-series"
           [("symbol", VStr "ibm"); ("outputsize", VStr "full")] "ibm" "IBM").
  - cbn. tauto.
  - reflexivity.
  - discriminate.
  - discriminate.
  - reflexivity.
Defined.

Lemma falsy_date_is_no_date_witness :
  handle_call_tool (W := offline) (C := no_analysis)
    "get-historical-options" (Some [("symbol", VStr "IBM"); ("date", VStr "")])
  = handle_call_tool (W := offline) (C := no_analysis)
      "get-historical-options" (Some [("symbol", VStr "IBM")]).
Proof.
  apply (falsy_date_is_no_date (W := offline) (C := no_analysis)
           [("symbol", VStr "IBM")] (VStr "")).
  - discriminate.
  - reflexivity.
  - reflexivity.
Defined.

Lemma non_integer_limit_is_an_error_witness :
  format_historical_options (VDict (options_payload three_strikes))
    (VStr "5") (VStr "strike") (VStr "asc")
  = "Error formatting options data: slice indices must be integers or None or have an __index__ method".
Proof.
  exact (non_integer_limit_is_an_error (options_payload three_strikes)
           "strike" "asc" three_strikes (VStr "5")
           eq_refl eq_refl ltac:(discriminate) (or_introl eq_refl) I).
Defined.


(** One contract with a type, one without, sorted by type. *)
Lemma mixed_keys_are_an_error_witness :
  exists t1 t2,
    format_historical_options
      (VDict (options_payload
                [[("contractID", VStr "A"); ("type", VStr "call")];
                 [("contractID", VStr "B")]]))
      (VInt 10) (VStr "type") (VStr "asc")
    = "Error formatting options data: " ++ exn_message (TypeError "<" [t1; t2]).
Proof.
  apply (mixed_keys_are_an_error
           (options_payload
              [[("contractID", VStr "A"); ("type", VStr "call")];
               [("contractID", VStr "B")]])
           "type" (VInt 10) (VStr "asc")
           [[("contractID", VStr "A"); ("type", VStr "call")];
            [("contractID", VStr "B")]]
           [("contractID", VStr "A"); ("type", VStr "call")]
           [("contractID", VStr "B")]
           (VStr "call") (VFloat zero)).
  - reflexivity.
  - reflexivity.
  - repeat constructor; eexists; reflexivity.
  - cbn. tauto.
  - cbn. tauto.
  - reflexivity.
  - reflexivity.
  - discriminate.
Defined.

End FurtherInstances.
